(** * Robolab web scanner: the scan pipeline of the [web-scanner] edge function

    A shallow embedding of [processScan] and of the functions it calls
    ([performScan], the six analyzers, [extractTopIssues],
    [calculateOverallScore], the inline report generator and its helper
    [wrapText]), of the request handler that starts it, of the two
    functions that read the audits of a PageSpeed answer and of the WCAG
    checker [checkWCAGCompliance], followed by the properties of the
    specification that concern them and by further properties of the code.

    Conventions of the embedding.
    - JavaScript strings are [string]s whose characters are the code units
      below 256; the regular expressions of the source only name ASCII
      characters, and [\s] and [trim] take as white space the code units
      9 to 13, 32 and 160 (the no-break space), which are the white space
      and line terminators of ECMAScript below 256.
    - The numbers the pipeline stores in its results (array lengths, scores
      obtained by [Math.round] or by subtracting integer penalties from 100)
      are integers and are modelled in [Z]. The arithmetic of
      [calculateOverallScore], which divides and multiplies by decimal
      weights, is that of binary64, on the primitive type [float]. The
      products of [percent] and of [wrapText] are taken in exact rationals
      [Q], as noted where they are defined.
    - [undefined] and missing object fields are [None].
    - Network and runtime effects (the outcome of [fetch], of
      [response.text()], of [DOMParser], the clock, the database) are inputs
      of the model: every analyzer is a function of what the outside world
      answers, and a thrown exception is the [Throw] outcome of [Exc]. *)

From Stdlib Require Import ZArith QArith Qround Qpower String Ascii List Bool Lia DecimalString Sorted.
From Stdlib Require Import Floats.
From Stdlib Require Uint63.
From stdpp Require Import gmap strings.
Import ListNotations.

Local Open Scope string_scope.
Local Open Scope list_scope.
Local Open Scope Z_scope.

(** ** JavaScript values and exceptions *)

Module JS.

(** What a [catch (error)] clause can receive: an [Error] object with its
    message, or any other thrown value. *)
Inductive Thrown :=
| ErrorObj (message : string)
| OtherThrown.

(** [error instanceof Error ? error.message : fallback] *)
Definition error_message (e : Thrown) (fallback : string) : string :=
  match e with
  | ErrorObj m => m
  | OtherThrown => fallback
  end.

(** A computation that returns a value or throws. *)
Inductive Exc (A : Type) :=
| Ret (a : A)
| Throw (e : Thrown).
Arguments Ret {A} a.
Arguments Throw {A} e.

Definition bind {A B} (c : Exc A) (f : A -> Exc B) : Exc B :=
  match c with
  | Ret a => f a
  | Throw e => Throw e
  end.

(** [try { c } catch (e) { h e }] *)
Definition try_catch {A} (c : Exc A) (h : Thrown -> Exc A) : Exc A :=
  match c with
  | Ret a => Ret a
  | Throw e => h e
  end.

(** [try { c } catch (e) { return h e }] where the handler cannot throw. *)
Definition catch_with {A} (c : Exc A) (h : Thrown -> A) : A :=
  match c with
  | Ret a => a
  | Throw e => h e
  end.

(** [x || d] on an optional number: [undefined] and [0] are falsy. *)
Definition num_or (x : option Z) (d : Z) : Z :=
  match x with
  | Some v => if v =? 0 then d else v
  | None => d
  end.

(** [s || d] on an optional string: [undefined] and the empty string are falsy. *)
Definition str_or (x : option string) (d : string) : string :=
  match x with
  | Some EmptyString => d
  | Some s => s
  | None => d
  end.

(** Truthiness of an optional number. *)
Definition truthy_num (x : option Z) : bool :=
  match x with
  | Some v => negb (v =? 0)
  | None => false
  end.

(** [x < y] on rationals. *)
Definition Qltb (x y : Q) : bool := negb (Qle_bool y x).

(** [Math.round]: the nearest integer, ties towards [+∞]. *)
Definition math_round (x : Q) : Z := Qfloor (x + (1 # 2)).

(** Decimal rendering of an integer, as template literals do. *)
Definition show_Z (z : Z) : string := NilZero.string_of_int (Z.to_int z).

(** [a.slice(0, n)] *)
Definition slice0 {A} (n : nat) (l : list A) : list A := firstn n l.
Arguments slice0 : simpl never.

(** [s.startsWith(p)] *)
Fixpoint startsWith (p s : string) : bool :=
  match p, s with
  | EmptyString, _ => true
  | String a p', String b s' => if Ascii.eqb a b then startsWith p' s' else false
  | String _ _, EmptyString => false
  end.

(** [s.includes(p)] *)
Fixpoint includes (p s : string) : bool :=
  startsWith p s ||
  match s with
  | EmptyString => false
  | String _ s' => includes p s'
  end.

End JS.
Export JS.

(** ** Binary64 numbers

    The numbers of [calculateOverallScore] are the binary64 numbers of
    JavaScript: its sums, products and quotients are the primitive
    operations on [float], each rounded to the nearest binary64. *)

(** The rational that a finite binary64 stands for. *)
Definition SF2Q (f : spec_float) : Q :=
  match f with
  | S754_finite s m e =>
      let v := (inject_Z (Zpos m) * Qpower 2 e)%Q in
      if s then (- v)%Q else v
  | _ => 0%Q
  end.

Definition value (x : float) : Q := SF2Q (Prim2SF x).

(** [Math.round] on a finite binary64: the nearest integer to the number it
    stands for, ties towards [+∞]. *)
Definition math_round64 (x : float) : Z := math_round (value x).

(** An integer of the source (a count, a score) as a binary64; integers
    below [2^53] in absolute value are binary64 numbers themselves. *)
Definition number (z : Z) : float :=
  if z <? 0 then (- of_uint63 (Uint63.of_Z (- z)))%float else of_uint63 (Uint63.of_Z z).

Notation "'do' x <- c ; k" := (bind c (fun x => k))
  (at level 10, x name, c at level 100, k at level 200).

(** ** Regular expressions

    The patterns of the source are values of [re]; [exec] is a backtracking
    matcher with the priorities of the ECMAScript semantics (leftmost start,
    alternatives left to right, greedy or lazy repetition, negative
    look-ahead, word boundary, capture groups). *)

Module Regex.

Inductive cls_item :=
| CChar (c : ascii)
| CRange (lo hi : ascii)
| CSpace          (* \s *)
| CNotSpace       (* \S *)
| CDigit.         (* \d *)

Inductive re :=
| Eps
| Chr (c : ascii)
| Cls (negated : bool) (items : list cls_item)
| Seq (r1 r2 : re)
| Alt (r1 r2 : re)
| Star (greedy : bool) (r : re)
| NegLook (r : re)
| WordB
| Group (r : re).

Definition Plus (r : re) : re := Seq r (Star true r).
Definition Opt (r : re) : re := Alt r Eps.

(** A literal run of characters. *)
Fixpoint lit (s : string) : re :=
  match s with
  | EmptyString => Eps
  | String c EmptyString => Chr c
  | String c s' => Seq (Chr c) (lit s')
  end.

Definition code (c : ascii) : nat := nat_of_ascii c.

Definition is_upper (c : ascii) : bool := (65 <=? code c)%nat && (code c <=? 90)%nat.
Definition is_lower (c : ascii) : bool := (97 <=? code c)%nat && (code c <=? 122)%nat.
Definition is_digit (c : ascii) : bool := (48 <=? code c)%nat && (code c <=? 57)%nat.
Definition is_space (c : ascii) : bool :=
  ((9 <=? code c)%nat && (code c <=? 13)%nat) || (code c =? 32)%nat || (code c =? 160)%nat.
Definition is_word (c : ascii) : bool :=
  is_upper c || is_lower c || is_digit c || (code c =? 95)%nat.

Definition to_lower (c : ascii) : ascii :=
  if is_upper c then ascii_of_nat (code c + 32) else c.
Definition to_upper (c : ascii) : ascii :=
  if is_lower c then ascii_of_nat (code c - 32) else c.

(** Character equality, under the [i] flag when [ci] is set. *)
Definition chr_eq (ci : bool) (a b : ascii) : bool :=
  if ci then Ascii.eqb (to_lower a) (to_lower b) else Ascii.eqb a b.

Definition item_has (i : cls_item) (c : ascii) : bool :=
  match i with
  | CChar a => Ascii.eqb a c
  | CRange lo hi => (code lo <=? code c)%nat && (code c <=? code hi)%nat
  | CSpace => is_space c
  | CNotSpace => negb (is_space c)
  | CDigit => is_digit c
  end.

Definition cls_has (ci : bool) (items : list cls_item) (c : ascii) : bool :=
  existsb (fun i => item_has i c || (ci && (item_has i (to_lower c) || item_has i (to_upper c)))) items.

(** The state of a match attempt: the character before the cursor (for
    [\b]), the rest of the input, and the captures closed so far. *)
Record mstate := MState {
  ms_prev : option ascii;
  ms_rest : string;
  ms_caps : list string
}.

Fixpoint str_take (n : nat) (s : string) : string :=
  match n, s with
  | S n', String c s' => String c (str_take n' s')
  | _, _ => EmptyString
  end.

(** The text consumed between two cursors of the same input. *)
Definition consumed (before after : string) : string :=
  str_take (String.length before - String.length after) before.

Definition at_word_boundary (st : mstate) : bool :=
  let a := match ms_prev st with Some c => is_word c | None => false end in
  let b := match ms_rest st with String c _ => is_word c | EmptyString => false end in
  xorb a b.

Fixpoint exec (ci : bool) (r : re) (st : mstate)
    (k : mstate -> option mstate) {struct r} : option mstate :=
  match r with
  | Eps => k st
  | Chr c =>
      match ms_rest st with
      | String a rest =>
          if chr_eq ci c a then k (MState (Some a) rest (ms_caps st)) else None
      | EmptyString => None
      end
  | Cls negated items =>
      match ms_rest st with
      | String a rest =>
          if xorb negated (cls_has ci items a)
          then k (MState (Some a) rest (ms_caps st)) else None
      | EmptyString => None
      end
  | Seq r1 r2 => exec ci r1 st (fun st1 => exec ci r2 st1 k)
  | Alt r1 r2 =>
      match exec ci r1 st k with
      | Some out => Some out
      | None => exec ci r2 st k
      end
  | Star greedy r1 =>
      (fix iter (fuel : nat) (cur : mstate) {struct fuel} : option mstate :=
         match fuel with
         | O => k cur
         | S fuel' =>
             let again :=
               exec ci r1 cur (fun nxt =>
                 if (String.length (ms_rest nxt) <? String.length (ms_rest cur))%nat
                 then iter fuel' nxt else None) in
             if greedy then
               match again with
               | Some out => Some out
               | None => k cur
               end
             else
               match k cur with
               | Some out => Some out
               | None => again
               end
         end) (S (String.length (ms_rest st))) st
  | NegLook r1 =>
      match exec ci r1 st Some with
      | Some _ => None
      | None => k st
      end
  | WordB => if at_word_boundary st then k st else None
  | Group r1 =>
      exec ci r1 st (fun st1 =>
        k (MState (ms_prev st1) (ms_rest st1)
             (ms_caps st1 ++ [consumed (ms_rest st) (ms_rest st1)])))
  end.

(** One successful match: its text, its captures, and the cursor after it. *)
Record found := Found {
  f_text : string;
  f_caps : list string;
  f_after : mstate
}.

(** A match attempt anchored at the cursor. *)
Definition match_here (ci : bool) (r : re) (prev : option ascii) (s : string) : option found :=
  match exec ci r (MState prev s []) Some with
  | Some st => Some (Found (consumed s (ms_rest st)) (ms_caps st) st)
  | None => None
  end.

(** The leftmost match at or after the cursor ([RegExp.prototype.exec]
    without the [g] flag, and the search step of the [g] loop). *)
Fixpoint search (ci : bool) (r : re) (prev : option ascii) (s : string) : option found :=
  match match_here ci r prev s with
  | Some f => Some f
  | None =>
      match s with
      | String c s' => search ci r (Some c) s'
      | EmptyString => None
      end
  end.

(** [re.test(s)] *)
Definition test (ci : bool) (r : re) (s : string) : bool :=
  match search ci r None s with
  | Some _ => true
  | None => false
  end.

(** [s.match(re)] without the [g] flag: the first match, or [null]. *)
Definition match_first (ci : bool) (r : re) (s : string) : option found :=
  search ci r None s.

(** [s.match(re)?.[1]] *)
Definition capture1 (m : option found) : option string :=
  match m with
  | Some f => nth_error (f_caps f) 0
  | None => None
  end.

(** The successive matches of the [g] loop: after a match the search
    resumes at its end, one character further when it was empty. *)
Fixpoint all_from (fuel : nat) (ci : bool) (r : re) (prev : option ascii) (s : string)
    : list found :=
  match fuel with
  | O => []
  | S fuel' =>
      match search ci r prev s with
      | None => []
      | Some f =>
          let st := f_after f in
          match f_text f, ms_rest st with
          | EmptyString, String c rest => f :: all_from fuel' ci r (Some c) rest
          | EmptyString, EmptyString => [f]
          | _, rest => f :: all_from fuel' ci r (ms_prev st) rest
          end
      end
  end.

(** [s.match(re) || []] with the [g] flag: the texts of all matches. *)
Definition match_all (ci : bool) (r : re) (s : string) : list string :=
  map f_text (all_from (S (String.length s)) ci r None s).

(** [s.replace(re, '')] with the [g] flag. *)
Fixpoint remove_from (fuel : nat) (ci : bool) (r : re) (prev : option ascii) (s : string)
    : string :=
  match fuel with
  | O => s
  | S fuel' =>
      match match_here ci r prev s with
      | Some f =>
          match f_text f, s with
          | EmptyString, String c rest => String c (remove_from fuel' ci r (Some c) rest)
          | EmptyString, EmptyString => EmptyString
          | _, _ => remove_from fuel' ci r (ms_prev (f_after f)) (ms_rest (f_after f))
          end
      | None =>
          match s with
          | String c rest => String c (remove_from fuel' ci r (Some c) rest)
          | EmptyString => EmptyString
          end
      end
  end.

Definition remove_all (ci : bool) (r : re) (s : string) : string :=
  remove_from (S (String.length s)) ci r None s.

End Regex.
Import Regex.

(** ** The patterns of the source

    In the comments that quote a pattern, [q] stands for the class of the
    two quote characters (double and single) and [^q] for its complement. *)

Module Patterns.

(** The double quote character. *)
Definition dq : ascii := ascii_of_nat 34.

Definition quote : re := Cls false [CChar dq; CChar "'"].        (* [q] *)
Definition not_quote : re := Cls true [CChar dq; CChar "'"].     (* [^q] *)
Definition not_gt : re := Cls true [CChar ">"].                  (* [^>] *)
Definition spaces : re := Star true (Cls false [CSpace]).        (* \s* *)
Definition digits1 : re := Plus (Cls false [CDigit]).            (* \d+ *)

(** Concatenation of a list of patterns. *)
Fixpoint cat (rs : list re) : re :=
  match rs with
  | [] => Eps
  | [r] => r
  | r :: rs' => Seq r (cat rs')
  end.

(** Alternation of a list of literals: [(a|b|c)]. *)
Fixpoint alts (ls : list string) : re :=
  match ls with
  | [] => Eps
  | [l] => lit l
  | l :: ls' => Alt (lit l) (alts ls')
  end.

(** <tag[^>]*> *)
Definition open_tag (tag : string) : re := cat [lit ("<" ++ tag); Star true not_gt; Chr ">"].

(** /document\.cookie\s*=/gi *)
Definition re_cookie : re := cat [lit "document.cookie"; spaces; Chr "="].

(** /fetch\([q]([^q]+)[q]|axios\.[a-z]+\([q]([^q]+)[q]|\$\.ajax\([q]([^q]+)[q]/g *)
Definition quoted_arg : re := cat [quote; Group (Plus not_quote); quote].
Definition re_http_call : re :=
  Alt (cat [lit "fetch("; quoted_arg])
   (Alt (cat [lit "axios."; Plus (Cls false [CRange "a" "z"]); Chr "("; quoted_arg])
        (cat [lit "$.ajax("; quoted_arg])).

(** /[q]([^q]+)[q]/ *)
Definition re_quoted : re := quoted_arg.

(** /<img(?![^>]*alt=)[^>]*>/gi *)
Definition re_img_without_alt : re :=
  cat [lit "<img"; NegLook (cat [Star true not_gt; lit "alt="]); Star true not_gt; Chr ">"].

(** /<html[^>]*lang=/i *)
Definition re_html_lang : re := cat [lit "<html"; Star true not_gt; lit "lang="].

(** /<button[^>]*>\s*<\/button>/gi *)
Definition re_button_without_text : re :=
  cat [lit "<button"; Star true not_gt; Chr ">"; spaces; lit "</button>"].

(** /<input[^>]*>/gi, /<label[^>]*>/gi, /<h1[^>]*>/gi *)
Definition re_input : re := open_tag "input".
Definition re_label : re := open_tag "label".
Definition re_h1 : re := open_tag "h1".

(** /<h[1-6][^>]*>/gi *)
Definition re_heading : re :=
  cat [lit "<h"; Cls false [CRange "1" "6"]; Star true not_gt; Chr ">"].

(** /<a[^>]*href=[^>]*>\s*<\/a>/gi *)
Definition re_link_without_text : re :=
  cat [lit "<a"; Star true not_gt; lit "href="; Star true not_gt; Chr ">"; spaces; lit "</a>"].

(** /<a[^>]*href=[q]#(main|content|skip)[q][^>]*>/i *)
Definition re_skip_link : re :=
  cat [lit "<a"; Star true not_gt; lit "href="; quote; Chr "#";
       Group (alts ["main"; "content"; "skip"]); quote; Star true not_gt; Chr ">"].

(** /tabindex=[q]-\d+[q]/gi *)
Definition re_tabindex_negative : re :=
  cat [lit "tabindex="; quote; Chr "-"; digits1; quote].

(** /<img[^>]*>/gi, /<script[^>]*>/gi *)
Definition re_img : re := open_tag "img".
Definition re_script : re := open_tag "script".

(** /<link[^>]*rel=[q]stylesheet[q][^>]*>/gi *)
Definition re_stylesheet : re :=
  cat [lit "<link"; Star true not_gt; lit "rel="; quote; lit "stylesheet"; quote;
       Star true not_gt; Chr ">"].

(** /<button[^>]*>([\s\S]*?)<\/button>/gi *)
Definition re_button : re :=
  cat [lit "<button"; Star true not_gt; Chr ">";
       Group (Star false (Cls false [CSpace; CNotSpace])); lit "</button>"].

(** /<a[^>]*href=[q]([^q]{0,})[q][^>]*>/gi, the group being [^q] starred *)
Definition re_anchor : re :=
  cat [lit "<a"; Star true not_gt; lit "href="; quote; Group (Star true not_quote); quote;
       Star true not_gt; Chr ">"].

(** /<form[^>]*>/gi *)
Definition re_form : re := open_tag "form".

(** /<[^>]*>/g *)
Definition re_any_tag : re := cat [Chr "<"; Star true not_gt; Chr ">"].

End Patterns.
Import Patterns.

(** ** Data model *)

(** [status?: 'pending' | 'completed' | 'failed'] *)
Inductive Status := pending | completed | failed.

(** [section?.status === "completed"] *)
Definition is_completed (s : option Status) : bool :=
  match s with
  | Some completed => true
  | _ => false
  end.

Record SecurityIssue := {
  si_severity : string;
  si_category : option string;
  si_description : option string;
  si_message : option string
}.

(** [PipelineSection<SecurityResults>] *)
Record SecuritySection := {
  sec_issues : option (list SecurityIssue);
  sec_checks_performed : option Z;
  sec_checks_passed : option Z;
  sec_https_enabled : option bool;
  sec_status : option Status;
  sec_error : option string
}.

Record AccessibilityIssue := {
  ai_severity : string;
  ai_message : option string;
  ai_count : option Z;
  ai_wcag : option string
}.

(** [PipelineSection<AccessibilityResults>] *)
Record AccessibilitySection := {
  acc_issues : option (list AccessibilityIssue);
  acc_total_issues : option Z;
  acc_score : option Z;
  acc_wcag_level : option string;
  acc_status : option Status;
  acc_error : option string
}.

(** [PipelineSection<E2EResults>] *)
Record E2ESection := {
  e2e_buttons_found : option Z;
  e2e_links_found : option Z;
  e2e_forms_found : option Z;
  e2e_primary_actions : option (list string);
  e2e_status : option Status;
  e2e_error : option string
}.

Record APIEndpoint := {
  ep_method : string;
  ep_path : string;
  ep_status : Z
}.

(** [PipelineSection<APIResults>] *)
Record APISection := {
  api_endpoints_detected : option Z;
  api_endpoints : option (list APIEndpoint);
  api_status : option Status;
  api_error : option string
}.

Record LighthouseScores := {
  lh_performance : option Z;
  lh_seo : option Z;
  lh_accessibility : option Z;
  lh_bestPractices : option Z
}.

(** [core_web_vitals]: five rounded timings and the layout shift, which
    keeps three decimals. *)
Record CoreWebVitals := {
  cwv_fcp : Z;
  cwv_lcp : Z;
  cwv_tti : Z;
  cwv_tbt : Z;
  cwv_cls : Q;
  cwv_speedIndex : Z
}.

(** [PipelineSection<PerformanceResults>] *)
Record PerformanceSection := {
  perf_score : option Z;
  perf_load_time_ms : option Z;
  perf_image_count : option Z;
  perf_scripts_count : option Z;
  perf_stylesheets_count : option Z;
  perf_compression_enabled : option bool;
  perf_caching_enabled : option bool;
  perf_lighthouse_scores : option LighthouseScores;
  perf_core_web_vitals : option CoreWebVitals;
  perf_source : option string;
  perf_opportunities : option (list string);
  perf_diagnostics : option (list string);
  perf_status : option Status;
  perf_error : option string
}.

Record Technology := {
  tech_name : string;
  tech_confidence : string;
  tech_version : option string;
  tech_category : string
}.

(** [PipelineSection<TechStackResult>] *)
Record TechStackSection := {
  ts_detected : option (list Technology);
  ts_total_detected : option Z;
  ts_status : option Status;
  ts_error : option string
}.

(** [PipelineResults] *)
Record PipelineResults := {
  e2e : option E2ESection;
  api : option APISection;
  security : option SecuritySection;
  performance : option PerformanceSection;
  accessibility : option AccessibilitySection;
  techStack : option TechStackSection
}.

Record TopIssue := {
  ti_category : string;
  ti_severity : string;
  ti_description : string
}.

(** ** The outside world *)

(** What [fetch] resolves to: the status line, the headers (names in lower
    case, as [Headers.get] normalises them) and the outcome of
    [response.text()]. *)
Record Response := {
  resp_ok : bool;
  resp_status : Z;
  resp_headers : gmap string string;
  resp_text : Exc string
}.

(** [headers.get(name)] *)
Definition headers_get (name : string) (r : Response) : option string :=
  resp_headers r !! name.

(** Truthiness of [headers.get(name)]: present and not empty. *)
Definition truthy_str (o : option string) : bool :=
  match o with
  | Some (String _ _) => true
  | _ => false
  end.

(** [if (c) l.push(x)] *)
Definition push_if {A} (c : bool) (x : A) (l : list A) : list A :=
  if c then l ++ [x] else l.

Definition len {A} (l : list A) : Z := Z.of_nat (length l).

(** [s.trim()] *)
Fixpoint trim_start (s : string) : string :=
  match s with
  | String c s' => if is_space c then trim_start s' else s
  | EmptyString => EmptyString
  end.

Fixpoint trim_end (s : string) : string :=
  match s with
  | EmptyString => EmptyString
  | String c s' =>
      match trim_end s' with
      | EmptyString => if is_space c then EmptyString else String c EmptyString
      | t => String c t
      end
  end.

Definition trim (s : string) : string := trim_end (trim_start s).

Definition nonempty (s : string) : bool :=
  match s with
  | EmptyString => false
  | String _ _ => true
  end.

(** [s.split(sep)] for a one-character separator. *)
Fixpoint split_on (sep : ascii) (s : string) : list string :=
  match s with
  | EmptyString => [EmptyString]
  | String c s' =>
      if Ascii.eqb c sep then EmptyString :: split_on sep s'
      else match split_on sep s' with
           | p :: ps => String c p :: ps
           | [] => [String c EmptyString]
           end
  end.

(** What [new DOMParser().parseFromString(html, 'text/html')] exposes to the
    scan: the [textContent] of every [button], and the numbers of [a[href]]
    and [form] elements. *)
Record DomDoc := {
  dom_buttons : list string;
  dom_anchors : nat;
  dom_forms : nat
}.

(** The body of the PageSpeed Insights answer, as far as the scan reads it.
    [ps_opportunities] and [ps_diagnostics] stand for what
    [extractPageSpeedOpportunities] and [extractPageSpeedDiagnostics]
    return on its audits. *)
Record PageSpeedData := {
  ps_performance : option Q;
  ps_accessibility : option Q;
  ps_bestPractices : option Q;
  ps_seo : option Q;
  ps_firstContentfulPaint : option Q;
  ps_largestContentfulPaint : option Q;
  ps_interactive : option Q;
  ps_totalBlockingTime : option Q;
  ps_cumulativeLayoutShift : option Q;
  ps_speedIndex : option Q;
  ps_observedLoad : option Q;
  ps_optimized_images : option Z;
  ps_text_compression_full : bool;
  ps_long_cache_ttl_good : bool;
  ps_opportunities : list string;
  ps_diagnostics : list string
}.

Record PageSpeedResponse := {
  psr_ok : bool;
  psr_status : Z;
  psr_json : Exc PageSpeedData
}.

(** Everything the six analyzers obtain from outside during one
    [performScan]: each analyzer issues its own request. *)
Record World := {
  w_fetch_e2e : Exc Response;
  w_dom : Exc DomDoc;
  w_fetch_api : Exc Response;
  w_fetch_security : Exc Response;
  w_pagespeed_key : option string;
  w_fetch_pagespeed : Exc PageSpeedResponse;
  w_fetch_performance : Exc Response;
  w_load_time : Q;
  w_fetch_accessibility : Exc Response;
  w_fetch_techstack : Exc Response
}.

(** ** The analyzers *)

(** *** Interactive elements ([performE2EScan]) *)

Definition e2e_failed (msg : string) : E2ESection :=
  {| e2e_buttons_found := Some 0; e2e_links_found := Some 0; e2e_forms_found := Some 0;
     e2e_primary_actions := Some []; e2e_status := Some failed; e2e_error := Some msg |}.

Definition e2e_from_dom (doc : DomDoc) : E2ESection :=
  let primaryActions := slice0 5 (List.filter nonempty (map trim (dom_buttons doc))) in
  {| e2e_buttons_found := Some (len (dom_buttons doc));
     e2e_links_found := Some (Z.of_nat (dom_anchors doc));
     e2e_forms_found := Some (Z.of_nat (dom_forms doc));
     e2e_primary_actions := Some primaryActions;
     e2e_status := Some completed; e2e_error := None |}.

Definition e2e_from_regex (html : string) : E2ESection :=
  let buttonMatches := match_all true re_button html in
  let linkMatches := match_all true re_anchor html in
  let formMatches := match_all true re_form html in
  {| e2e_buttons_found := Some (len buttonMatches);
     e2e_links_found := Some (len linkMatches);
     e2e_forms_found := Some (len formMatches);
     e2e_primary_actions :=
       Some (List.filter nonempty
               (map (fun btn => trim (remove_all false re_any_tag btn)) (slice0 5 buttonMatches)));
     e2e_status := Some completed; e2e_error := None |}.

(** The statements of the outer [try] block. *)
Definition performE2EScan_try (w : World) : Exc E2ESection :=
  do response <- w_fetch_e2e w;
  if negb (resp_ok response)
  then Ret (e2e_failed ("HTTP " ++ show_Z (resp_status response)))
  else
    do html <- resp_text response;
    try_catch
      (do doc <- w_dom w; Ret (e2e_from_dom doc))
      (fun _ => Ret (e2e_from_regex html)).

Definition performE2EScan (w : World) : Exc E2ESection :=
  try_catch (performE2EScan_try w)
    (fun error => Ret (e2e_failed (error_message error "E2E scan failed"))).

(** *** API surface ([performAPIScan]) *)

Definition api_failed (msg : string) : APISection :=
  {| api_endpoints_detected := Some 0; api_endpoints := Some [];
     api_status := Some failed; api_error := Some msg |}.

(** The body of [scriptMatches.forEach]: the endpoints pushed for one match. *)
Definition endpoint_of_match (m : string) : list APIEndpoint :=
  match capture1 (match_first false re_quoted m) with
  | Some path =>
      if nonempty path && startsWith "/" path
      then [{| ep_method := "GET"; ep_path := path; ep_status := 0 |}]
      else []
  | None => []
  end.

Definition api_endpoints_of (html : string) : list APIEndpoint :=
  flat_map endpoint_of_match (match_all false re_http_call html).

Definition performAPIScan_try (w : World) : Exc APISection :=
  do response <- w_fetch_api w;
  do html <- resp_text response;
  let endpoints := api_endpoints_of html in
  Ret {| api_endpoints_detected := Some (len endpoints);
         api_endpoints := Some (slice0 10 endpoints);
         api_status := Some completed; api_error := None |}.

Definition performAPIScan (w : World) : Exc APISection :=
  try_catch (performAPIScan_try w)
    (fun error => Ret (api_failed (error_message error "API scan failed"))).

(** *** Security headers ([performSecurityScan]) *)

Definition sec_issue (severity description : string) : SecurityIssue :=
  {| si_severity := severity; si_category := Some "Security";
     si_description := Some description; si_message := None |}.

Definition issue_hsts := sec_issue "high"
  "Missing HSTS header - site vulnerable to protocol downgrade attacks".
Definition issue_content_type := sec_issue "medium"
  "Missing X-Content-Type-Options header - vulnerable to MIME sniffing".
Definition issue_frame := sec_issue "high"
  "Missing X-Frame-Options/CSP - vulnerable to clickjacking attacks".
Definition issue_csp := sec_issue "medium"
  "No Content-Security-Policy - vulnerable to XSS attacks".
Definition issue_xss := sec_issue "low"
  "Missing X-XSS-Protection header".
Definition issue_cookie := sec_issue "high"
  "JavaScript cookie manipulation detected - potential XSS vector".

(** The issues pushed while the headers are inspected, before the body is read. *)
Definition header_issues (response : Response) : list SecurityIssue :=
  let get name := truthy_str (headers_get name response) in
  let issues := [] in
  let issues := push_if (negb (get "strict-transport-security")) issue_hsts issues in
  let issues := push_if (negb (get "x-content-type-options")) issue_content_type issues in
  let issues := push_if (negb (get "x-frame-options") && negb (get "content-security-policy"))
                        issue_frame issues in
  let issues := push_if (negb (get "content-security-policy")) issue_csp issues in
  let issues := push_if (negb (get "x-xss-protection")) issue_xss issues in
  issues.

Definition security_issues (response : Response) (html : string) : list SecurityIssue :=
  let cookieMatches := match_all true re_cookie html in
  push_if (0 <? len cookieMatches) issue_cookie (header_issues response).

Definition sec_failed (msg : string) : SecuritySection :=
  {| sec_issues := Some []; sec_checks_performed := Some 0; sec_checks_passed := Some 0;
     sec_https_enabled := Some false; sec_status := Some failed; sec_error := Some msg |}.

Definition performSecurityScan_try (url : string) (w : World) : Exc SecuritySection :=
  do response <- w_fetch_security w;
  do html <- resp_text response;
  let issues := security_issues response html in
  Ret {| sec_issues := Some issues;
         sec_checks_performed := Some 7;
         sec_checks_passed := Some (7 - len issues);
         sec_https_enabled := Some (startsWith "https" url);
         sec_status := Some completed; sec_error := None |}.

Definition performSecurityScan (url : string) (w : World) : Exc SecuritySection :=
  try_catch (performSecurityScan_try url w)
    (fun error => Ret (sec_failed (error_message error "Security scan failed"))).

(** *** Performance ([performPerformanceScan]) *)

(** [x || 0] on an optional rational. *)
Definition qnum_or0 (x : option Q) : Q :=
  match x with
  | Some v => v
  | None => 0%Q
  end.

(** [Math.round((score || 0) * 100)], the product taken exactly. In
    binary64 the product of a score close to a half-percent may fall on the
    other side of the half (0.285 gives 28.499999999999996, hence 28, where
    the exact product gives 29); the properties below use of [percent] that
    its value is an integer, between 0 and 100 when the score is a fraction
    of 1, which holds of both. *)
Definition percent (x : option Q) : Z := math_round (qnum_or0 x * 100).

Definition performBasicPerformanceScan (w : World) : Exc PerformanceSection :=
  do response <- w_fetch_performance w;
  let loadTime := w_load_time w in
  do html <- resp_text response;
  let imageCount := len (match_all true re_img html) in
  let scriptCount := len (match_all true re_script html) in
  let stylesheetCount := len (match_all true re_stylesheet html) in
  let hasGzip :=
    match headers_get "content-encoding" response with
    | Some enc => Some (includes "gzip" enc || includes "br" enc)
    | None => None
    end in
  let hasCaching := truthy_str (headers_get "cache-control" response) in
  let score := 100 in
  let score := if Qltb 3000 loadTime then score - 30
               else if Qltb 1500 loadTime then score - 15 else score in
  let score := if 20 <? imageCount then score - 10 else score in
  let score := if 15 <? scriptCount then score - 10 else score in
  let score := if 5 <? stylesheetCount then score - 5 else score in
  let score := if negb (match hasGzip with Some b => b | None => false end)
               then score - 15 else score in
  let score := if negb hasCaching then score - 10 else score in
  let score := Z.max 0 score in
  Ret {| perf_score := Some score;
         perf_load_time_ms := Some (math_round loadTime);
         perf_image_count := Some imageCount;
         perf_scripts_count := Some scriptCount;
         perf_stylesheets_count := Some stylesheetCount;
         perf_compression_enabled := hasGzip;
         perf_caching_enabled := Some hasCaching;
         perf_lighthouse_scores :=
           Some {| lh_performance := Some score; lh_seo := Some (Z.max 0 (score - 10));
                   lh_accessibility := None; lh_bestPractices := None |};
         perf_core_web_vitals := None;
         perf_source := Some "basic-scan";
         perf_opportunities := None; perf_diagnostics := None;
         perf_status := Some completed; perf_error := None |}.

Definition pagespeed_section (data : PageSpeedData) : PerformanceSection :=
  let performanceScore := percent (ps_performance data) in
  {| perf_score := Some performanceScore;
     perf_load_time_ms := Some (math_round (qnum_or0 (ps_observedLoad data)));
     perf_image_count := Some (num_or (ps_optimized_images data) 0);
     perf_scripts_count := None;
     perf_stylesheets_count := None;
     perf_compression_enabled := Some (ps_text_compression_full data);
     perf_caching_enabled := Some (ps_long_cache_ttl_good data);
     perf_lighthouse_scores :=
       Some {| lh_performance := Some performanceScore;
               lh_seo := Some (percent (ps_seo data));
               lh_accessibility := Some (percent (ps_accessibility data));
               lh_bestPractices := Some (percent (ps_bestPractices data)) |};
     perf_core_web_vitals :=
       Some {| cwv_fcp := math_round (qnum_or0 (ps_firstContentfulPaint data));
               cwv_lcp := math_round (qnum_or0 (ps_largestContentfulPaint data));
               cwv_tti := math_round (qnum_or0 (ps_interactive data));
               cwv_tbt := math_round (qnum_or0 (ps_totalBlockingTime data));
               cwv_cls :=
                 (inject_Z (math_round (qnum_or0 (ps_cumulativeLayoutShift data) * 1000)) / 1000)%Q;
               cwv_speedIndex := math_round (qnum_or0 (ps_speedIndex data)) |};
     perf_source := Some "google-pagespeed";
     perf_opportunities := Some (ps_opportunities data);
     perf_diagnostics := Some (ps_diagnostics data);
     perf_status := Some completed; perf_error := None |}.

Definition performGooglePageSpeedScan (w : World) : Exc PerformanceSection :=
  try_catch
    (do response <- w_fetch_pagespeed w;
     if negb (psr_ok response)
     then Throw (ErrorObj ("PageSpeed API error: " ++ show_Z (psr_status response)))
     else
       do data <- psr_json response;
       Ret (pagespeed_section data))
    (fun _ => performBasicPerformanceScan w).

Definition perf_failed (msg : string) : PerformanceSection :=
  {| perf_score := Some 0; perf_load_time_ms := Some 0;
     perf_image_count := None; perf_scripts_count := None; perf_stylesheets_count := None;
     perf_compression_enabled := None; perf_caching_enabled := None;
     perf_lighthouse_scores := None; perf_core_web_vitals := None;
     perf_source := None; perf_opportunities := None; perf_diagnostics := None;
     perf_status := Some failed; perf_error := Some msg |}.

Definition performPerformanceScan_try (w : World) : Exc PerformanceSection :=
  if truthy_str (w_pagespeed_key w)
  then performGooglePageSpeedScan w
  else performBasicPerformanceScan w.

Definition performPerformanceScan (w : World) : Exc PerformanceSection :=
  try_catch (performPerformanceScan_try w)
    (fun error => Ret (perf_failed (error_message error "Performance scan failed"))).

(** *** Accessibility ([performAccessibilityScan]) *)

Definition acc_issue (severity : string) (count : option Z) (message wcag : string)
    : AccessibilityIssue :=
  {| ai_severity := severity; ai_message := Some message; ai_count := count;
     ai_wcag := Some wcag |}.

(** [severityPoints[severity]] *)
Definition severityPoints (severity : string) : option Z :=
  if String.eqb severity "critical" then Some 25
  else if String.eqb severity "high" then Some 15
  else if String.eqb severity "medium" then Some 8
  else if String.eqb severity "low" then Some 3
  else None.

Definition accessibility_issues (html : string) : list AccessibilityIssue :=
  let issues := [] in
  let imgWithoutAlt := len (match_all true re_img_without_alt html) in
  let issues :=
    push_if (0 <? imgWithoutAlt)
      (acc_issue "critical" (Some imgWithoutAlt)
         (show_Z imgWithoutAlt ++ " images missing alt text - screen readers cannot describe images")
         "WCAG 2.1 Level A (1.1.1)") issues in
  let hasLang := test true re_html_lang html in
  let issues :=
    push_if (negb hasLang)
      (acc_issue "high" None
         "Missing lang attribute on html element - affects screen reader pronunciation"
         "WCAG 2.1 Level A (3.1.1)") issues in
  let buttonWithoutText := len (match_all true re_button_without_text html) in
  let issues :=
    push_if (0 <? buttonWithoutText)
      (acc_issue "critical" (Some buttonWithoutText)
         (show_Z buttonWithoutText
            ++ " buttons without accessible text - screen readers cannot announce purpose")
         "WCAG 2.1 Level A (4.1.2)") issues in
  let inputCount := len (match_all true re_input html) in
  let labelCount := len (match_all true re_label html) in
  let issues :=
    push_if (labelCount + 2 <? inputCount)
      (acc_issue "high" (Some (inputCount - labelCount))
         (show_Z (inputCount - labelCount)
            ++ " form inputs possibly without labels - difficult for screen reader users")
         "WCAG 2.1 Level A (1.3.1, 3.3.2)") issues in
  let headingsMatch := match_all true re_heading html in
  let h1Count := len (match_all true re_h1 html) in
  let issues :=
    if (h1Count =? 0) && (0 <? len headingsMatch) then
      issues ++ [acc_issue "medium" None
                   "Page has no H1 heading - impacts document structure and navigation"
                   "WCAG 2.1 Level A (1.3.1)"]
    else if 1 <? h1Count then
      issues ++ [acc_issue "medium" None
                   ("Page has " ++ show_Z h1Count ++ " H1 headings - should typically have only one")
                   "WCAG 2.1 Best Practice"]
    else issues in
  let linksWithoutText := len (match_all true re_link_without_text html) in
  let issues :=
    push_if (0 <? linksWithoutText)
      (acc_issue "high" (Some linksWithoutText)
         (show_Z linksWithoutText
            ++ " links without text - screen readers cannot announce destination")
         "WCAG 2.1 Level A (2.4.4)") issues in
  let hasSkipLink := test true re_skip_link html in
  let issues :=
    push_if (negb hasSkipLink)
      (acc_issue "low" None
         "No skip navigation link found - keyboard users must tab through all navigation"
         "WCAG 2.1 Level A (2.4.1)") issues in
  let tabindexNegative := len (match_all true re_tabindex_negative html) in
  let issues :=
    push_if (0 <? tabindexNegative)
      (acc_issue "medium" (Some tabindexNegative)
         (show_Z tabindexNegative
            ++ " elements with negative tabindex - removes from keyboard navigation")
         "WCAG 2.1 Level A (2.1.1)") issues in
  issues.

(** [issues.reduce((sum, issue) => sum + (severityPoints[issue.severity] || 10), 0)] *)
Definition totalDeduction (issues : list AccessibilityIssue) : Z :=
  fold_left (fun sum issue => sum + num_or (severityPoints (ai_severity issue)) 10) issues 0.

(** [issues.some(i => i.severity === "critical" || i.severity === "high")] *)
Definition has_blocking_issue (issues : list AccessibilityIssue) : bool :=
  existsb (fun i => String.eqb (ai_severity i) "critical" || String.eqb (ai_severity i) "high")
          issues.

Definition acc_failed (msg : string) : AccessibilitySection :=
  {| acc_issues := Some []; acc_total_issues := Some 0; acc_score := Some 0;
     acc_wcag_level := Some "Unable to determine";
     acc_status := Some failed; acc_error := Some msg |}.

Definition accessibility_section (html : string) : AccessibilitySection :=
  let issues := accessibility_issues html in
  {| acc_issues := Some issues;
     acc_total_issues := Some (len issues);
     acc_score := Some (Z.max 0 (100 - totalDeduction issues));
     acc_wcag_level :=
       Some (if has_blocking_issue issues then "Fails Level A"
             else "Passes Level A (potential AA issues)");
     acc_status := Some completed; acc_error := None |}.

Definition performAccessibilityScan_try (w : World) : Exc AccessibilitySection :=
  do response <- w_fetch_accessibility w;
  do html <- resp_text response;
  Ret (accessibility_section html).

Definition performAccessibilityScan (w : World) : Exc AccessibilitySection :=
  try_catch (performAccessibilityScan_try w)
    (fun error => Ret (acc_failed (error_message error "Accessibility scan failed"))).

(** *** Technology detection ([detectTechStack]) *)

Module TechPatterns.

Definition not_dq : re := Cls true [CChar dq].
Definition version3 : re :=
  Group (cat [digits1; Chr "."; digits1; Chr "."; digits1]).          (* (\d+\.\d+\.\d+) *)
Definition dot_or_dash : re := Opt (Cls false [CChar "."; CChar "-"]). (* [.-]? *)

(** / buildId : ([^dq]+) / with its three fields between double quotes *)
Definition re_build_id : re :=
  cat [Chr dq; lit "buildId"; Chr dq; Chr ":"; Chr dq; Group (Plus not_dq); Chr dq].
(** /react[.-]?dom/i *)
Definition re_react_dom : re := cat [lit "react"; dot_or_dash; lit "dom"].
(** /vue[.-]?js/i *)
Definition re_vue_js : re := cat [lit "vue"; dot_or_dash; lit "js"].
(** /<[^>]*ng-[^>]*>/i *)
Definition re_ng_attr : re :=
  cat [Chr "<"; Star true not_gt; lit "ng-"; Star true not_gt; Chr ">"].
(** / ng-version= ([^dq]+) / with the value between double quotes *)
Definition re_ng_version : re :=
  cat [lit "ng-version="; Chr dq; Group (Plus not_dq); Chr dq].
(** new RegExp('wp-content/themes/[^/]+/([0-9.]+)') *)
Definition re_wp_theme : re :=
  cat [lit "wp-content/themes/"; Plus (Cls true [CChar "/"]); Chr "/";
       Group (Plus (Cls false [CRange "0" "9"; CChar "."]))].
(** /sites\/(default|all)\/modules/i *)
Definition re_drupal_modules : re :=
  cat [lit "sites/"; Group (alts ["default"; "all"]); lit "/modules"].
(** /<script[^>]*src=[q][^q]*svelte[^q]*[q]/i *)
Definition re_svelte_script : re :=
  cat [lit "<script"; Star true not_gt; lit "src="; quote; Star true not_quote;
       lit "svelte"; Star true not_quote; quote].
(** /jquery[.-]?(\d+\.\d+\.\d+)?/i *)
Definition re_jquery : re := cat [lit "jquery"; dot_or_dash; Opt version3].
(** /jquery[.-]?(\d+\.\d+\.\d+)/i *)
Definition re_jquery_version : re := cat [lit "jquery"; dot_or_dash; version3].
(** /class=[q][^q]*\b(flex|grid|bg-|text-|p-|m-|w-|h-)[^q]*[q]/ *)
Definition re_class_with (names : list string) : re :=
  cat [lit "class="; quote; Star true not_quote; WordB; Group (alts names);
       Star true not_quote; quote].
Definition re_tailwind_class : re :=
  re_class_with ["flex"; "grid"; "bg-"; "text-"; "p-"; "m-"; "w-"; "h-"].
(** /class=[q][^q]*\b(container|row|col-|btn|navbar)[^q]*[q]/ *)
Definition re_bootstrap_class : re :=
  re_class_with ["container"; "row"; "col-"; "btn"; "navbar"].

End TechPatterns.
Import TechPatterns.

Definition tech (name confidence : string) (version : option string) (category : string)
    : Technology :=
  {| tech_name := name; tech_confidence := confidence; tech_version := version;
     tech_category := category |}.

Definition detected_technologies (response : Response) (html : string) : list Technology :=
  let has p := includes p html in
  let found ci r := test ci r html in
  let group1 ci r := capture1 (match_first ci r html) in
  let detected := [] in
  let detected :=
    if has "__NEXT_DATA__" || has "_next/static" then
      detected ++ [tech "Next.js" "high"
                     (if truthy_str (group1 false re_build_id) then Some "detected" else None)
                     "Framework"]
    else if has "react" || has "React" || has "_react" || found true re_react_dom then
      detected ++ [tech "React" "medium" None "Library"]
    else detected in
  let detected :=
    if has "__nuxt" || has "_nuxt/" then
      detected ++ [tech "Nuxt.js" "high" None "Framework"]
    else if has "vue" || has "Vue" || found true re_vue_js then
      detected ++ [tech "Vue.js" "medium" None "Framework"]
    else detected in
  let detected :=
    push_if (has "ng-version" || found true re_ng_attr)
      (tech "Angular" "high" (group1 false re_ng_version) "Framework") detected in
  let detected :=
    push_if (has "wp-content" || has "wp-includes" || has "/wordpress/")
      (tech "WordPress" "high" (group1 false re_wp_theme) "CMS") detected in
  let detected :=
    push_if (has "Drupal" || found true re_drupal_modules)
      (tech "Drupal" "high" None "CMS") detected in
  let detected :=
    push_if (has "__svelte" || found true re_svelte_script)
      (tech "Svelte" "medium" None "Framework") detected in
  let detected :=
    push_if (found true re_jquery)
      (tech "jQuery" "high" (group1 true re_jquery_version) "Library") detected in
  let detected :=
    push_if (has "tailwind" || found false re_tailwind_class)
      (tech "Tailwind CSS" "medium" None "CSS Framework") detected in
  let detected :=
    push_if (found false re_bootstrap_class && negb (has "tailwind"))
      (tech "Bootstrap" "low" None "CSS Framework") detected in
  let detected :=
    match headers_get "x-powered-by" response with
    | Some (String _ _ as poweredBy) => detected ++ [tech poweredBy "high" None "Server"]
    | _ => detected
    end in
  let detected :=
    match headers_get "server" response with
    | Some (String _ _ as server) =>
        let parts := split_on "/" server in
        detected ++ [tech (nth 0 parts EmptyString) "high" (nth_error parts 1) "Web Server"]
    | _ => detected
    end in
  let detected :=
    push_if (truthy_str (headers_get "x-aspnet-version" response)
             || truthy_str (headers_get "x-aspnetmvc-version" response))
      (tech "ASP.NET" "high"
         (if truthy_str (headers_get "x-aspnet-version" response)
          then headers_get "x-aspnet-version" response else None)
         "Framework") detected in
  detected.

Definition ts_failed (msg : string) : TechStackSection :=
  {| ts_detected := Some []; ts_total_detected := Some 0;
     ts_status := Some failed; ts_error := Some msg |}.

Definition detectTechStack_try (w : World) : Exc TechStackSection :=
  do response <- w_fetch_techstack w;
  do html <- resp_text response;
  let detected := detected_technologies response html in
  Ret {| ts_detected := Some detected;
         ts_total_detected := Some (len detected);
         ts_status := Some completed; ts_error := None |}.

Definition detectTechStack (w : World) : Exc TechStackSection :=
  try_catch (detectTechStack_try w)
    (fun error => Ret (ts_failed (error_message error "Tech detection failed"))).

(** ** [performScan] *)

Definition e2e_only (st : Status) (err : option string) : E2ESection :=
  {| e2e_buttons_found := None; e2e_links_found := None; e2e_forms_found := None;
     e2e_primary_actions := None; e2e_status := Some st; e2e_error := err |}.
Definition api_only (st : Status) (err : option string) : APISection :=
  {| api_endpoints_detected := None; api_endpoints := None; api_status := Some st;
     api_error := err |}.
Definition sec_only (st : Status) (err : option string) : SecuritySection :=
  {| sec_issues := None; sec_checks_performed := None; sec_checks_passed := None;
     sec_https_enabled := None; sec_status := Some st; sec_error := err |}.
Definition perf_only (st : Status) (err : option string) : PerformanceSection :=
  {| perf_score := None; perf_load_time_ms := None;
     perf_image_count := None; perf_scripts_count := None; perf_stylesheets_count := None;
     perf_compression_enabled := None; perf_caching_enabled := None;
     perf_lighthouse_scores := None; perf_core_web_vitals := None;
     perf_source := None; perf_opportunities := None; perf_diagnostics := None;
     perf_status := Some st; perf_error := err |}.
Definition acc_only (st : Status) (err : option string) : AccessibilitySection :=
  {| acc_issues := None; acc_total_issues := None; acc_score := None;
     acc_wcag_level := None; acc_status := Some st; acc_error := err |}.
Definition ts_only (st : Status) (err : option string) : TechStackSection :=
  {| ts_detected := None; ts_total_detected := None; ts_status := Some st;
     ts_error := err |}.

(** The object [results] starts from: every section [{ status: 'pending' }]. *)
Definition results_pending : PipelineResults :=
  {| e2e := Some (e2e_only pending None); api := Some (api_only pending None);
     security := Some (sec_only pending None); performance := Some (perf_only pending None);
     accessibility := Some (acc_only pending None); techStack := Some (ts_only pending None) |}.

Definition set_e2e (v : E2ESection) (r : PipelineResults) : PipelineResults :=
  {| e2e := Some v; api := api r; security := security r; performance := performance r;
     accessibility := accessibility r; techStack := techStack r |}.
Definition set_api (v : APISection) (r : PipelineResults) : PipelineResults :=
  {| e2e := e2e r; api := Some v; security := security r; performance := performance r;
     accessibility := accessibility r; techStack := techStack r |}.
Definition set_security (v : SecuritySection) (r : PipelineResults) : PipelineResults :=
  {| e2e := e2e r; api := api r; security := Some v; performance := performance r;
     accessibility := accessibility r; techStack := techStack r |}.
Definition set_performance (v : PerformanceSection) (r : PipelineResults) : PipelineResults :=
  {| e2e := e2e r; api := api r; security := security r; performance := Some v;
     accessibility := accessibility r; techStack := techStack r |}.
Definition set_accessibility (v : AccessibilitySection) (r : PipelineResults) : PipelineResults :=
  {| e2e := e2e r; api := api r; security := security r; performance := performance r;
     accessibility := Some v; techStack := techStack r |}.
Definition set_techStack (v : TechStackSection) (r : PipelineResults) : PipelineResults :=
  {| e2e := e2e r; api := api r; security := security r; performance := performance r;
     accessibility := accessibility r; techStack := Some v |}.

(** The six analyzers run one after the other, each inside its own
    [try]/[catch] whose handler stores a bare failed section. *)
Definition performScan (url : string) (w : World) : PipelineResults :=
  let results := results_pending in
  let results :=
    set_e2e (catch_with (performE2EScan w)
               (fun _ => e2e_only failed (Some "E2E scan failed"))) results in
  let results :=
    set_api (catch_with (performAPIScan w)
               (fun _ => api_only failed (Some "API scan failed"))) results in
  let results :=
    set_security (catch_with (performSecurityScan url w)
                    (fun _ => sec_only failed (Some "Security scan failed"))) results in
  let results :=
    set_performance (catch_with (performPerformanceScan w)
                       (fun _ => perf_only failed (Some "Performance scan failed"))) results in
  let results :=
    set_accessibility (catch_with (performAccessibilityScan w)
                         (fun _ => acc_only failed (Some "Accessibility scan failed"))) results in
  let results :=
    set_techStack (catch_with (detectTechStack w)
                     (fun _ => ts_only failed (Some "Tech detection failed"))) results in
  results.

(** ** The aggregator *)

(** [sortOrder[severity]] for the severities the analyzers use and for any
    other string that is not the name of a member of [Object.prototype]
    (for [constructor], [toString] and the like the object of the source
    answers with the inherited member, which is not a number; no issue of
    the pipeline has such a severity, and the statements about the order
    are made for the four keys). *)
Definition sortOrder (severity : string) : option Z :=
  if String.eqb severity "critical" then Some 0
  else if String.eqb severity "high" then Some 1
  else if String.eqb severity "medium" then Some 2
  else if String.eqb severity "low" then Some 3
  else None.

(** [sortOrder[a.severity] || 99] *)
Definition sort_key (i : TopIssue) : Z := num_or (sortOrder (ti_severity i)) 99.

(** [Array.prototype.sort] with the comparator [key a - key b]: the stable
    sort by increasing key. *)
Fixpoint insert_by {A} (key : A -> Z) (x : A) (l : list A) : list A :=
  match l with
  | [] => [x]
  | y :: l' => if key x <=? key y then x :: l else y :: insert_by key x l'
  end.

Definition sort_by {A} (key : A -> Z) (l : list A) : list A :=
  fold_right (insert_by key) [] l.

Definition top_of_security (issue : SecurityIssue) : TopIssue :=
  {| ti_category := str_or (si_category issue) "Security";
     ti_severity := str_or (Some (si_severity issue)) "low";
     ti_description :=
       str_or (si_description issue) (str_or (si_message issue) EmptyString) |}.

Definition top_of_accessibility (issue : AccessibilityIssue) : TopIssue :=
  {| ti_category := "Accessibility";
     ti_severity := str_or (Some (ai_severity issue)) "low";
     ti_description := str_or (ai_message issue) EmptyString |}.

(** The synthetic entry pushed for a poor performance score. *)
Definition poor_performance (score : Z) : TopIssue :=
  {| ti_category := "Performance";
     ti_severity := "high";
     ti_description :=
       "Poor performance score (" ++ show_Z score ++ "/100) - site loads slowly" |}.

(** The entries pushed before sorting. *)
Definition collected_issues (scanResults : PipelineResults) : list TopIssue :=
  let issues := [] in
  let issues :=
    match security scanResults with
    | Some s => match sec_issues s with
                | Some l => issues ++ map top_of_security l
                | None => issues
                end
    | None => issues
    end in
  let issues :=
    match accessibility scanResults with
    | Some a => match acc_issues a with
                | Some l => issues ++ map top_of_accessibility l
                | None => issues
                end
    | None => issues
    end in
  let issues :=
    match performance scanResults with
    | Some p => match perf_score p with
                | Some score => push_if (score <? 50) (poor_performance score) issues
                | None => issues
                end
    | None => issues
    end in
  issues.

Definition extractTopIssues (scanResults : PipelineResults) : list TopIssue :=
  slice0 10 (sort_by sort_key (collected_issues scanResults)).

(** *** The overall score ([calculateOverallScore])

    The decimal weights are read as JavaScript reads them, each as the
    nearest binary64: 0.25 is one, 0.3 and 0.1 are not. *)

Module Weights.
Definition security : float := 0.3%float.
Definition performance : float := 0.25%float.
Definition accessibility : float := 0.25%float.
Definition e2e : float := 0.1%float.
Definition api : float := 0.1%float.
End Weights.

(** The running pair [(totalScore, totalWeight)]. *)
Definition add_weighted (completed_ : bool) (score weight : float) (acc : float * float)
    : float * float :=
  if completed_ then (fst acc + score * weight, snd acc + weight)%float else acc.

Definition secScore (s : SecuritySection) : float :=
  (number (num_or (sec_checks_passed s) 0) / number (num_or (sec_checks_performed s) 1)
   * 100)%float.

Definition e2eScore (e : E2ESection) : float :=
  if 0 <? num_or (e2e_buttons_found e) 0 then 80%float else 50%float.

Definition apiScore : float := 70%float.

Definition calculateOverallScore (scanResults : PipelineResults) : Z :=
  let acc := (0%float, 0%float) in
  let acc :=
    match security scanResults with
    | Some s => add_weighted (is_completed (sec_status s)) (secScore s) Weights.security acc
    | None => acc
    end in
  let acc :=
    match performance scanResults with
    | Some p => add_weighted (is_completed (perf_status p))
                  (number (num_or (perf_score p) 0)) Weights.performance acc
    | None => acc
    end in
  let acc :=
    match accessibility scanResults with
    | Some a => add_weighted (is_completed (acc_status a))
                  (number (num_or (acc_score a) 0)) Weights.accessibility acc
    | None => acc
    end in
  let acc :=
    match e2e scanResults with
    | Some e => add_weighted (is_completed (e2e_status e)) (e2eScore e) Weights.e2e acc
    | None => acc
    end in
  let acc :=
    match api scanResults with
    | Some a => add_weighted (is_completed (api_status a)) apiScore Weights.api acc
    | None => acc
    end in
  let (totalScore, totalWeight) := acc in
  if (0 <? totalWeight)%float then math_round64 (totalScore / totalWeight)%float else 0.

(** *** The same pass in exact arithmetic

    [calculateOverallScore] once more, with the decimal weights as the
    rationals they are written as and no rounding but that of [Math.round]:
    what the score would be if the operations of the source were exact. It
    stands between the code and the formula of the specification in the
    statements on the overall score. *)

Module Exact.

Module Weights.
Definition security : Q := 3 # 10.
Definition performance : Q := 25 # 100.
Definition accessibility : Q := 25 # 100.
Definition e2e : Q := 1 # 10.
Definition api : Q := 1 # 10.
End Weights.

(** The running pair [(totalScore, totalWeight)]. *)
Definition add_weighted (completed_ : bool) (score weight : Q) (acc : Q * Q) : Q * Q :=
  if completed_ then (fst acc + score * weight, snd acc + weight)%Q else acc.

Definition secScore (s : SecuritySection) : Q :=
  (inject_Z (num_or (sec_checks_passed s) 0) / inject_Z (num_or (sec_checks_performed s) 1) * 100)%Q.

Definition e2eScore (e : E2ESection) : Q :=
  if 0 <? num_or (e2e_buttons_found e) 0 then 80%Q else 50%Q.

Definition apiScore : Q := 70%Q.

Definition calculateOverallScore (scanResults : PipelineResults) : Z :=
  let acc := (0%Q, 0%Q) in
  let acc :=
    match security scanResults with
    | Some s => add_weighted (is_completed (sec_status s)) (secScore s) Weights.security acc
    | None => acc
    end in
  let acc :=
    match performance scanResults with
    | Some p => add_weighted (is_completed (perf_status p))
                  (inject_Z (num_or (perf_score p) 0)) Weights.performance acc
    | None => acc
    end in
  let acc :=
    match accessibility scanResults with
    | Some a => add_weighted (is_completed (acc_status a))
                  (inject_Z (num_or (acc_score a) 0)) Weights.accessibility acc
    | None => acc
    end in
  let acc :=
    match e2e scanResults with
    | Some e => add_weighted (is_completed (e2e_status e)) (e2eScore e) Weights.e2e acc
    | None => acc
    end in
  let acc :=
    match api scanResults with
    | Some a => add_weighted (is_completed (api_status a)) apiScore Weights.api acc
    | None => acc
    end in
  let (totalScore, totalWeight) := acc in
  if Qltb 0 totalWeight then math_round (totalScore / totalWeight) else 0.

End Exact.

(** ** The rate limiter *)

(** A row of [rate_limits]; instants are milliseconds since the epoch. *)
Record RateLimitRow := {
  scan_count : Z;
  window_start : Z;
  last_scan_at : Z
}.

Inductive Admission := Allowed | RateLimitExceeded.

(** The admission step of [processScan] for [domain] at instant [now]:
    the decision and the table [rate_limits] after it. *)
Definition rate_limit_check (now : Z) (domain : string) (rate_limits : gmap string RateLimitRow)
    : Admission * gmap string RateLimitRow :=
  match rate_limits !! domain with
  | Some rateLimit =>
      let hourAgo := now - 60 * 60 * 1000 in
      if (hourAgo <? window_start rateLimit) && (5 <=? scan_count rateLimit)
      then (RateLimitExceeded, rate_limits)
      else (Allowed,
            <[domain := {| scan_count := scan_count rateLimit + 1;
                           window_start := window_start rateLimit;
                           last_scan_at := now |}]> rate_limits)
  | None =>
      (Allowed,
       <[domain := {| scan_count := 1; window_start := now; last_scan_at := now |}]> rate_limits)
  end.

(** Successive admission attempts for one domain at the given instants,
    each one over (its read and its write) before the next one starts. *)
Fixpoint rate_limit_checks (domain : string) (instants : list Z) (rate_limits : gmap string RateLimitRow)
    : list Admission * gmap string RateLimitRow :=
  match instants with
  | [] => ([], rate_limits)
  | now :: rest =>
      let (a, rl) := rate_limit_check now domain rate_limits in
      let (others, rl') := rate_limit_checks domain rest rl in
      (a :: others, rl')
  end.

(** *** Overlapping attempts

    The admission step is two awaited calls, the [select] of the row and
    then the [update] or the [insert], and the request handler starts
    [processScan] without awaiting it: the calls of several attempts can
    interleave. A run is a sequence of events, each the read or the write
    of one attempt; [rate_limit_check] is a read immediately followed by its
    write. *)

(** The decision of an attempt, taken at [now] on the row it has read. *)
Definition rate_limit_decision (now : Z) (seen : option RateLimitRow) : Admission :=
  match seen with
  | Some rateLimit =>
      let hourAgo := now - 60 * 60 * 1000 in
      if (hourAgo <? window_start rateLimit) && (5 <=? scan_count rateLimit)
      then RateLimitExceeded else Allowed
  | None => Allowed
  end.

(** The write of an admitted attempt. The [update] sets the count to one
    more than the count read and leaves the other columns of the row the
    table holds by then; the [insert] is that of an attempt that read no
    row (the source does not show the schema of [rate_limits]: the table is
    taken to hold one row per domain, so that an [insert] for a domain that
    has a row by then changes nothing). *)
Definition rate_limit_write (now : Z) (domain : string) (seen : option RateLimitRow)
    (rate_limits : gmap string RateLimitRow) : gmap string RateLimitRow :=
  match seen with
  | Some rateLimit =>
      alter (fun row => {| scan_count := scan_count rateLimit + 1;
                           window_start := window_start row;
                           last_scan_at := now |}) domain rate_limits
  | None =>
      match rate_limits !! domain with
      | Some _ => rate_limits
      | None =>
          <[domain := {| scan_count := 1; window_start := now; last_scan_at := now |}]> rate_limits
      end
  end.

(** The read and the write of the attempt numbered [attempt]. *)
Inductive RateLimitEvent :=
| SelectRow (attempt : nat)
| WriteRow (attempt : nat) (now : Z).

(** The table, what the attempts under way have read, and the decisions
    taken so far. *)
Record RateLimitRun := {
  run_table : gmap string RateLimitRow;
  run_seen : gmap nat (option RateLimitRow);
  run_decisions : list Admission
}.

(** A write without a read before it is not an event of any attempt and
    changes nothing. *)
Definition rate_limit_event (domain : string) (st : RateLimitRun) (ev : RateLimitEvent)
    : RateLimitRun :=
  match ev with
  | SelectRow attempt =>
      {| run_table := run_table st;
         run_seen := <[attempt := run_table st !! domain]> (run_seen st);
         run_decisions := run_decisions st |}
  | WriteRow attempt now =>
      match run_seen st !! attempt with
      | None => st
      | Some seen =>
          match rate_limit_decision now seen with
          | RateLimitExceeded =>
              {| run_table := run_table st;
                 run_seen := delete attempt (run_seen st);
                 run_decisions := run_decisions st ++ [RateLimitExceeded] |}
          | Allowed =>
              {| run_table := rate_limit_write now domain seen (run_table st);
                 run_seen := delete attempt (run_seen st);
                 run_decisions := run_decisions st ++ [Allowed] |}
          end
      end
  end.

Definition rate_limit_run (domain : string) (events : list RateLimitEvent)
    (rate_limits : gmap string RateLimitRow) : RateLimitRun :=
  fold_left (rate_limit_event domain) events
    {| run_table := rate_limits; run_seen := ∅; run_decisions := [] |}.

(** Attempts that do not overlap: each one reads and writes before the next
    one reads. *)
Definition one_by_one (instants : list Z) : list RateLimitEvent :=
  flat_map (fun now => [SelectRow 0; WriteRow 0 now]) instants.

(** Two attempts that overlap: both read before either writes. *)
Definition two_at_once (now now' : Z) : list RateLimitEvent :=
  [SelectRow 0; SelectRow 1; WriteRow 0 now; WriteRow 1 now'].

(** ** The report generator *)

Module Report.

(** The text of a [drawText]: a string, or a number printed by
    [toFixed(digits)] followed by a unit. *)
Inductive Text :=
| Plain (s : string)
| Fixed (digits : nat) (value : Q) (suffix : string).

(** Draw primitives, without their colours. *)
Inductive DrawOp :=
| DrawText (text : Text) (x y size : Z)
| DrawRectangle (x y width height : Q).

Record Page := { page_ops : list DrawOp }.

Definition pageWidth : Z := 595.
Definition pageHeight : Z := 842.

(** [drawPageHeader(page, title, pageNum)]: the header band, the brand, the
    title and the page number, then the footer rule and its two captions.
    (In the source the first [drawRectangle] call has lost its closing
    [});]; it is read as closed before the next call.) *)
Definition drawPageHeader (title : string) (pageNum : Z) : list DrawOp :=
  [ DrawRectangle 0 (inject_Z (pageHeight - 80)) (inject_Z pageWidth) 80;
    DrawText (Plain "RoboLab(R)") 40 (pageHeight - 42) 20;
    DrawText (Plain title) 260 (pageHeight - 40) 14;
    DrawText (Plain ("Page " ++ show_Z pageNum)) (pageWidth - 80) (pageHeight - 40) 10;
    DrawRectangle 0 50 (inject_Z pageWidth) (1 # 2);
    DrawText (Plain "RoboLab(R)") 40 30 11;
    DrawText (Plain "Robo-Lab Web Scanner - Professional Security & Performance Analysis")
             250 30 8 ].

(** What the generator reads. *)
Record Input := {
  in_url : string;
  in_date : string;                       (* new Date().toLocaleString() *)
  in_overallScore : Z;
  in_scanResults : PipelineResults;
  in_topIssues : list TopIssue;
  in_aiSummary : option string;
  in_aiRecommendations : list string;
  in_performanceScore : Z;
  in_seoScore : Z;
  in_securityChecksPassed : Z;
  in_accessibilityIssueCount : Z;
  in_technologies : list string
}.

(** Page 1, the executive summary. *)
Definition page1_ops (i : Input) : list DrawOp :=
  let score := in_overallScore i in
  let y := pageHeight - 110 in
  let url := in_url i in
  let urlDisplay :=
    if (70 <? String.length url)%nat then (str_take 67 url ++ "...")%string else url in
  let statusText : string :=
    if 80 <=? score then "Excellent" else if 60 <=? score then "Good"
    else if 40 <=? score then "Fair" else "Poor" in
  let top :=
    [ DrawText (Plain "Web Scanner Full Report") 40 (pageHeight - 50) 28;
      DrawText (Plain "Comprehensive Security & Performance Analysis") 40 (pageHeight - 75) 12;
      DrawRectangle 40 (inject_Z (y - 50)) 515 50;
      DrawText (Plain "URL Analyzed:") 60 (y - 20) 10;
      DrawText (Plain urlDisplay) 60 (y - 35) 9 ] in
  let y := y - 50 in
  let date := [ DrawText (Plain ("Scan Date: " ++ in_date i)) 40 y 9 ] in
  let y := y - 25 in
  let overall :=
    [ DrawRectangle 40 (inject_Z (y - 80)) 515 80;
      DrawText (Plain "OVERALL SCORE") 60 (y - 30) 11;
      DrawText (Plain (show_Z score)) 380 (y - 60) 48;
      DrawText (Plain "/100") 450 (y - 52) 14;
      DrawText (Plain statusText) 60 (y - 60) 14 ] in
  let y := y - 110 in
  let quick := [ DrawText (Plain "Quick Metrics") 40 y 12 ] in
  let y := y - 20 in
  let metrics : list (string * string) :=
    [ ("Performance Score", (show_Z (in_performanceScore i) ++ "/100")%string);
      ("SEO Score", (show_Z (in_seoScore i) ++ "/100")%string);
      ("Security Checks", (show_Z (in_securityChecksPassed i) ++ "/7 passed")%string);
      ("Accessibility Issues", show_Z (in_accessibilityIssueCount i)) ] in
  let rows :=
    fst (fold_left
           (fun (st : list DrawOp * Z) (m : string * string) =>
              let (ops, y) := st in
              (ops ++ [ DrawRectangle 40 (inject_Z (y - 20)) 515 20;
                        DrawText (Plain (fst m)) 60 (y - 12) 9;
                        DrawText (Plain (snd m)) 400 (y - 12) 9 ],
               y - 25))
           metrics ([], y)) in
  top ++ date ++ overall ++ quick ++ rows.

(** One entry of [vitalMetrics]. *)
Record Metric := { m_label : string; m_value : Text; m_desc : string }.

Definition vitalMetrics (cwv : CoreWebVitals) : list Metric :=
  [ {| m_label := "First Contentful Paint (FCP)";
       m_value := Fixed 2 (inject_Z (cwv_fcp cwv) / 1000) "s";
       m_desc := "How quickly content appears" |};
    {| m_label := "Largest Contentful Paint (LCP)";
       m_value := Fixed 2 (inject_Z (cwv_lcp cwv) / 1000) "s";
       m_desc := "Main content load time" |};
    {| m_label := "Cumulative Layout Shift (CLS)";
       m_value := Fixed 3 (cwv_cls cwv) "";
       m_desc := "Visual stability score" |};
    {| m_label := "Total Blocking Time (TBT)";
       m_value := Plain (show_Z (cwv_tbt cwv) ++ "ms");
       m_desc := "Interactivity delay" |};
    {| m_label := "Time to Interactive (TTI)";
       m_value := Fixed 2 (inject_Z (cwv_tti cwv) / 1000) "s";
       m_desc := "When page is usable" |};
    {| m_label := "Speed Index";
       m_value := Fixed 2 (inject_Z (cwv_speedIndex cwv) / 1000) "s";
       m_desc := "Visual completion speed" |} ].

(** The card of one metric at cursor [y]. *)
Definition metric_card (metric : Metric) (y : Z) : list DrawOp :=
  [ DrawRectangle 40 (inject_Z (y - 35)) 515 35;
    DrawText (Plain (m_label metric)) 60 (y - 12) 9;
    DrawText (m_value metric) 380 (y - 12) 11;
    DrawText (Plain (m_desc metric)) 60 (y - 23) 8 ].

(** [for (const metric of vitalMetrics) { if (y < 80) break; ...; y -= 40 }]:
    the primitives drawn and the cursor after the loop. *)
Fixpoint metric_cards (metrics : list Metric) (y : Z) : list DrawOp * Z :=
  match metrics with
  | [] => ([], y)
  | metric :: rest =>
      if y <? 80 then ([], y)
      else let (ops, y') := metric_cards rest (y - 40) in
           (metric_card metric y ++ ops, y')
  end.

(** Page 6, below its header. *)
Definition page6_ops (cwv : CoreWebVitals) : list DrawOp :=
  let y := pageHeight - 100 in
  let title := [ DrawText (Plain "Powered by Google PageSpeed Insights") 40 y 11 ] in
  let y := y - 25 in
  let (cards, y) := metric_cards (vitalMetrics cwv) y in
  let explanation :=
    if 80 <? y then
      [ DrawRectangle 40 (inject_Z (y - 50)) 515 50;
        DrawText (Plain "Core Web Vitals measure real user experience: loading speed (FCP/LCP), visual stability (CLS), and interactivity (TBT/TTI).")
                 55 (y - 20) 8 ]
    else [] in
  title ++ cards ++ explanation.

(** The document under construction: its pages and the counter [pageNum]. *)
Definition Doc : Type := list Page * Z.

(** [pdfDoc.addPage] followed by [drawPageHeader(page, title, pageNum++)]
    and by the body of the page. *)
Definition add_page (title : string) (body : list DrawOp) (doc : Doc) : Doc :=
  let (pages, pageNum) := doc in
  (pages ++ [ {| page_ops := drawPageHeader title pageNum ++ body |} ], pageNum + 1).

Definition add_page_if (c : bool) (title : string) (body : list DrawOp) (doc : Doc) : Doc :=
  if c then add_page title body doc else doc.

Definition core_web_vitals_of (r : PipelineResults) : option CoreWebVitals :=
  match performance r with
  | Some p => perf_core_web_vitals p
  | None => None
  end.

Definition has_lighthouse_scores (r : PipelineResults) : bool :=
  match performance r with
  | Some p => match perf_lighthouse_scores p with Some _ => true | None => false end
  | None => false
  end.

Definition has_ai (i : Input) : bool :=
  truthy_str (in_aiSummary i) || (0 <? len (in_aiRecommendations i)).

(** The pages of the report, in the order the generator adds them. Pages 1
    and 6 carry all their primitives; of pages 2 to 5 and 7 to 10 only the
    header is listed, their bodies draw on the page just added and stop
    ([break]) when the cursor gets low: no loop of the generator adds a
    page. *)
Definition generate (i : Input) : Doc :=
  let r := in_scanResults i in
  let doc : Doc := ([ {| page_ops := page1_ops i |} ], 1) in
  let doc := add_page "Scan Results Overview" [] doc in
  let doc := add_page "Detailed Scan Results" [] doc in
  let doc := add_page "Security & Performance" [] doc in
  let doc := add_page "Accessibility & Technologies" [] doc in
  let doc :=
    match core_web_vitals_of r with
    | Some cwv => add_page "Core Web Vitals" (page6_ops cwv) doc
    | None => doc
    end in
  let doc := add_page_if (has_lighthouse_scores r) "Google Lighthouse Scores" [] doc in
  let doc :=
    add_page_if (match e2e r with Some _ => true | None => false end)
      "End-to-End Testing Analysis" [] doc in
  let doc := add_page_if (0 <? len (in_technologies i)) "Technologies Detected" [] doc in
  let doc := add_page_if (has_ai i) "AI Analysis & Recommendations" [] doc in
  doc.

Definition pages (i : Input) : list Page := fst (generate i).

End Report.

(** ** The orchestrator ([processScan]) *)

(** [scan_status] of a row of [scan_results]. *)
Inductive ScanStatus := scan_pending | scan_processing | scan_completed | scan_failed.

(** A row of [scan_results]: the columns [processScan] writes. The report
    column holds the pages of the document instead of its base64 bytes. *)
Record ScanRow := {
  scan_status : ScanStatus;
  overall_score : option Z;
  e2e_results : option E2ESection;
  api_results : option APISection;
  security_results : option SecuritySection;
  performance_results : option PerformanceSection;
  accessibility_results : option AccessibilitySection;
  tech_stack : option TechStackSection;
  top_issues : option (list TopIssue);
  ai_summary : option string;
  ai_recommendations : option (list string);
  performance_score : option Z;
  seo_score : option Z;
  accessibility_issue_count : option Z;
  security_checks_passed : option Z;
  security_checks_total : option Z;
  technologies : option (list string);
  exposed_endpoints : option (list string);
  og_image : option string;
  pdf_report : option (list Report.Page)
}.

(** The row a submission creates: [pending], nothing else written yet. *)
Definition new_row : ScanRow :=
  {| scan_status := scan_pending; overall_score := None; e2e_results := None;
     api_results := None; security_results := None; performance_results := None;
     accessibility_results := None; tech_stack := None; top_issues := None;
     ai_summary := None; ai_recommendations := None; performance_score := None;
     seo_score := None; accessibility_issue_count := None; security_checks_passed := None;
     security_checks_total := None; technologies := None; exposed_endpoints := None;
     og_image := None; pdf_report := None |}.

(** [.update({ scan_status: st })] *)
Definition with_status (st : ScanStatus) (row : ScanRow) : ScanRow :=
  {| scan_status := st; overall_score := overall_score row; e2e_results := e2e_results row;
     api_results := api_results row; security_results := security_results row;
     performance_results := performance_results row;
     accessibility_results := accessibility_results row; tech_stack := tech_stack row;
     top_issues := top_issues row; ai_summary := ai_summary row;
     ai_recommendations := ai_recommendations row; performance_score := performance_score row;
     seo_score := seo_score row; accessibility_issue_count := accessibility_issue_count row;
     security_checks_passed := security_checks_passed row;
     security_checks_total := security_checks_total row; technologies := technologies row;
     exposed_endpoints := exposed_endpoints row; og_image := og_image row;
     pdf_report := pdf_report row |}.

Record DB := {
  scan_results : gmap string ScanRow;
  rate_limits : gmap string RateLimitRow
}.

(** [supabase.from("scan_results").update(f).eq("id", scanId)] *)
Definition update_scan (scanId : string) (f : ScanRow -> ScanRow) (db : DB) : DB :=
  {| scan_results := alter f scanId (scan_results db); rate_limits := rate_limits db |}.

Definition with_rate_limits (rl : gmap string RateLimitRow) (db : DB) : DB :=
  {| scan_results := scan_results db; rate_limits := rl |}.

(** What [processScan] obtains from outside, besides the analyzers' world:
    the clock, the host name of the URL ([new URL(url).hostname] throws on
    a malformed URL), the Open Graph image found, the answer of
    [generateAIAnalysis], the rendering of the scan date, whether the PDF
    library throws, and the error of the final [update], if any. *)
Record Env := {
  env_now : Z;
  env_hostname : Exc string;
  env_world : World;
  env_og_image : option string;
  env_ai : Exc (option string * list string);
  env_date : string;
  env_pdf_throws : bool;
  env_update_error : option Thrown
}.

(** The values derived from the analyzers' sections before the report. *)
Definition performanceScore (r : PipelineResults) : Z :=
  match performance r with
  | Some p =>
      if truthy_num (perf_score p) then num_or (perf_score p) 0
      else num_or (match perf_lighthouse_scores p with
                   | Some lh => lh_performance lh
                   | None => None
                   end) 0
  | None => 0
  end.

Definition seoScore (r : PipelineResults) : Z :=
  match performance r with
  | Some p => num_or (match perf_lighthouse_scores p with
                      | Some lh => lh_seo lh
                      | None => None
                      end) 0
  | None => 0
  end.

Definition accessibilityIssueCount (r : PipelineResults) : Z :=
  match accessibility r with
  | Some a => num_or (acc_total_issues a) 0
  | None => 0
  end.

(** [scanResults.security?.issues || []] *)
Definition securityIssues (r : PipelineResults) : list SecurityIssue :=
  match security r with
  | Some s => match sec_issues s with Some l => l | None => [] end
  | None => []
  end.

(** [Math.max(0, 7 - securityIssues.length)] *)
Definition securityChecksPassed (r : PipelineResults) : Z :=
  Z.max 0 (7 - len (securityIssues r)).

Definition technologies_of (r : PipelineResults) : list string :=
  match techStack r with
  | Some t => match ts_detected t with Some l => map tech_name l | None => [] end
  | None => []
  end.

Definition exposedEndpoints (r : PipelineResults) : list string :=
  match api r with
  | Some a => match api_endpoints a with Some l => map ep_path l | None => [] end
  | None => []
  end.

Definition report_input (url : string) (env : Env) (r : PipelineResults)
    (topIssues : list TopIssue) (overallScore : Z)
    (aiSummary : option string) (aiRecommendations : list string) : Report.Input :=
  {| Report.in_url := url; Report.in_date := env_date env;
     Report.in_overallScore := overallScore; Report.in_scanResults := r;
     Report.in_topIssues := topIssues; Report.in_aiSummary := aiSummary;
     Report.in_aiRecommendations := aiRecommendations;
     Report.in_performanceScore := performanceScore r;
     Report.in_seoScore := seoScore r;
     Report.in_securityChecksPassed := securityChecksPassed r;
     Report.in_accessibilityIssueCount := accessibilityIssueCount r;
     Report.in_technologies := technologies_of r |}.

(** The final [update]: every column at once, with [scan_status: "completed"]. *)
Definition final_write (url : string) (env : Env) (r : PipelineResults) (row : ScanRow) : ScanRow :=
  let topIssues := extractTopIssues r in
  let overallScore := calculateOverallScore r in
  let (aiSummary, aiRecommendations) := catch_with (env_ai env) (fun _ => (None, [])) in
  let pdf :=
    if env_pdf_throws env then None
    else Some (Report.pages
                 (report_input url env r topIssues overallScore aiSummary aiRecommendations)) in
  {| scan_status := scan_completed;
     overall_score := Some overallScore;
     e2e_results := e2e r; api_results := api r; security_results := security r;
     performance_results := performance r; accessibility_results := accessibility r;
     tech_stack := techStack r;
     top_issues := Some topIssues;
     ai_summary := aiSummary;
     ai_recommendations := Some aiRecommendations;
     performance_score := Some (performanceScore r);
     seo_score := Some (seoScore r);
     accessibility_issue_count := Some (accessibilityIssueCount r);
     security_checks_passed := Some (securityChecksPassed r);
     security_checks_total := Some 7;
     technologies := Some (technologies_of r);
     exposed_endpoints := Some (exposedEndpoints r);
     og_image := env_og_image env;
     pdf_report := pdf |}.

(** How [processScan] ends: with the 429 answer of a refused admission, or
    by falling off its end (after the final write or after its [catch]). *)
Inductive Outcome := Answered429 | Finished.

(** [processScan(scanId, url, supabase)]. The outer [catch] marks the scan
    as failed; it is reached when the host name cannot be read and when the
    final [update] reports an error. *)
Definition processScan (scanId url : string) (env : Env) (db : DB) : Outcome * DB :=
  let db := update_scan scanId (with_status scan_processing) db in
  match env_hostname env with
  | Throw _ => (Finished, update_scan scanId (with_status scan_failed) db)
  | Ret domain =>
      match rate_limit_check (env_now env) domain (rate_limits db) with
      | (RateLimitExceeded, _) =>
          (Answered429, update_scan scanId (with_status scan_failed) db)
      | (Allowed, rl) =>
          let db := with_rate_limits rl db in
          let scanResults := performScan url (env_world env) in
          match env_update_error env with
          | Some _ => (Finished, update_scan scanId (with_status scan_failed) db)
          | None => (Finished, update_scan scanId (final_write url env scanResults) db)
          end
      end
  end.

(** ** The aggregate score as the specification words it

    The overall score is the rounded quotient of the weighted sum of the
    analyzer scores by the sum of the weights, both sums ranging over the
    analyzers whose status is [completed]; it is 0 when there is none. *)

Module Spec.

Local Open Scope Q_scope.

Inductive Analyzer :=
| SecurityA | PerformanceA | AccessibilityA | InteractiveElementsA | ApiSurfaceA.

Definition analyzers : list Analyzer :=
  [SecurityA; PerformanceA; AccessibilityA; InteractiveElementsA; ApiSurfaceA].

(** security 0.30, performance 0.25, accessibility 0.25,
    interactive-elements 0.10, api-surface 0.10 *)
Definition weight (a : Analyzer) : Q :=
  match a with
  | SecurityA => 30 # 100
  | PerformanceA => 25 # 100
  | AccessibilityA => 25 # 100
  | InteractiveElementsA => 10 # 100
  | ApiSurfaceA => 10 # 100
  end.

Definition status_of (r : PipelineResults) (a : Analyzer) : option Status :=
  match a with
  | SecurityA => match security r with Some s => sec_status s | None => None end
  | PerformanceA => match performance r with Some p => perf_status p | None => None end
  | AccessibilityA => match accessibility r with Some x => acc_status x | None => None end
  | InteractiveElementsA => match e2e r with Some e => e2e_status e | None => None end
  | ApiSurfaceA => match api r with Some x => api_status x | None => None end
  end.

(** A metric of a section; one the section does not carry reads as 0. *)
Definition metric {S} (section : option S) (field : S -> option Z) : Q :=
  match section with
  | Some s => match field s with Some v => inject_Z v | None => 0 end
  | None => 0
  end.

(** security = (checks_passed / checks_performed) x 100; performance and
    accessibility = their own score; interactive-elements = 80 if any
    button was found, else 50; api-surface = 70. *)
Definition score_of (r : PipelineResults) (a : Analyzer) : Q :=
  match a with
  | SecurityA =>
      metric (security r) sec_checks_passed / metric (security r) sec_checks_performed * 100
  | PerformanceA => metric (performance r) perf_score
  | AccessibilityA => metric (accessibility r) acc_score
  | InteractiveElementsA =>
      if Qltb 0 (metric (e2e r) e2e_buttons_found) then 80 else 50
  | ApiSurfaceA => 70
  end.

Definition completed_analyzers (r : PipelineResults) : list Analyzer :=
  List.filter (fun a => is_completed (status_of r a)) analyzers.

(** The sum of [f] over a list of analyzers. *)
Definition sum_over (f : Analyzer -> Q) (l : list Analyzer) : Q :=
  fold_right (fun a acc => f a + acc) 0 l.

Definition overall_score (r : PipelineResults) : Z :=
  match completed_analyzers r with
  | [] => 0%Z
  | cs => math_round (sum_over (fun a => score_of r a * weight a) cs / sum_over weight cs)
  end.

End Spec.

(** ** PageSpeed opportunities and diagnostics

    [extractPageSpeedOpportunities] and [extractPageSpeedDiagnostics] read
    the audits of a PageSpeed answer, an object indexed by audit id. *)

(** An audit, as far as the two functions read it: [score] is absent when
    it is missing or [null], [audit_savings] is [details.overallSavingsMs]
    when that is a number. *)
Record PageSpeedAudit := {
  audit_title : option string;
  audit_description : option string;
  audit_score : option Q;
  audit_savings : option Q
}.

Definition PageSpeedAudits : Type := gmap string PageSpeedAudit.

Record Opportunity := {
  op_title : string;
  op_description : option string;
  op_score : Q;
  op_savings : Q
}.

Record Diagnostic := {
  dg_title : string;
  dg_description : option string;
  dg_score : Q
}.

Definition opportunityAudits : list string :=
  [ "render-blocking-resources"; "unused-css-rules"; "unused-javascript";
    "modern-image-formats"; "offscreen-images"; "minify-css"; "minify-javascript";
    "reduce-unused-code" ].

Definition diagnosticAudits : list string :=
  [ "dom-size"; "total-byte-weight"; "mainthread-work-breakdown"; "bootup-time";
    "duplicated-javascript" ].

(** [audit && typeof audit.score === 'number' && audit.score < 1]: the
    score of the audit when the test holds. *)
Definition failing_score (audits : PageSpeedAudits) (auditId : string)
    : option (PageSpeedAudit * Q) :=
  match audits !! auditId with
  | Some audit =>
      match audit_score audit with
      | Some score => if Qltb score 1 then Some (audit, score) else None
      | None => None
      end
  | None => None
  end.

(** The body of the loop of [extractPageSpeedOpportunities]: what one
    audit id pushes. *)
Definition opportunity_of (audits : PageSpeedAudits) (auditId : string) : list Opportunity :=
  match failing_score audits auditId with
  | Some (audit, score) =>
      [ {| op_title := str_or (audit_title audit) auditId;
           op_description := audit_description audit;
           op_score := score;
           op_savings := match audit_savings audit with Some ms => ms | None => 0%Q end |} ]
  | None => []
  end.

Definition extractPageSpeedOpportunities (audits : PageSpeedAudits) : list Opportunity :=
  slice0 5 (flat_map (opportunity_of audits) opportunityAudits).

Definition diagnostic_of (audits : PageSpeedAudits) (auditId : string) : list Diagnostic :=
  match failing_score audits auditId with
  | Some (audit, score) =>
      [ {| dg_title := str_or (audit_title audit) auditId;
           dg_description := audit_description audit;
           dg_score := score |} ]
  | None => []
  end.

Definition extractPageSpeedDiagnostics (audits : PageSpeedAudits) : list Diagnostic :=
  slice0 5 (flat_map (diagnostic_of audits) diagnosticAudits).

(** ** Line wrapping ([wrapText])

    The helper of the report generator that breaks a text into lines. The
    width of a line is taken as its length times [fontSize * 0.6]; as
    elsewhere, numbers are exact rationals. At the three places the
    generator calls it, with [(475, 8)], [(470, 8)] and [(470, 9)], no
    length puts the product within rounding distance of the limit. *)

(** [testLine.length * (fontSize * 0.6) > maxWidth] *)
Definition too_wide (maxWidth fontSize : Q) (line : string) : bool :=
  Qltb maxWidth (inject_Z (Z.of_nat (String.length line)) * (fontSize * (6 # 10))).

(** The body of the loop over the words: the lines pushed so far and
    [currentLine]. *)
Definition wrap_step (maxWidth fontSize : Q) (st : list string * string) (word : string)
    : list string * string :=
  let (lines, currentLine) := st in
  let testLine := (currentLine ++ (if nonempty currentLine then " " else EmptyString) ++ word)%string in
  if too_wide maxWidth fontSize testLine && nonempty currentLine
  then (lines ++ [currentLine], word)
  else (lines, testLine).

Definition wrapText (text : string) (maxWidth fontSize : Q) : list string :=
  if negb (nonempty text) then []
  else
    let words := split_on " " text in
    let (lines, currentLine) := fold_left (wrap_step maxWidth fontSize) words ([], EmptyString) in
    if nonempty currentLine then lines ++ [currentLine] else lines.

(** ** The request handler ([Deno.serve])

    The handler answers a preflight request, or reads [scanId] and [url]
    from the body and starts [processScan] without awaiting it: the answer
    is built before the scan has run, and what [processScan] returns is
    dropped. The database is given as the scan leaves it. *)

(** The body is the outcome of [req.json()]. *)
Inductive Request :=
| OptionsRequest
| PostRequest (body : Exc (string * string)).

Inductive Answer :=
| Preflight                          (* 200, no body *)
| ScanStarted (scanId : string)      (* 200, { success: true, scanId, message: "Scan started" } *)
| InvalidRequest (message : string). (* 400, { error: message } *)

Definition answer_status (a : Answer) : Z :=
  match a with
  | Preflight => 200
  | ScanStarted _ => 200
  | InvalidRequest _ => 400
  end.

Definition serve (req : Request) (env : Env) (db : DB) : Answer * DB :=
  match req with
  | OptionsRequest => (Preflight, db)
  | PostRequest body =>
      match body with
      | Ret (scanId, url) => (ScanStarted scanId, snd (processScan scanId url env db))
      | Throw error => (InvalidRequest (error_message error "Invalid request"), db)
      end
  end.

(** ** The WCAG 2.1 checker ([checkWCAGCompliance])

    The checker reads the markup of a page through patterns, as the
    accessibility analyzer does. Its constant [hasProperHeadings] is
    computed and never read; it is left out. *)

Module WCAG.

Inductive Level := A | AA.
Inductive Severity := critical | serious | moderate | minor.

(** [WCAGIssue], without [examples]: one or two fixed samples of markup
    per criterion, which nothing reads. *)
Record WCAGIssue := {
  criterion : string;
  level : Level;
  severity : Severity;
  description : string;
  remediation : string
}.

Record WCAGResults := {
  compliant_aa : bool;
  compliant_a : bool;
  issues : list WCAGIssue;
  checked_criteria : Z;
  passed_criteria : Z;
  score : Z
}.

(** /alt\s*=/i *)
Definition re_alt : re := cat [lit "alt"; spaces; Chr "="].
(** /<style[^>]*>([^<]+)<\/style>/gi *)
Definition re_style : re :=
  cat [lit "<style"; Star true not_gt; Chr ">"; Group (Plus (Cls true [CChar "<"]));
       lit "</style>"].
(** /color|background|rgba|rgb|hex/ *)
Definition re_color : re := alts ["color"; "background"; "rgba"; "rgb"; "hex"].
(** /viewport|width=device-width/ *)
Definition re_viewport : re := alts ["viewport"; "width=device-width"].
(** /onclick\s*=/gi *)
Definition re_onclick : re := cat [lit "onclick"; spaces; Chr "="].
(** /onkeypress|onkeydown|onkeyup/gi *)
Definition re_onkey : re := alts ["onkeypress"; "onkeydown"; "onkeyup"].
(** /skip|bypass|skip to content|jump to main/i *)
Definition re_skip : re := alts ["skip"; "bypass"; "skip to content"; "jump to main"].
(** /<nav|<header|<main/i *)
Definition re_nav : re := alts ["<nav"; "<header"; "<main"].
(** /tabindex\s*=\s*[q]([0-9]+)[q]/gi *)
Definition re_tabindex : re :=
  cat [lit "tabindex"; spaces; Chr "="; spaces; quote;
       Group (Plus (Cls false [CRange "0" "9"])); quote].
(** /lang\s*=|lang:/i *)
Definition re_lang : re := Alt (cat [lit "lang"; spaces; Chr "="]) (lit "lang:").
(** /nav|header|footer|sidebar/i *)
Definition re_landmark : re := alts ["nav"; "header"; "footer"; "sidebar"].
(** /aria-label|placeholder/i *)
Definition re_labelled : re := alts ["aria-label"; "placeholder"].
(** /aria-live|role=[dq]alert[dq]|role=[dq]status[dq]/i, [dq] the double quote *)
Definition re_live : re :=
  Alt (lit "aria-live")
      (Alt (cat [lit "role="; Chr dq; lit "alert"; Chr dq])
           (cat [lit "role="; Chr dq; lit "status"; Chr dq])).

(** [parseInt] on a run of digits. *)
Definition parseInt (digits : string) : Z :=
  fold_left (fun n c => n * 10 + (Z.of_nat (nat_of_ascii c) - 48)) (list_ascii_of_string digits) 0.

(** [t.match(/\d+/)?.[0] || '0'] *)
Definition first_digits (t : string) : string :=
  match match_first false digits1 t with
  | Some f => if nonempty (f_text f) then f_text f else "0"
  | None => "0"
  end.

Definition is_critical (i : WCAGIssue) : bool :=
  match severity i with critical => true | _ => false end.
Definition is_serious (i : WCAGIssue) : bool :=
  match severity i with serious => true | _ => false end.

(** The issues pushed by the eleven checks, in their order. *)
Definition wcag_issues (htmlContent : string) : list WCAGIssue :=
  let issues := [] in
  (* 1.1.1 Non-text Content (Level A) *)
  let imgs := match_all true re_img htmlContent in
  let imgsWithoutAlt := len (List.filter (fun img => negb (test true re_alt img)) imgs) in
  let issues :=
    push_if (0 <? imgsWithoutAlt)
      {| criterion := "1.1.1 Non-text Content"; level := A; severity := critical;
         description := show_Z imgsWithoutAlt ++ " images found without alt text";
         remediation := "Add descriptive alt text to all images" |} issues in
  (* 1.3.1 Info and Relationships (Level A) *)
  let h1Count := len (match_all true re_h1 htmlContent) in
  let issues :=
    push_if (negb (h1Count =? 1))
      {| criterion := "1.3.1 Info and Relationships"; level := A; severity := serious;
         description := "Page should have exactly 1 h1 tag, found " ++ show_Z h1Count;
         remediation := "Ensure each page has exactly one h1 element for main heading" |}
      issues in
  (* 1.4.3 Contrast (Minimum) - AA *)
  let styleElements := match_all true re_style htmlContent in
  let hasColorContrast := existsb (fun el => test false re_color el) styleElements in
  let issues :=
    push_if ((0 <? len styleElements) && negb hasColorContrast)
      {| criterion := "1.4.3 Contrast (Minimum)"; level := AA; severity := serious;
         description := "Unable to verify color contrast ratios; manual review recommended";
         remediation :=
           "Ensure text and background colors have at least 4.5:1 contrast ratio" |}
      issues in
  (* 1.4.10 Reflow (Level AA) *)
  let hasViewportMeta := test false re_viewport htmlContent in
  let issues :=
    push_if (negb hasViewportMeta)
      {| criterion := "1.4.10 Reflow"; level := AA; severity := serious;
         description := "Responsive viewport meta tag not found";
         remediation := "Add viewport meta tag to enable responsive design" |} issues in
  (* 2.1.1 Keyboard (Level A) *)
  let hasButton := test true (lit "<button") htmlContent in
  let hasLinks := test true (lit "<a") htmlContent in
  let hasOnlyMouseEvents :=
    (0 <? len (match_all true re_onclick htmlContent))
    && negb (test true re_onkey htmlContent) in
  let issues :=
    push_if ((hasButton || hasLinks) && hasOnlyMouseEvents)
      {| criterion := "2.1.1 Keyboard"; level := A; severity := critical;
         description := "Interactive elements rely on mouse-only events";
         remediation := "Ensure all interactive elements are keyboard accessible" |} issues in
  (* 2.4.1 Bypass Blocks (Level A) *)
  let hasSkipLink := test true re_skip htmlContent in
  let hasNav := test true re_nav htmlContent in
  let issues :=
    push_if (hasNav && negb hasSkipLink)
      {| criterion := "2.4.1 Bypass Blocks"; level := A; severity := moderate;
         description := "No skip navigation link found";
         remediation := "Add a skip navigation link at the beginning of the page" |} issues in
  (* 2.4.3 Focus Order (Level A) *)
  let tabIndexAbuse :=
    len (List.filter (fun t => 0 <? parseInt (first_digits t))
           (match_all true re_tabindex htmlContent)) in
  let issues :=
    push_if (0 <? tabIndexAbuse)
      {| criterion := "2.4.3 Focus Order"; level := A; severity := moderate;
         description :=
           show_Z tabIndexAbuse
           ++ " elements with positive tabindex values (can disrupt focus order)";
         remediation := "Avoid positive tabindex values; rely on natural document order" |}
      issues in
  (* 3.1.1 Language of Page (Level A) *)
  let hasLangAttr := test true re_lang htmlContent in
  let issues :=
    push_if (negb hasLangAttr)
      {| criterion := "3.1.1 Language of Page"; level := A; severity := moderate;
         description := "Page language not specified";
         remediation := "Add lang attribute to html element" |} issues in
  (* 3.2.4 Consistent Identification (Level AA) *)
  let hasConsistentNav := test true re_landmark htmlContent in
  let issues :=
    push_if (negb hasConsistentNav)
      {| criterion := "3.2.4 Consistent Identification"; level := AA; severity := minor;
         description := "No consistent navigation landmarks found";
         remediation := "Use semantic HTML elements for consistent navigation" |} issues in
  (* 4.1.2 Name, Role, Value (Level A) *)
  let formsWithoutLabels :=
    len (List.filter (fun input => negb (test true re_labelled input))
           (match_all true re_input htmlContent)) in
  let issues :=
    push_if (0 <? formsWithoutLabels)
      {| criterion := "4.1.2 Name, Role, Value"; level := A; severity := critical;
         description := show_Z formsWithoutLabels ++ " form inputs without proper labeling";
         remediation := "Add aria-label or placeholder attributes to all form inputs" |}
      issues in
  (* 4.1.3 Status Messages (Level AA) *)
  let hasAriaLive := test true re_live htmlContent in
  let issues :=
    push_if (negb hasAriaLive)
      {| criterion := "4.1.3 Status Messages"; level := AA; severity := moderate;
         description := "No aria-live regions found for dynamic content";
         remediation := "Use aria-live regions for dynamic status updates" |} issues in
  issues.

Definition checkWCAGCompliance (htmlContent : string) : WCAGResults :=
  let issues := wcag_issues htmlContent in
  let totalCriteria := 15 in
  let passedCriteria := totalCriteria - len issues in
  let score := math_round (inject_Z passedCriteria / inject_Z totalCriteria * 100) in
  let criticalIssues := len (List.filter is_critical issues) in
  let seriousIssues := len (List.filter is_serious issues) in
  {| compliant_aa := (criticalIssues =? 0) && (seriousIssues =? 0);
     compliant_a := criticalIssues =? 0;
     issues := issues;
     checked_criteria := totalCriteria;
     passed_criteria := passedCriteria;
     score := score |}.

End WCAG.

(** ** Vocabulary of the statements *)

(** *** The aggregate score, step by step

    The exact pass [Exact.calculateOverallScore] read as a left-to-right
    pass over the five scored analyzers: what it takes as the status, the
    score and the weight of each. *)

Definition code_completed (r : PipelineResults) (a : Spec.Analyzer) : bool :=
  is_completed (Spec.status_of r a).

Definition code_score (r : PipelineResults) (a : Spec.Analyzer) : Q :=
  match a with
  | Spec.SecurityA => match security r with Some s => Exact.secScore s | None => 0%Q end
  | Spec.PerformanceA =>
      match performance r with Some p => inject_Z (num_or (perf_score p) 0) | None => 0%Q end
  | Spec.AccessibilityA =>
      match accessibility r with Some x => inject_Z (num_or (acc_score x) 0) | None => 0%Q end
  | Spec.InteractiveElementsA => match e2e r with Some e => Exact.e2eScore e | None => 0%Q end
  | Spec.ApiSurfaceA => Exact.apiScore
  end.

Definition code_weight (a : Spec.Analyzer) : Q :=
  match a with
  | Spec.SecurityA => Exact.Weights.security
  | Spec.PerformanceA => Exact.Weights.performance
  | Spec.AccessibilityA => Exact.Weights.accessibility
  | Spec.InteractiveElementsA => Exact.Weights.e2e
  | Spec.ApiSurfaceA => Exact.Weights.api
  end.

Definition code_step (r : PipelineResults) (acc : Q * Q) (a : Spec.Analyzer) : Q * Q :=
  Exact.add_weighted (code_completed r a) (code_score r a) (code_weight a) acc.

(** [totalWeight > 0 ? Math.round(totalScore / totalWeight) : 0] *)
Definition finish (acc : Q * Q) : Z :=
  if Qltb 0 (snd acc) then math_round (fst acc / snd acc) else 0.

(** The quotient [checks_passed / checks_performed] of the specification is
    defined: a completed security section carries a non-zero
    [checks_performed]. *)
Definition checks_defined (r : PipelineResults) : Prop :=
  forall s, security r = Some s -> sec_status s = Some completed ->
    exists p, sec_checks_performed s = Some p /\ p <> 0.

(** [r] with its performance section taken away. *)
Definition without_performance (r : PipelineResults) : PipelineResults :=
  {| e2e := e2e r; api := api r; security := security r; performance := None;
     accessibility := accessibility r; techStack := techStack r |}.

(** *** Analyzers, uniformly *)

Inductive AnalyzerKind :=
| E2E | API | Security | Performance | Accessibility | TechStack.

(** The exception that leaves the [try] block of an analyzer, if any. *)
Definition thrown {A} (c : Exc A) : option Thrown :=
  match c with
  | Throw e => Some e
  | Ret _ => None
  end.

Definition thrown_inside (a : AnalyzerKind) (url : string) (w : World) : option Thrown :=
  match a with
  | E2E => thrown (performE2EScan_try w)
  | API => thrown (performAPIScan_try w)
  | Security => thrown (performSecurityScan_try url w)
  | Performance => thrown (performPerformanceScan_try w)
  | Accessibility => thrown (performAccessibilityScan_try w)
  | TechStack => thrown (detectTechStack_try w)
  end.

(** The message an analyzer reports for a thrown value that is not an [Error]. *)
Definition default_message (a : AnalyzerKind) : string :=
  match a with
  | E2E => "E2E scan failed"
  | API => "API scan failed"
  | Security => "Security scan failed"
  | Performance => "Performance scan failed"
  | Accessibility => "Accessibility scan failed"
  | TechStack => "Tech detection failed"
  end.

(** The section of analyzer [a] in [r] is failed, carries the message [msg]
    and has every metric at zero (and an empty list where it lists findings). *)
Definition failed_with_zero_metrics (a : AnalyzerKind) (msg : string) (r : PipelineResults)
    : Prop :=
  match a with
  | E2E => exists s, e2e r = Some s /\ e2e_status s = Some failed /\ e2e_error s = Some msg
      /\ e2e_buttons_found s = Some 0 /\ e2e_links_found s = Some 0
      /\ e2e_forms_found s = Some 0 /\ e2e_primary_actions s = Some []
  | API => exists s, api r = Some s /\ api_status s = Some failed /\ api_error s = Some msg
      /\ api_endpoints_detected s = Some 0 /\ api_endpoints s = Some []
  | Security => exists s, security r = Some s /\ sec_status s = Some failed
      /\ sec_error s = Some msg /\ sec_issues s = Some []
      /\ sec_checks_performed s = Some 0 /\ sec_checks_passed s = Some 0
  | Performance => exists s, performance r = Some s /\ perf_status s = Some failed
      /\ perf_error s = Some msg /\ perf_score s = Some 0 /\ perf_load_time_ms s = Some 0
  | Accessibility => exists s, accessibility r = Some s /\ acc_status s = Some failed
      /\ acc_error s = Some msg /\ acc_issues s = Some []
      /\ acc_total_issues s = Some 0 /\ acc_score s = Some 0
  | TechStack => exists s, techStack r = Some s /\ ts_status s = Some failed
      /\ ts_error s = Some msg /\ ts_detected s = Some [] /\ ts_total_detected s = Some 0
  end.

(** The status of the section of analyzer [a]. *)
Definition section_status (a : AnalyzerKind) (r : PipelineResults) : option Status :=
  match a with
  | E2E => match e2e r with Some s => e2e_status s | None => None end
  | API => match api r with Some s => api_status s | None => None end
  | Security => match security r with Some s => sec_status s | None => None end
  | Performance => match performance r with Some s => perf_status s | None => None end
  | Accessibility => match accessibility r with Some s => acc_status s | None => None end
  | TechStack => match techStack r with Some s => ts_status s | None => None end
  end.

(** Analyzer [a] has run to its end: its section is [completed] or [failed]. *)
Definition reported (a : AnalyzerKind) (r : PipelineResults) : Prop :=
  section_status a r = Some completed \/ section_status a r = Some failed.

(** Two worlds answer analyzer [a] alike. *)
Definition same_answers (a : AnalyzerKind) (w w' : World) : Prop :=
  match a with
  | E2E => w_fetch_e2e w = w_fetch_e2e w' /\ w_dom w = w_dom w'
  | API => w_fetch_api w = w_fetch_api w'
  | Security => w_fetch_security w = w_fetch_security w'
  | Performance =>
      w_pagespeed_key w = w_pagespeed_key w' /\ w_fetch_pagespeed w = w_fetch_pagespeed w'
      /\ w_fetch_performance w = w_fetch_performance w' /\ w_load_time w = w_load_time w'
  | Accessibility => w_fetch_accessibility w = w_fetch_accessibility w'
  | TechStack => w_fetch_techstack w = w_fetch_techstack w'
  end.

(** Two results have the same section for analyzer [a]. *)
Definition same_section (a : AnalyzerKind) (r r' : PipelineResults) : Prop :=
  match a with
  | E2E => e2e r = e2e r'
  | API => api r = api r'
  | Security => security r = security r'
  | Performance => performance r = performance r'
  | Accessibility => accessibility r = accessibility r'
  | TechStack => techStack r = techStack r'
  end.

(** *** Sample inputs *)

(** A world in which every analyzer receives the same answer to its request,
    no DOM parser exists and no PageSpeed key is configured. *)
Definition uniform_world (answer : Exc Response) : World :=
  {| w_fetch_e2e := answer;
     w_dom := Throw (ErrorObj "DOMParser is not defined");
     w_fetch_api := answer;
     w_fetch_security := answer;
     w_pagespeed_key := None;
     w_fetch_pagespeed := Throw OtherThrown;
     w_fetch_performance := answer;
     w_load_time := 120%Q;
     w_fetch_accessibility := answer;
     w_fetch_techstack := answer |}.

(** A 200 answer without headers. *)
Definition bare_page (html : string) : Response :=
  {| resp_ok := true; resp_status := 200; resp_headers := ∅; resp_text := Ret html |}.

(** A world in which every request fails. *)
Definition offline : World := uniform_world (Throw (ErrorObj "network unreachable")).

Definition sample_env (w : World) : Env :=
  {| env_now := 1000; env_hostname := Ret "example.com"; env_world := w;
     env_og_image := None; env_ai := Ret (None, []); env_date := "1/1/2026, 12:00:00 AM";
     env_pdf_throws := false; env_update_error := None |}.

(** A database holding one pending scan and no rate-limit row. *)
Definition sample_db : DB :=
  {| scan_results := {[ "scan-1" := new_row ]}; rate_limits := ∅ |}.

(** Three images without [alt], no [lang] on [html], a skip link. *)
Definition page_three_images : string :=
  "<html><body><a href='#main'>Skip</a><img src='a.png'><img src='b.png'><img src='c.png'><h1>T</h1></body></html>".





(** Results in which only the score and the URL feed the report. *)
Definition no_results : PipelineResults :=
  {| e2e := None; api := None; security := None; performance := None;
     accessibility := None; techStack := None |}.

Definition summary_only_input : Report.Input :=
  {| Report.in_url := "https://example.com"; Report.in_date := "1/1/2026, 12:00:00 AM";
     Report.in_overallScore := 0; Report.in_scanResults := no_results;
     Report.in_topIssues := []; Report.in_aiSummary := None;
     Report.in_aiRecommendations := [];
     Report.in_performanceScore := 0; Report.in_seoScore := 0;
     Report.in_securityChecksPassed := 7; Report.in_accessibilityIssueCount := 0;
     Report.in_technologies := [] |}.

(** The texts a page draws at a given size, in drawing order. *)
Definition texts_of_size (size : Z) (p : Report.Page) : list Report.Text :=
  flat_map (fun op => match op with
                      | Report.DrawText t _ _ sz => if sz =? size then [t] else []
                      | Report.DrawRectangle _ _ _ _ => []
                      end) (Report.page_ops p).

(** The six names of the Core Web Vitals page. *)
Definition vital_names : list string :=
  [ "First Contentful Paint (FCP)"; "Largest Contentful Paint (LCP)";
    "Cumulative Layout Shift (CLS)"; "Total Blocking Time (TBT)";
    "Time to Interactive (TTI)"; "Speed Index" ].

(** *** Windows, counts and ranks *)

(** A row is inside the window when it started less than 60 minutes ago. *)
Definition in_window (now : Z) (row : RateLimitRow) : Prop :=
  now - 3600000 < window_start row.

(** Results of a run on a page with three images without [alt]. *)
Definition sample_results : PipelineResults :=
  performScan "https://example.com" (uniform_world (Ret (bare_page page_three_images))).

(** The six analyzers of [performScan], in the order they run. *)
Definition all_kinds : list AnalyzerKind :=
  [E2E; API; Security; Performance; Accessibility; TechStack].

(** The number of analyzers whose section is [completed]. *)
Definition completed_count (r : PipelineResults) : nat :=
  length (List.filter (fun a => is_completed (section_status a r)) all_kinds).

(** The two issues of a page with three images without [alt] and no [lang]. *)
Definition three_images_issue : AccessibilityIssue :=
  {| ai_severity := "critical";
     ai_message := Some "3 images missing alt text - screen readers cannot describe images";
     ai_count := Some 3;
     ai_wcag := Some "WCAG 2.1 Level A (1.1.1)" |}.

Definition missing_lang_issue : AccessibilityIssue :=
  {| ai_severity := "high";
     ai_message :=
       Some "Missing lang attribute on html element - affects screen reader pronunciation";
     ai_count := None;
     ai_wcag := Some "WCAG 2.1 Level A (3.1.1)" |}.


(** 1 for [true], 0 for [false]. *)
Definition b2n (b : bool) : nat := if b then 1%nat else 0%nat.

(** The five pages every report starts with, and the counter after them. *)
Definition fixed_pages (i : Report.Input) : Report.Doc :=
  Report.add_page "Accessibility & Technologies" []
    (Report.add_page "Security & Performance" []
       (Report.add_page "Detailed Scan Results" []
          (Report.add_page "Scan Results Overview" []
             ([ {| Report.page_ops := Report.page1_ops i |} ], 1)))).

(** The optional pages that follow the Core Web Vitals page. *)
Definition later_pages (i : Report.Input) (doc : Report.Doc) : Report.Doc :=
  let r := Report.in_scanResults i in
  let doc :=
    Report.add_page_if (Report.has_lighthouse_scores r) "Google Lighthouse Scores" [] doc in
  let doc :=
    Report.add_page_if (match e2e r with Some _ => true | None => false end)
      "End-to-End Testing Analysis" [] doc in
  let doc :=
    Report.add_page_if (0 <? len (Report.in_technologies i)) "Technologies Detected" [] doc in
  Report.add_page_if (Report.has_ai i) "AI Analysis & Recommendations" [] doc.

(** How many of them the generator adds. *)
Definition later_count (i : Report.Input) : nat :=
  let r := Report.in_scanResults i in
  (b2n (Report.has_lighthouse_scores r)
   + b2n (match e2e r with Some _ => true | None => false end)
   + b2n (0 <? len (Report.in_technologies i))%Z
   + b2n (Report.has_ai i))%nat.

(** An entry that sorts with the high-severity ones. *)
Definition high_rank (i : TopIssue) : bool := sort_key i =? 1.

(** *** Admission counts *)

Definition is_allowed (a : Admission) : bool :=
  match a with
  | Allowed => true
  | RateLimitExceeded => false
  end.

(** The number of admitted attempts among the decisions [l]. *)
Definition allowed_count (l : list Admission) : Z := len (List.filter is_allowed l).

(** What every order of reads and writes keeps, [row] being the row the
    domain started with: the table holds a row of the same window whose
    count lies between the old count and the old count plus the attempts
    admitted, and so does every row an attempt has read. *)
Definition run_kept (domain : string) (row : RateLimitRow) (st : RateLimitRun) : Prop :=
  (exists row', run_table st !! domain = Some row'
     /\ window_start row' = window_start row
     /\ scan_count row <= scan_count row'
          <= scan_count row + allowed_count (run_decisions st))
  /\ forall attempt seen, run_seen st !! attempt = Some seen ->
       exists rateLimit, seen = Some rateLimit
         /\ scan_count row <= scan_count rateLimit
              <= scan_count row + allowed_count (run_decisions st).

(** A database holding one pending scan, with the quota of its domain
    nearly used up. *)
Definition busy_db : DB :=
  {| scan_results := {[ "scan-1" := new_row ]};
     rate_limits := {[ "example.com" :=
                        {| scan_count := 4; window_start := 0; last_scan_at := 900 |} ]} |}.

(** An environment whose final [update] reports an error. *)
Definition failing_write_env (w : World) : Env :=
  {| env_now := 1000; env_hostname := Ret "example.com"; env_world := w;
     env_og_image := None; env_ai := Ret (None, []); env_date := "1/1/2026, 12:00:00 AM";
     env_pdf_throws := false; env_update_error := Some (ErrorObj "row too large") |}.

(** A database in which the quota of [example.com] is used up. *)
Definition full_db : DB :=
  {| scan_results := {[ "scan-1" := new_row ]};
     rate_limits := {[ "example.com" :=
                        {| scan_count := 5; window_start := 0; last_scan_at := 900 |} ]} |}.

(** *** Ranges *)

(** The completed sections of [r] carry metrics in their ranges. *)
Definition in_range (r : PipelineResults) : Prop :=
  (forall s, security r = Some s -> sec_status s = Some completed ->
     sec_checks_performed s = Some 7
     /\ exists c, sec_checks_passed s = Some c /\ 0 <= c <= 7)
  /\ (forall p, performance r = Some p -> perf_status p = Some completed ->
        exists v, perf_score p = Some v /\ 0 <= v <= 100)
  /\ (forall a, accessibility r = Some a -> acc_status a = Some completed ->
        exists v, acc_score a = Some v /\ 0 <= v <= 100).

(** The performance score the PageSpeed service answers, when it answers,
    is a fraction of 1. *)
Definition service_score_in_unit (w : World) : Prop :=
  forall response data,
    w_fetch_pagespeed w = Ret response -> psr_json response = Ret data ->
    (0 <= qnum_or0 (ps_performance data) <= 1)%Q.

(** An answer of the PageSpeed service in which only the performance
    category is scored. *)
Definition pagespeed_answer (score : Q) : PageSpeedResponse :=
  {| psr_ok := true; psr_status := 200;
     psr_json := Ret {| ps_performance := Some score; ps_accessibility := None;
                        ps_bestPractices := None; ps_seo := None;
                        ps_firstContentfulPaint := None; ps_largestContentfulPaint := None;
                        ps_interactive := None; ps_totalBlockingTime := None;
                        ps_cumulativeLayoutShift := None; ps_speedIndex := None;
                        ps_observedLoad := None; ps_optimized_images := None;
                        ps_text_compression_full := false; ps_long_cache_ttl_good := false;
                        ps_opportunities := []; ps_diagnostics := [] |} |}.

(** A world with a PageSpeed key, in which the service answers [score]. *)
Definition pagespeed_world (score : Q) (page : Response) : World :=
  {| w_fetch_e2e := Ret page;
     w_dom := Throw (ErrorObj "DOMParser is not defined");
     w_fetch_api := Ret page;
     w_fetch_security := Ret page;
     w_pagespeed_key := Some "key";
     w_fetch_pagespeed := Ret (pagespeed_answer score);
     w_fetch_performance := Ret page;
     w_load_time := 120%Q;
     w_fetch_accessibility := Ret page;
     w_fetch_techstack := Ret page |}.

(** A page with one image without [alt]. *)
Definition page_one_image : string := "<html lang='en'><img src='a.png'></html>".

(** *** The order of the ranked list *)

(** [a] is listed before [b] without breaking the order of the sort. *)
Definition ranked_before (a b : TopIssue) : Prop := sort_key a <= sort_key b.

(** The four severities that [sortOrder] has as its own keys. *)
Definition known_severity (severity : string) : Prop :=
  In severity ["critical"; "high"; "medium"; "low"].

(** Every issue collected from [r] has one of them. *)
Definition known_severities (r : PipelineResults) : Prop :=
  forall i, In i (collected_issues r) -> known_severity (ti_severity i).

(** An entry whose severity is one of the three the sort ranks ahead. *)
Definition ranks_ahead (i : TopIssue) : bool := sort_key i <? 99.

Definition top_issue (category severity description : string) : TopIssue :=
  {| ti_category := category; ti_severity := severity; ti_description := description |}.

(** Results with the given security and accessibility issues only. *)
Definition results_with_issues (sec : list SecurityIssue) (acc : list AccessibilityIssue)
    : PipelineResults :=
  {| e2e := None; api := None;
     security := Some {| sec_issues := Some sec; sec_checks_performed := Some 7;
                         sec_checks_passed := Some (7 - len sec);
                         sec_https_enabled := Some true;
                         sec_status := Some completed; sec_error := None |};
     performance := None;
     accessibility := Some {| acc_issues := Some acc; acc_total_issues := Some (len acc);
                              acc_score := Some (Z.max 0 (100 - totalDeduction acc));
                              acc_wcag_level := Some "Fails Level A";
                              acc_status := Some completed; acc_error := None |};
     techStack := None |}.

(** A page that trips every security check and every accessibility check
    but the one on buttons. *)
Definition page_many_issues : string :=
  "<h2>t</h2><img src=a><input><input><input><a href='x'></a><p tabindex='-1'>document.cookie=1</p>".

(** *** Page numbers *)

(** The counter of [doc] is the number of its pages, and the page at every
    position [k >= 1], counting from 0, starts with the header numbered [k]. *)
Definition numbered (doc : Report.Doc) : Prop :=
  snd doc = Z.of_nat (length (fst doc))
  /\ forall k page, nth_error (fst doc) (S k) = Some page ->
       exists title body,
         Report.page_ops page = Report.drawPageHeader title (Z.of_nat (S k)) ++ body.

(** *** Wrapped lines *)

(** The words of a line: its pieces between spaces, without the empty ones. *)
Definition words_of (line : string) : list string :=
  List.filter nonempty (split_on " " line).

(** What the loop of [wrapText] keeps, [read] being the words read so far:
    no pushed line is empty; every pushed line and the current one fit,
    unless they are a single word of the text; and the words of the lines
    are the words read. *)
Definition wrap_kept (maxWidth fontSize : Q) (text : string) (read : list string)
    (st : list string * string) : Prop :=
  (forall line, In line (fst st) -> line <> EmptyString)
  /\ (forall line, In line (fst st ++ [snd st]) ->
        line = EmptyString \/ too_wide maxWidth fontSize line = false
        \/ In line (split_on " " text))
  /\ flat_map words_of (fst st) ++ words_of (snd st) = List.filter nonempty read.

(** *** Sample pages and audits *)

(** A page that fails the eleven checks of the WCAG checker. *)
Definition page_failing_wcag : string :=
  "<main><style>p{margin:0}</style><img src=x><a onclick=f()>x</a><input><p tabindex='1'></p></main>".

(** A page with one heading and a viewport declaration. *)
Definition page_passing_wcag : string :=
  "<h1>T</h1><meta name='viewport'>".

(** An audit with a score and nothing else. *)
Definition scored_audit (score : Q) : PageSpeedAudit :=
  {| audit_title := None; audit_description := None; audit_score := Some score;
     audit_savings := None |}.

(** Audits in which six opportunities are open, the last two ids among them. *)
Definition six_open_audits : PageSpeedAudits :=
  list_to_map
    (map (fun auditId => (auditId, scored_audit (1 # 2)))
       [ "render-blocking-resources"; "unused-css-rules"; "unused-javascript";
         "modern-image-formats"; "minify-javascript"; "reduce-unused-code" ]).

(** *** The report of a run *)

(** What the generator reads in a run of [processScan]. *)
Definition scan_report_input (url : string) (env : Env) : Report.Input :=
  let r := performScan url (env_world env) in
  let ai := catch_with (env_ai env) (fun _ => (None, [])) in
  report_input url env r (extractTopIssues r) (calculateOverallScore r) (fst ai) (snd ai).

(** The pages the final write of a run stores. *)
Definition scan_report (url : string) (env : Env) : option (list Report.Page) :=
  pdf_report (final_write url env (performScan url (env_world env)) new_row).

Definition has_web_vitals (r : PipelineResults) : bool :=
  match Report.core_web_vitals_of r with
  | Some _ => true
  | None => false
  end.

(** A sample environment in which the PageSpeed service answers. *)
Definition pagespeed_env (score : Q) (page : Response) : Env :=
  sample_env (pagespeed_world score page).

(** The title in the header of a page. *)
Definition page_title (page : Report.Page) : string :=
  match Report.page_ops page with
  | _ :: _ :: Report.DrawText (Report.Plain title) _ _ _ :: _ => title
  | _ => EmptyString
  end.

(** *** Technologies named by the headers *)

(** The value of [X-Powered-By] and the part of [Server] before its first
    slash are listed under their own text: [name] is one of them. *)
Definition named_by_headers (response : Response) (name : string) : Prop :=
  headers_get "x-powered-by" response = Some name
  \/ exists server, headers_get "server" response = Some server
       /\ nth 0 (split_on "/" server) EmptyString = name.

(** The names that the tests on the page text keep apart. *)
Definition exclusive_names : list string :=
  ["Next.js"; "React"; "Nuxt.js"; "Vue.js"; "Bootstrap"].

(** A Next.js page that mentions react and tailwind and uses the class
    [container]. *)
Definition page_next_tailwind : string :=
  "<script id='__NEXT_DATA__'>react</script><div class='container tailwind'></div>".

(** A 200 answer of an Express application behind nginx. *)
Definition express_response (html : string) : Response :=
  {| resp_ok := true; resp_status := 200;
     resp_headers := {[ "x-powered-by" := "Express"; "server" := "nginx/1.25" ]} ;
     resp_text := Ret html |}.

(** *** Tags, read as text

    What the two patterns of the claim on images and language look for,
    said on the text itself: a tag runs from its opening text ([<img],
    [<html]) to the next [>], and it carries [alt=] or [lang=] when that
    text occurs in it, the case of letters apart. *)

(** [s] starts with [p], the case of letters apart: the part of [s] that
    answers [p], and the rest of [s]. *)

Fixpoint split_prefix (p s : string) : option (string * string) :=
  match p, s with
  | EmptyString, _ => Some (EmptyString, s)
  | String c p', String a s' =>
      if Ascii.eqb (to_lower c) (to_lower a)
      then match split_prefix p' s' with
           | Some (m, rest) => Some (String a m, rest)
           | None => None
           end
      else None
  | String _ _, EmptyString => None
  end.

(** The text up to the first [>], that character included, and the rest. *)
Fixpoint split_tag_end (s : string) : option (string * string) :=
  match s with
  | EmptyString => None
  | String c s' =>
      if Ascii.eqb c ">" then Some (String c EmptyString, s')
      else match split_tag_end s' with
           | Some (m, rest) => Some (String c m, rest)
           | None => None
           end
  end.

(** [word] occurs in [s] before the first [>] of [s], the case of letters
    apart. *)
Fixpoint in_open_tag (word s : string) : bool :=
  match split_prefix word s with
  | Some _ => true
  | None =>
      match s with
      | String c s' => if Ascii.eqb c ">" then false else in_open_tag word s'
      | EmptyString => false
      end
  end.

(** An [img] tag without [alt=] stands at the head of [s]: the text of the
    tag and the rest of [s]. *)
Definition img_without_alt_at (s : string) : option (string * string) :=
  match split_prefix "<img" s with
  | Some (opening, inside) =>
      if in_open_tag "alt=" inside then None
      else match split_tag_end inside with
           | Some (m, rest) => Some ((opening ++ m)%string, rest)
           | None => None
           end
  | None => None
  end.

(** The first such tag at or after the head of [s]. *)
Fixpoint next_img_without_alt (s : string) : option (string * string) :=
  match img_without_alt_at s with
  | Some found => Some found
  | None =>
      match s with
      | String _ s' => next_img_without_alt s'
      | EmptyString => None
      end
  end.

(** All of them from left to right, each one looked for after the end of
    the one before. *)
Fixpoint imgs_without_alt_from (fuel : nat) (s : string) : list string :=
  match fuel with
  | O => []
  | S fuel' =>
      match next_img_without_alt s with
      | Some (tag, rest) => tag :: imgs_without_alt_from fuel' rest
      | None => []
      end
  end.

Definition imgs_without_alt (html : string) : list string :=
  imgs_without_alt_from (S (String.length html)) html.

(** Some [<html] of the text is followed by [lang=] before the next [>]. *)
Fixpoint html_tag_has_lang (s : string) : bool :=
  match split_prefix "<html" s with
  | Some (_, inside) => in_open_tag "lang=" inside
  | None => false
  end
  || match s with
     | String _ s' => html_tag_has_lang s'
     | EmptyString => false
     end.

(** *** The matcher, step by step *)

(** The character before the cursor once [taken] has been read. *)
Fixpoint prev_after (prev : option ascii) (taken : string) : option ascii :=
  match taken with
  | EmptyString => prev
  | String a t => prev_after (Some a) t
  end.

(** What a greedy [[^>]*] does before a continuation: it offers the rest of
    the text after each run of characters other than [>], the longest run
    first. *)
Fixpoint longest_first (prev : option ascii) (s : string) (caps : list string)
    (k : mstate -> option mstate) : option mstate :=
  match s with
  | String a rest =>
      if Ascii.eqb a ">" then k (MState prev s caps)
      else match longest_first (Some a) rest caps k with
           | Some out => Some out
           | None => k (MState prev s caps)
           end
  | EmptyString => k (MState prev s caps)
  end.

(** The loop of [exec] on [Star greedy r1], by name. *)
Definition star_loop (ci greedy : bool) (r1 : re) (k : mstate -> option mstate)
    : nat -> mstate -> option mstate :=
  fix iter (fuel : nat) (cur : mstate) {struct fuel} : option mstate :=
    match fuel with
    | O => k cur
    | S fuel' =>
        let again :=
          exec ci r1 cur (fun nxt =>
            if (String.length (ms_rest nxt) <? String.length (ms_rest cur))%nat
            then iter fuel' nxt else None) in
        if greedy then
          match again with
          | Some out => Some out
          | None => k cur
          end
        else
          match k cur with
          | Some out => Some out
          | None => again
          end
    end.

(** [o] is not [None]. *)
Definition is_some {A} (o : option A) : bool :=
  match o with
  | Some _ => true
  | None => false
  end.

(** *** Tags and attributes, as HTML has them

    The tags of a page whose attribute values hold no space and no angle
    bracket, cut as a parser of HTML cuts them: a tag named [img] has the
    attribute [alt] when one of its items, [alt] or [alt=...], is named
    [alt]; an item [data-alt=...] is another attribute. *)

Module Html.

(** The text of every tag: what stands between a [<] and the next [>]. *)
Definition tags (html : string) : list string :=
  flat_map (fun piece => match split_on ">" piece with
                         | text :: _ :: _ => [text]
                         | _ => []
                         end)
    (tl (split_on "<" html)).

Fixpoint lower (s : string) : string :=
  match s with
  | EmptyString => EmptyString
  | String c s' => String (to_lower c) (lower s')
  end.

(** The items of a tag, separated by spaces: its name, then its attributes. *)
Definition items (tag : string) : list string := List.filter nonempty (split_on " " tag).

Definition tag_name (tag : string) : string := lower (nth 0 (items tag) EmptyString).

(** The names of the attributes of a tag: what each item after the name
    holds before its [=]. *)
Definition attribute_names (tag : string) : list string :=
  map (fun item => lower (nth 0 (split_on "=" item) EmptyString)) (tl (items tag)).

Definition has_attribute (attribute tag : string) : bool :=
  existsb (String.eqb attribute) (attribute_names tag).

(** The tags named [name] that have no attribute [attribute]. *)
Definition tags_without (name attribute html : string) : list string :=
  List.filter (fun tag => String.eqb (tag_name tag) name && negb (has_attribute attribute tag))
    (tags html).

End Html.

(** Three images and an [html] tag that carry [data-] attributes, and
    neither [alt] nor [lang]. *)
Definition page_data_attributes : string :=
  "<html data-lang='en'><body><a href='#main'>Skip</a><img data-alt='a' src='a.png'><img data-alt='b' src='b.png'><img data-alt='c' src='c.png'><h1>T</h1></body></html>".

(** Three images without [alt] among four, and [lang] on another tag than
    [html]. *)
Definition page_three_of_four_images : string :=
  "<html><body lang='en'><a href='#main'>Skip</a><img src='a.png'><img alt='logo' src='l.png'><img src='b.png'><img src='c.png'><h1>T</h1></body></html>".

(** *** The overall score, outcome by outcome *)

(** A binary64 that is zero or finite and positive. *)
Definition nonneg_finite (f : spec_float) : bool :=
  match f with
  | S754_zero _ => true
  | S754_finite false _ _ => true
  | _ => false
  end.

(** [totalWeight > 0 ? Math.round(totalScore / totalWeight) : 0] in binary64. *)
Definition finish64 (acc : float * float) : Z :=
  if (0 <? snd acc)%float then math_round64 (fst acc / snd acc)%float else 0.

(** What [calculateOverallScore] reads in results whose security section
    reports seven checks: the number of checks passed, the two scores, and
    whether a button was found, each for a completed analyzer only. *)
Record Scores := {
  s_security : option Z;
  s_performance : option Z;
  s_accessibility : option Z;
  s_e2e : option bool;
  s_api : bool
}.

Definition totals64 (sc : Scores) : float * float :=
  let acc := (0, 0)%float in
  let acc := match s_security sc with
             | Some c => add_weighted true (number c / number 7 * 100)%float Weights.security acc
             | None => acc
             end in
  let acc := match s_performance sc with
             | Some v => add_weighted true (number v) Weights.performance acc
             | None => acc
             end in
  let acc := match s_accessibility sc with
             | Some v => add_weighted true (number v) Weights.accessibility acc
             | None => acc
             end in
  let acc := match s_e2e sc with
             | Some b => add_weighted true (if b then 80 else 50)%float Weights.e2e acc
             | None => acc
             end in
  let acc := if s_api sc then add_weighted true 70%float Weights.api acc else acc in
  acc.

Definition totalsQ (sc : Scores) : Q * Q :=
  let acc := (0, 0)%Q in
  let acc := match s_security sc with
             | Some c => Exact.add_weighted true (inject_Z c / inject_Z 7 * 100)%Q (3 # 10) acc
             | None => acc
             end in
  let acc := match s_performance sc with
             | Some v => Exact.add_weighted true (inject_Z v) (25 # 100) acc
             | None => acc
             end in
  let acc := match s_accessibility sc with
             | Some v => Exact.add_weighted true (inject_Z v) (25 # 100) acc
             | None => acc
             end in
  let acc := match s_e2e sc with
             | Some b => Exact.add_weighted true (if b then 80 else 50)%Q (1 # 10) acc
             | None => acc
             end in
  let acc := if s_api sc then Exact.add_weighted true 70%Q (1 # 10) acc else acc in
  acc.

(** 140 times the exact totals. *)
Definition numerator (sc : Scores) : Z :=
  match s_security sc with Some c => 600 * c | None => 0 end
  + match s_performance sc with Some v => 35 * v | None => 0 end
  + match s_accessibility sc with Some v => 35 * v | None => 0 end
  + match s_e2e sc with Some true => 1120 | Some false => 700 | None => 0 end
  + (if s_api sc then 980 else 0).

Definition denominator (sc : Scores) : Z :=
  match s_security sc with Some _ => 42 | None => 0 end
  + match s_performance sc with Some _ => 35 | None => 0 end
  + match s_accessibility sc with Some _ => 35 | None => 0 end
  + match s_e2e sc with Some _ => 14 | None => 0 end
  + (if s_api sc then 14 else 0).

Definition exact_round (sc : Scores) : Z :=
  (2 * numerator sc + denominator sc) / (2 * denominator sc).

(** The same on machine integers, for the comparison of all the outcomes
    below. *)
Definition int_of (z : Z) : Uint63.int := Uint63.of_Z z.

Definition i0 : Uint63.int := Eval vm_compute in int_of 0.
Definition i2 : Uint63.int := Eval vm_compute in int_of 2.
Definition i35 : Uint63.int := Eval vm_compute in int_of 35.
Definition i100 : Uint63.int := Eval vm_compute in int_of 100.
Definition i600 : Uint63.int := Eval vm_compute in int_of 600.
Definition i700 : Uint63.int := Eval vm_compute in int_of 700.
Definition i980 : Uint63.int := Eval vm_compute in int_of 980.
Definition i1120 : Uint63.int := Eval vm_compute in int_of 1120.

Definition numerator63 (sc : Scores) : Uint63.int :=
  Uint63.add
    (Uint63.add
       (Uint63.add
          (Uint63.add
             match s_security sc with
             | Some c => Uint63.mul i600 (int_of c)
             | None => i0
             end
             match s_performance sc with
             | Some v => Uint63.mul i35 (int_of v)
             | None => i0
             end)
          match s_accessibility sc with
          | Some v => Uint63.mul i35 (int_of v)
          | None => i0
          end)
       match s_e2e sc with
       | Some true => i1120
       | Some false => i700
       | None => i0
       end)
    (if s_api sc then i980 else i0).

Definition denominator63 (sc : Scores) : Uint63.int :=
  int_of (denominator sc).

Definition exact_round63 (sc : Scores) : Uint63.int :=
  Uint63.div (Uint63.add (Uint63.mul i2 (numerator63 sc)) (denominator63 sc))
             (Uint63.mul i2 (denominator63 sc)).

Definition lo64 (n : Uint63.int) : float :=
  if Uint63.eqb n i0 then 0%float else (of_uint63 n - 0.5)%float.
Definition hi64 (n : Uint63.int) : float := (of_uint63 n + 0.5)%float.

Definition none_completed (sc : Scores) : bool :=
  match s_security sc, s_performance sc, s_accessibility sc, s_e2e sc, s_api sc with
  | None, None, None, None, false => true
  | _, _, _, _, _ => false
  end.

(** The binary64 quotient rounds to the exact score. *)
Definition agrees (sc : Scores) : bool :=
  none_completed sc
  || (let n := exact_round63 sc in
      let (totalScore, totalWeight) := totals64 sc in
      let x := (totalScore / totalWeight)%float in
      (0 <? totalWeight)%float && Uint63.leb n i100 && (lo64 n <=? x)%float && (x <? hi64 n)%float).

Definition range (n : nat) : list Z := map Z.of_nat (seq 0 n).
Definition opt_range (n : nat) : list (option Z) := None :: map Some (range n).

(** Every combination of analyzer outcomes of the pipeline. *)
Abbreviation all_agree :=
  (forallb (fun s =>
     forallb (fun p =>
       forallb (fun a =>
         forallb (fun e =>
           forallb (fun i =>
             agrees {| s_security := s; s_performance := p; s_accessibility := a;
                       s_e2e := e; s_api := i |})
             [false; true])
           [None; Some false; Some true])
         (opt_range 101))
       (opt_range 101))
     (opt_range 8)).

Definition bounds_ok (k : Z) : bool :=
  let n := int_of k in
  nonneg_finite (Prim2SF (lo64 n)) && nonneg_finite (Prim2SF (hi64 n))
  && Qle_bool (inject_Z k - (1 # 2)) (value (lo64 n))
  && Qle_bool (value (hi64 n)) (inject_Z k + (1 # 2)).

(** The outcomes compared: 0 to 7 checks passed, scores between 0 and
    100. *)
Definition in_scores_range (sc : Scores) : Prop :=
  (forall c, s_security sc = Some c -> 0 <= c <= 7)
  /\ (forall v, s_performance sc = Some v -> 0 <= v <= 100)
  /\ (forall v, s_accessibility sc = Some v -> 0 <= v <= 100).

(** A field of a section, when the section is there and completed. *)
Definition completed_only {S A} (section : option S) (status : S -> option Status)
    (field : S -> A) : option A :=
  match section with
  | Some s => if is_completed (status s) then Some (field s) else None
  | None => None
  end.

(** The outcome that [calculateOverallScore] reads in [r]. *)
Definition scores_of (r : PipelineResults) : Scores :=
  {| s_security := completed_only (security r) sec_status
                     (fun s => num_or (sec_checks_passed s) 0);
     s_performance := completed_only (performance r) perf_status
                        (fun p => num_or (perf_score p) 0);
     s_accessibility := completed_only (accessibility r) acc_status
                          (fun a => num_or (acc_score a) 0);
     s_e2e := completed_only (e2e r) e2e_status
                (fun e => 0 <? num_or (e2e_buttons_found e) 0);
     s_api := match api r with
              | Some a => is_completed (api_status a)
              | None => false
              end |}.


(** * Properties *)

(** ** The matcher on small inputs *)

Example img_without_alt_matches :
  match_all true re_img_without_alt "<p><IMG src='a'><img alt='x' src=b><img src=c></p>"
  = ["<IMG src='a'>"; "<img src=c>"].
Proof. reflexivity. Qed.

Example html_lang_is_case_insensitive :
  test true re_html_lang "<HTML class=a Lang='en'>" = true
  /\ test true re_html_lang "<html><body lang='en'>" = false.
Proof. split; reflexivity. Qed.

Example cookie_assignments :
  match_all true re_cookie "a document.cookie   = 1; Document.Cookie=2; document.cookie"
  = ["document.cookie   ="; "Document.Cookie="].
Proof. reflexivity. Qed.

Example http_calls :
  match_all false re_http_call "fetch('/a'); axios.get('/b', x); $.ajax('c'); Fetch('/d')"
  = ["fetch('/a'"; "axios.get('/b'"; "$.ajax('c'"]
  /\ capture1 (match_first false re_quoted "axios.get('/b'") = Some "/b".
Proof. split; reflexivity. Qed.

Example lazy_button_body :
  match_all true re_button "<button>A</button><button class=x> B </button>"
  = ["<button>A</button>"; "<button class=x> B </button>"]
  /\ trim (remove_all false re_any_tag "<button class=x> B <b>!</b></button>") = "B !".
Proof. split; reflexivity. Qed.

Example word_boundary_in_class :
  test false re_bootstrap_class "<div class='main container'>" = true
  /\ test false re_bootstrap_class "<div class='subcontainer'>" = false.
Proof. split; reflexivity. Qed.

(** ** The rate limiter *)

Section RateLimiter.

Variable domain : string.
Variable rl : gmap string RateLimitRow.
Variable now : Z.

Lemma rate_limit_rejects (row : RateLimitRow) :
  rl !! domain = Some row -> in_window now row -> 5 <= scan_count row ->
  rate_limit_check now domain rl = (RateLimitExceeded, rl).
Proof.
  intros Hrow Hwin Hcount. unfold rate_limit_check. rewrite Hrow.
  replace (now - 60 * 60 * 1000 <? window_start row) with true
    by (symmetry; apply Z.ltb_lt; exact Hwin).
  replace (5 <=? scan_count row) with true by (symmetry; apply Z.leb_le; exact Hcount).
  reflexivity.
Qed.

Lemma rate_limit_increments (row : RateLimitRow) :
  rl !! domain = Some row -> ~ (in_window now row /\ 5 <= scan_count row) ->
  rate_limit_check now domain rl =
    (Allowed,
     <[domain := {| scan_count := scan_count row + 1; window_start := window_start row;
                    last_scan_at := now |}]> rl).
Proof.
  intros Hrow Hnot. unfold rate_limit_check. rewrite Hrow.
  destruct (Z.ltb_spec (now - 60 * 60 * 1000) (window_start row)) as [Hw|Hw];
    destruct (Z.leb_spec 5 (scan_count row)) as [Hc|Hc]; simpl; try reflexivity.
  exfalso. apply Hnot. split; assumption.
Qed.

Lemma rate_limit_creates :
  rl !! domain = None ->
  rate_limit_check now domain rl =
    (Allowed, <[domain := {| scan_count := 1; window_start := now; last_scan_at := now |}]> rl).
Proof. intros Hrow. unfold rate_limit_check. rewrite Hrow. reflexivity. Qed.

End RateLimiter.

(** Once the window of a row has elapsed, the row keeps its [window_start]
    and every later attempt is admitted. *)
Lemma rate_limit_stale_window (domain : string) (rl : gmap string RateLimitRow) (now : Z)
    (row : RateLimitRow) :
  rl !! domain = Some row -> window_start row <= now - 3600000 ->
  rate_limit_check now domain rl =
    (Allowed,
     <[domain := {| scan_count := scan_count row + 1; window_start := window_start row;
                    last_scan_at := now |}]> rl).
Proof.
  intros Hrow Hold. apply rate_limit_increments; [exact Hrow|].
  unfold in_window. lia.
Qed.

Lemma rate_limit_checks_cons (domain : string) (now : Z) (rest : list Z)
    (rl : gmap string RateLimitRow) :
  rate_limit_checks domain (now :: rest) rl =
    (fst (rate_limit_check now domain rl)
       :: fst (rate_limit_checks domain rest (snd (rate_limit_check now domain rl))),
     snd (rate_limit_checks domain rest (snd (rate_limit_check now domain rl)))).
Proof.
  cbn [rate_limit_checks]. destruct (rate_limit_check now domain rl) as [a rl1].
  cbn [fst snd]. destruct (rate_limit_checks domain rest rl1). reflexivity.
Qed.

Ltac next_allowed :=
  rewrite rate_limit_checks_cons;
  erewrite rate_limit_increments;
    [ | apply lookup_insert_eq | unfold in_window; cbn [scan_count window_start]; lia ];
  cbn [fst snd scan_count window_start]; rewrite insert_insert_eq.

Ltac next_rejected :=
  rewrite rate_limit_checks_cons;
  erewrite rate_limit_rejects;
    [ | apply lookup_insert_eq | unfold in_window; cbn [scan_count window_start]; lia
      | cbn [scan_count]; lia ];
  cbn [fst snd].

(** C1 (the code departs from the specification). For any domain, from an
    empty table, the first five attempts inside a 60-minute window are
    admitted and the sixth is refused with [RateLimitExceeded], as
    specified. The first attempt after the window has elapsed, however, does
    not reset the count to 1: the row keeps its [window_start] and its count
    goes on to 6, then 7, and no later attempt is refused. The attempts are
    made at the instants [t] to [t + 5] ms, then one hour and 1 ms and one
    hour and 2 ms after [t]. *)
Theorem rate_limit_count_not_reset_after_window (domain : string) (t : Z) :
  rate_limit_checks domain
    [t; t + 1; t + 2; t + 3; t + 4; t + 5; t + 3600001; t + 3600002] ∅ =
    ([Allowed; Allowed; Allowed; Allowed; Allowed; RateLimitExceeded; Allowed; Allowed],
     {[ domain := {| scan_count := 7; window_start := t; last_scan_at := t + 3600002 |} ]})
  /\ rate_limit_checks domain [t; t + 1; t + 2; t + 3; t + 4; t + 5; t + 3600001] ∅ =
    ([Allowed; Allowed; Allowed; Allowed; Allowed; RateLimitExceeded; Allowed],
     {[ domain := {| scan_count := 6; window_start := t; last_scan_at := t + 3600001 |} ]}).
Proof.
  split.
  - rewrite rate_limit_checks_cons, rate_limit_creates by apply lookup_empty.
    cbn [fst snd].
    do 4 next_allowed. next_rejected. do 2 next_allowed. reflexivity.
  - rewrite rate_limit_checks_cons, rate_limit_creates by apply lookup_empty.
    cbn [fst snd].
    do 4 next_allowed. next_rejected. next_allowed. reflexivity.
Qed.

Example rate_limit_on_example_com :
  let attempts := rate_limit_checks "example.com" [0; 1; 2; 3; 4; 5; 3600001] ∅ in
  fst attempts = [Allowed; Allowed; Allowed; Allowed; Allowed; RateLimitExceeded; Allowed]
  /\ snd attempts !! "example.com" =
       Some {| scan_count := 6; window_start := 0; last_scan_at := 3600001 |}.
Proof. vm_compute. split; reflexivity. Qed.

(** ** The aggregate score *)

Section Aggregation.

Local Open Scope Q_scope.

Lemma Qltb_true (x y : Q) : Qltb x y = true <-> x < y.
Proof.
  unfold Qltb. rewrite negb_true_iff. split.
  - intros H. apply Qnot_le_lt. intros Hle. apply Qle_bool_iff in Hle. congruence.
  - intros H. destruct (Qle_bool y x) eqn:E; [|reflexivity].
    apply Qle_bool_iff in E. exfalso. exact (Qlt_not_le _ _ H E).
Qed.



Lemma calculateOverallScore_fold (r : PipelineResults) :
  Exact.calculateOverallScore r = finish (fold_left (code_step r) Spec.analyzers (0, 0)).
Proof.
  unfold Exact.calculateOverallScore, finish, code_step, code_completed, code_score; simpl.
  destruct (security r), (performance r), (accessibility r), (e2e r), (api r); simpl;
    repeat match goal with |- context [Exact.add_weighted ?b ?s ?w ?acc] =>
      destruct (Exact.add_weighted b s w acc) end; reflexivity.
Qed.













End Aggregation.

(** ** The overall score in binary64

    The sums, products and the quotient of [calculateOverallScore] are
    rounded to binary64. A quotient that lies between two binary64 numbers
    standing within a half of an integer rounds, by [Math.round], to that
    integer; on each outcome of the five scored analyzers that carries seven
    security checks and scores between 0 and 100, the comparison of the
    quotient with the two numbers around the exact score is a computation. *)

(** *** The order of binary64 numbers and the numbers they stand for *)

Lemma digits2_pos_bounds (m : positive) :
  2 ^ (Zpos (digits2_pos m) - 1) <= Zpos m < 2 ^ Zpos (digits2_pos m).
Proof.
  induction m as [m IH|m IH|]; cbn [digits2_pos]; [| |cbn; lia].
  all: rewrite Pos2Z.inj_succ;
    replace (Z.succ (Zpos (digits2_pos m)) - 1) with (Zpos (digits2_pos m)) by lia;
    rewrite Z.pow_succ_r by lia;
    assert (E : 2 ^ Zpos (digits2_pos m) = 2 * 2 ^ (Zpos (digits2_pos m) - 1))
      by (rewrite <- Z.pow_succ_r by lia; f_equal; lia);
    rewrite E in *; lia.
Qed.

Lemma Qpower_2_pos (e : Z) : (0 < Qpower 2 e)%Q.
Proof. apply Qpower_0_lt. reflexivity. Qed.

Lemma Qpower_2_nonneg_exp (k : Z) : 0 <= k -> (Qpower 2 k == inject_Z (2 ^ k))%Q.
Proof. intros Hk. rewrite Zpower_Qpower by exact Hk. reflexivity. Qed.

(** The value of a positive finite float, on a common exponent. *)
Lemma value_on_exponent (m : positive) (e e0 : Z) :
  e0 <= e -> (inject_Z (Zpos m) * Qpower 2 e == inject_Z (Zpos m * 2 ^ (e - e0)) * Qpower 2 e0)%Q.
Proof.
  intros H. replace e with ((e - e0) + e0) at 1 by lia.
  rewrite Qpower_plus by discriminate. rewrite Qpower_2_nonneg_exp by lia.
  rewrite inject_Z_mult. ring.
Qed.

Lemma canonical_digits (m : positive) (e : Z) :
  bounded prec emax m e = true ->
  emin <= e /\ Zpos (digits2_pos m) <= 53 /\ (emin < e -> Zpos (digits2_pos m) = 53).
Proof.
  unfold bounded, canonical_mantissa, fexp. intros H. apply andb_true_iff in H as [H _].
  apply Z.eqb_eq in H. unfold FloatOps.prec, SpecFloat.emin, FloatOps.emax in *. lia.
Qed.

Lemma compare_pos_finite (m1 m2 : positive) (e1 e2 : Z) :
  bounded prec emax m1 e1 = true -> bounded prec emax m2 e2 = true ->
  SFcompare (S754_finite false m1 e1) (S754_finite false m2 e2)
  = Some (Qcompare (SF2Q (S754_finite false m1 e1)) (SF2Q (S754_finite false m2 e2))).
Proof.
  intros H1 H2. cbn [SFcompare SF2Q]. f_equal.
  destruct (canonical_digits m1 e1 H1) as (He1 & Hd1 & Hn1).
  destruct (canonical_digits m2 e2 H2) as (He2 & Hd2 & Hn2).
  pose proof (digits2_pos_bounds m1) as B1. pose proof (digits2_pos_bounds m2) as B2.
  destruct (Z.compare_spec e1 e2) as [Heq|Hlt|Hgt].
  - subst e2. rewrite Pos.compare_cont_spec. cbn [Pos.switch_Eq].
    symmetry. change (Pos.compare m1 m2) with (Z.compare (Zpos m1) (Zpos m2)).
    destruct (Z.compare_spec (Zpos m1) (Zpos m2)) as [E|L|G].
    + apply Qeq_alt. injection E as ->. reflexivity.
    + apply Qlt_alt. apply Qmult_lt_r; [apply Qpower_2_pos|]. rewrite <- Zlt_Qlt. exact L.
    + apply Qgt_alt. apply Qmult_lt_r; [apply Qpower_2_pos|]. rewrite <- Zlt_Qlt. lia.
  - symmetry. apply Qlt_alt.
    rewrite (value_on_exponent m2 e2 e1) by lia.
    apply Qmult_lt_r; [apply Qpower_2_pos|]. rewrite <- Zlt_Qlt.
    specialize (Hn2 ltac:(lia)). rewrite Hn2 in B2.
    assert (2 ^ 1 <= 2 ^ (e2 - e1)) by (apply Z.pow_le_mono_r; lia).
    assert (Zpos m1 < 2 ^ 53).
    { eapply Z.lt_le_trans; [apply B1|]. apply Z.pow_le_mono_r; lia. }
    change (2 ^ (53 - 1)) with 4503599627370496 in B2.
    change (2 ^ 53) with 9007199254740992 in *. change (2 ^ 1) with 2 in *. nia.
  - symmetry. apply Qgt_alt.
    rewrite (value_on_exponent m1 e1 e2) by lia.
    apply Qmult_lt_r; [apply Qpower_2_pos|]. rewrite <- Zlt_Qlt.
    specialize (Hn1 ltac:(lia)). rewrite Hn1 in B1.
    assert (2 ^ 1 <= 2 ^ (e1 - e2)) by (apply Z.pow_le_mono_r; lia).
    assert (Zpos m2 < 2 ^ 53).
    { eapply Z.lt_le_trans; [apply B2|]. apply Z.pow_le_mono_r; lia. }
    change (2 ^ (53 - 1)) with 4503599627370496 in B1.
    change (2 ^ 53) with 9007199254740992 in *. change (2 ^ 1) with 2 in *. nia.
Qed.

Lemma SFltb_pos (m1 m2 : positive) (e1 e2 : Z) :
  bounded prec emax m1 e1 = true -> bounded prec emax m2 e2 = true ->
  SFltb (S754_finite false m1 e1) (S754_finite false m2 e2) = true ->
  (SF2Q (S754_finite false m1 e1) < SF2Q (S754_finite false m2 e2))%Q.
Proof.
  intros V1 V2. unfold SFltb. rewrite (compare_pos_finite _ _ _ _ V1 V2).
  destruct (Qcompare_spec (SF2Q (S754_finite false m1 e1)) (SF2Q (S754_finite false m2 e2)));
    try discriminate. auto.
Qed.

Lemma SFleb_pos (m1 m2 : positive) (e1 e2 : Z) :
  bounded prec emax m1 e1 = true -> bounded prec emax m2 e2 = true ->
  SFleb (S754_finite false m1 e1) (S754_finite false m2 e2) = true ->
  (SF2Q (S754_finite false m1 e1) <= SF2Q (S754_finite false m2 e2))%Q.
Proof.
  intros V1 V2. unfold SFleb. rewrite (compare_pos_finite _ _ _ _ V1 V2).
  destruct (Qcompare_spec (SF2Q (S754_finite false m1 e1)) (SF2Q (S754_finite false m2 e2)))
    as [E|L|G]; try discriminate; intros _.
  - rewrite E. apply Qle_refl.
  - apply Qlt_le_weak, L.
Qed.

Lemma between_nonneg (f1 f2 f3 : spec_float) :
  valid_binary f1 = true -> valid_binary f2 = true -> valid_binary f3 = true ->
  nonneg_finite f1 = true -> nonneg_finite f3 = true ->
  SFleb f1 f2 = true -> SFltb f2 f3 = true ->
  (SF2Q f1 <= SF2Q f2 /\ SF2Q f2 < SF2Q f3)%Q.
Proof.
  intros V1 V2 V3 N1 N3 Hle Hlt.
  assert (Hpos : forall m e, (0 < SF2Q (S754_finite false m e))%Q).
  { intros m e. cbn [SF2Q]. apply Qmult_lt_0_compat; [reflexivity|apply Qpower_2_pos]. }
  destruct f1 as [s1| | |[|] m1 e1]; try discriminate N1;
    destruct f3 as [s3| | |[|] m3 e3]; try discriminate N3;
    destruct f2 as [s2|[|]| |[|] m2 e2]; try discriminate Hle; try discriminate Hlt;
    cbn [valid_binary] in *; split;
    first [ apply SFltb_pos; assumption
          | apply SFleb_pos; assumption
          | apply Hpos
          | apply Qlt_le_weak, Hpos
          | apply Qle_refl ].
Qed.

(** Math.round of a binary64 that primitive comparisons place between two
    others. *)
Lemma math_round64_between (x lo hi : float) (n : Z) :
  nonneg_finite (Prim2SF lo) = true -> nonneg_finite (Prim2SF hi) = true ->
  (inject_Z n - (1 # 2) <= value lo)%Q ->
  (value hi <= inject_Z n + (1 # 2))%Q ->
  (lo <=? x)%float = true -> (x <? hi)%float = true ->
  math_round64 x = n.
Proof.
  intros Nlo Nhi Hlo Hhi Hle Hlt. rewrite leb_spec in Hle. rewrite ltb_spec in Hlt.
  destruct (between_nonneg _ _ _ (Prim2SF_valid lo) (Prim2SF_valid x) (Prim2SF_valid hi)
              Nlo Nhi Hle Hlt) as [H1 H2].
  fold (value lo) in H1. fold (value x) in H1, H2. fold (value hi) in H2.
  unfold math_round64, math_round.
  assert (Hn : (inject_Z n <= value x + (1 # 2))%Q).
  { apply Qle_trans with (value lo + (1 # 2))%Q.
    - apply Qle_trans with ((inject_Z n - (1 # 2)) + (1 # 2))%Q.
      + assert (E : (inject_Z n - (1 # 2) + (1 # 2) == inject_Z n)%Q) by ring.
        rewrite E. apply Qle_refl.
      + apply Qplus_le_l. exact Hlo.
    - apply Qplus_le_l. exact H1. }
  assert (Hn1 : (value x + (1 # 2) < inject_Z (n + 1))%Q).
  { apply Qlt_le_trans with (value hi + (1 # 2))%Q.
    - apply Qplus_lt_l. exact H2.
    - apply Qle_trans with ((inject_Z n + (1 # 2)) + (1 # 2))%Q.
      + apply Qplus_le_l. exact Hhi.
      + rewrite inject_Z_plus.
        assert (E : (inject_Z n + (1 # 2) + (1 # 2) == inject_Z n + inject_Z 1)%Q) by ring.
        rewrite E. apply Qle_refl. }
  pose proof (Qfloor_le (value x + (1 # 2))) as F1.
  pose proof (Qlt_floor (value x + (1 # 2))) as F2.
  assert (G1 : (inject_Z (Qfloor (value x + (1 # 2))) < inject_Z (n + 1))%Q)
    by (eapply Qle_lt_trans; eassumption).
  assert (G2 : (inject_Z n < inject_Z (Qfloor (value x + (1 # 2)) + 1))%Q)
    by (eapply Qle_lt_trans; eassumption).
  rewrite <- Zlt_Qlt in G1, G2. lia.
Qed.



(** *** Every outcome of the scored analyzers *)

Lemma all_agree_true : all_agree = true.
Proof. vm_compute. reflexivity. Qed.

Lemma bounds_ok_true : forallb bounds_ok (range 101) = true.
Proof. vm_compute. reflexivity. Qed.

Lemma In_range (n : nat) (z : Z) : 0 <= z < Z.of_nat n -> In z (range n).
Proof.
  intros H. unfold range. apply in_map_iff. exists (Z.to_nat z). split; [lia|].
  apply in_seq. lia.
Qed.

Lemma In_opt_range (n : nat) (o : option Z) :
  (forall z, o = Some z -> 0 <= z < Z.of_nat n) -> In o (opt_range n).
Proof.
  intros H. destruct o as [z|]; [right|left; reflexivity].
  apply in_map, In_range, H. reflexivity.
Qed.

Lemma forallb_In {A} (f : A -> bool) (l : list A) (x : A) :
  forallb f l = true -> In x l -> f x = true.
Proof. intros H. apply forallb_forall. exact H. Qed.

Lemma agrees_in_range (sc : Scores) : in_scores_range sc -> agrees sc = true.
Proof.
  intros (Hs & Hp & Ha).
  destruct sc as [s p a e i]. cbn [s_security s_performance s_accessibility] in *.
  assert (Is : In s (opt_range 8))
    by (apply In_opt_range; intros z Hz; specialize (Hs z Hz); lia).
  assert (Ip : In p (opt_range 101))
    by (apply In_opt_range; intros z Hz; specialize (Hp z Hz); lia).
  assert (Ia : In a (opt_range 101))
    by (apply In_opt_range; intros z Hz; specialize (Ha z Hz); lia).
  assert (Ie : In e [None; Some false; Some true]) by (destruct e as [[|]|]; cbn; tauto).
  assert (Ii : In i [false; true]) by (destruct i; cbn; tauto).
  exact (forallb_In _ _ i (forallb_In _ _ e (forallb_In _ _ a (forallb_In _ _ p
           (forallb_In _ _ s all_agree_true Is) Ip) Ia) Ie) Ii).
Qed.

Lemma bounds_ok_in_range (k : Z) : 0 <= k <= 100 -> bounds_ok k = true.
Proof.
  intros H. pose proof bounds_ok_true as Hall. rewrite forallb_forall in Hall.
  apply Hall, In_range. lia.
Qed.

Lemma wB_value : Uint63.wB = 9223372036854775808.
Proof. reflexivity. Qed.


Lemma int_of_spec (z : Z) : 0 <= z < 9223372036854775808 -> Uint63.to_Z (int_of z) = z.
Proof.
  intros H. unfold int_of. rewrite Uint63.of_Z_spec, wB_value. apply Z.mod_small. exact H.
Qed.

Lemma add63_spec (a b : Uint63.int) :
  Uint63.to_Z a + Uint63.to_Z b < 9223372036854775808 ->
  Uint63.to_Z (Uint63.add a b) = Uint63.to_Z a + Uint63.to_Z b.
Proof.
  intros H. rewrite Uint63.add_spec, wB_value. apply Z.mod_small.
  pose proof (Uint63.to_Z_bounded a). pose proof (Uint63.to_Z_bounded b). lia.
Qed.

Lemma mul63_spec (a b : Uint63.int) :
  Uint63.to_Z a * Uint63.to_Z b < 9223372036854775808 ->
  Uint63.to_Z (Uint63.mul a b) = Uint63.to_Z a * Uint63.to_Z b.
Proof.
  intros H. rewrite Uint63.mul_spec, wB_value. apply Z.mod_small.
  pose proof (Uint63.to_Z_bounded a). pose proof (Uint63.to_Z_bounded b). nia.
Qed.

Lemma numerator63_spec (sc : Scores) :
  in_scores_range sc -> Uint63.to_Z (numerator63 sc) = numerator sc.
Proof.
  intros (Hs & Hp & Ha). unfold numerator63, numerator.
  destruct sc as [s p a e i]. cbn [s_security s_performance s_accessibility s_e2e s_api] in *.
  destruct s as [c|]; [specialize (Hs c eq_refl)|];
    (destruct p as [v|]; [specialize (Hp v eq_refl)|]);
    (destruct a as [u|]; [specialize (Ha u eq_refl)|]);
    destruct e as [[|]|]; destruct i;
    repeat first [ rewrite add63_spec | rewrite mul63_spec | rewrite int_of_spec ];
    change (Uint63.to_Z i0) with 0; change (Uint63.to_Z i35) with 35;
    change (Uint63.to_Z i600) with 600; change (Uint63.to_Z i700) with 700;
    change (Uint63.to_Z i980) with 980; change (Uint63.to_Z i1120) with 1120;
    try lia.
Qed.

Lemma denominator_range (sc : Scores) : 0 <= denominator sc <= 140.
Proof.
  unfold denominator. destruct (s_security sc), (s_performance sc), (s_accessibility sc),
    (s_e2e sc), (s_api sc); lia.
Qed.

Lemma numerator_range (sc : Scores) :
  in_scores_range sc -> 0 <= numerator sc <= 100 * denominator sc.
Proof.
  intros (Hs & Hp & Ha). unfold numerator, denominator.
  destruct sc as [s p a e i]. cbn [s_security s_performance s_accessibility s_e2e s_api] in *.
  destruct s as [c|]; [specialize (Hs c eq_refl)|];
    (destruct p as [v|]; [specialize (Hp v eq_refl)|]);
    (destruct a as [u|]; [specialize (Ha u eq_refl)|]);
    destruct e as [[|]|]; destruct i; lia.
Qed.

Lemma exact_round63_spec (sc : Scores) :
  in_scores_range sc -> Uint63.to_Z (exact_round63 sc) = exact_round sc.
Proof.
  intros Hr. unfold exact_round63, exact_round, denominator63.
  pose proof (denominator_range sc) as Hd. pose proof (numerator_range sc Hr) as Hn.
  assert (Hden : Uint63.to_Z (int_of (denominator sc)) = denominator sc)
    by (apply int_of_spec; lia).
  assert (H2n : Uint63.to_Z (Uint63.mul i2 (numerator63 sc)) = 2 * numerator sc).
  { rewrite mul63_spec; rewrite numerator63_spec by exact Hr;
      change (Uint63.to_Z i2) with 2; lia. }
  assert (H2d : Uint63.to_Z (Uint63.mul i2 (int_of (denominator sc))) = 2 * denominator sc).
  { rewrite mul63_spec; rewrite Hden; change (Uint63.to_Z i2) with 2; lia. }
  rewrite Uint63.div_spec, H2d, add63_spec; rewrite H2n, Hden; [reflexivity|lia].
Qed.

Lemma totalsQ_values (sc : Scores) :
  (fst (totalsQ sc) == inject_Z (numerator sc) / 140
   /\ snd (totalsQ sc) == inject_Z (denominator sc) / 140)%Q.
Proof.
  unfold totalsQ, numerator, denominator, Exact.add_weighted.
  destruct sc as [s p a e i]. cbn [s_security s_performance s_accessibility s_e2e s_api].
  destruct s as [c|]; destruct p as [v|]; destruct a as [u|]; destruct e as [[|]|]; destruct i;
    cbn [fst snd]; rewrite ?inject_Z_plus, ?inject_Z_mult; split; field.
Qed.

Lemma denominator_pos (sc : Scores) : none_completed sc = false -> 0 < denominator sc.
Proof.
  unfold none_completed, denominator.
  destruct (s_security sc), (s_performance sc), (s_accessibility sc), (s_e2e sc), (s_api sc);
    intros H; try discriminate H; lia.
Qed.

Lemma exact_finish (sc : Scores) :
  finish (totalsQ sc) = if none_completed sc then 0 else exact_round sc.
Proof.
  destruct (totalsQ_values sc) as [HS HW]. unfold finish.
  destruct (none_completed sc) eqn:En.
  - unfold none_completed in En. destruct sc as [s p a e i].
    cbn [s_security s_performance s_accessibility s_e2e s_api] in En.
    destruct s, p, a, e, i; try discriminate En. reflexivity.
  - apply denominator_pos in En.
    assert (Hpos : (0 < snd (totalsQ sc))%Q).
    { rewrite HW. apply Qlt_shift_div_l; [reflexivity|].
      assert (E : (0 * 140 == inject_Z 0)%Q) by reflexivity. rewrite E, <- Zlt_Qlt. exact En. }
    assert (Hlt : Qltb 0 (snd (totalsQ sc)) = true).
    { unfold Qltb. apply negb_true_iff. destruct (Qle_bool (snd (totalsQ sc)) 0) eqn:E; [|reflexivity].
      apply Qle_bool_iff in E. exfalso. apply (Qlt_not_le _ _ Hpos E). }
    rewrite Hlt. unfold math_round, exact_round. rewrite Zdiv_Qdiv. apply Qfloor_comp.
    rewrite HS, HW, !inject_Z_plus, !inject_Z_mult. field.
    intros E. assert (Hd : (inject_Z 0 < inject_Z (denominator sc))%Q) by (rewrite <- Zlt_Qlt; exact En).
    rewrite E in Hd. discriminate Hd.
Qed.

(** On the outcomes of the pipeline, binary64 arithmetic rounds to the same
    integer as exact arithmetic. *)
Lemma scores_agree (sc : Scores) :
  in_scores_range sc -> finish64 (totals64 sc) = finish (totalsQ sc).
Proof.
  intros Hr. rewrite exact_finish. pose proof (agrees_in_range sc Hr) as Hag.
  unfold agrees in Hag. destruct (none_completed sc) eqn:En.
  - unfold none_completed in En. destruct sc as [s p a e i].
    cbn [s_security s_performance s_accessibility s_e2e s_api] in En.
    destruct s, p, a, e, i; try discriminate En. reflexivity.
  - cbn [orb] in Hag. unfold finish64.
    destruct (totals64 sc) as [totalScore totalWeight]. cbn [fst snd].
    apply andb_true_iff in Hag as [Hag Hhi]. apply andb_true_iff in Hag as [Hag Hlo].
    apply andb_true_iff in Hag as [Hw Hn]. rewrite Hw.
    rewrite <- (exact_round63_spec sc Hr).
    set (n := exact_round63 sc) in *.
    apply Uint63.leb_spec in Hn. change (Uint63.to_Z i100) with 100 in Hn.
    pose proof (Uint63.to_Z_bounded n) as Hb.
    assert (Hk : bounds_ok (Uint63.to_Z n) = true) by (apply bounds_ok_in_range; lia).
    unfold bounds_ok, int_of in Hk. rewrite Uint63.of_to_Z in Hk.
    apply andb_true_iff in Hk as [Hk H4]. apply andb_true_iff in Hk as [Hk H3].
    apply andb_true_iff in Hk as [H1 H2].
    apply Qle_bool_iff in H3, H4.
    exact (math_round64_between _ _ _ _ H1 H2 H3 H4 Hlo Hhi).
Qed.

(** *** From the results to their outcome *)

Lemma is_completed_true (s : option Status) : is_completed s = true -> s = Some completed.
Proof. destruct s as [[]|]; intros H; try discriminate H; reflexivity. Qed.

Lemma num_or_0 (c : Z) : num_or (Some c) 0 = c.
Proof. unfold num_or. destruct (Z.eqb_spec c 0); [subst|]; reflexivity. Qed.

Lemma finish64_pair (acc : float * float) :
  (let (totalScore, totalWeight) := acc in
   if (0 <? totalWeight)%float then math_round64 (totalScore / totalWeight)%float else 0)
  = finish64 acc.
Proof. destruct acc; reflexivity. Qed.

Lemma finish_pair (acc : Q * Q) :
  (let (totalScore, totalWeight) := acc in
   if Qltb 0 totalWeight then math_round (totalScore / totalWeight) else 0)
  = finish acc.
Proof. destruct acc; reflexivity. Qed.

(** The security score of a completed section in range is read off its
    number of checks passed. *)
Lemma completed_security_in_range (r : PipelineResults) (s : SecuritySection) :
  in_range r -> security r = Some s -> is_completed (sec_status s) = true ->
  num_or (sec_checks_performed s) 1 = 7.
Proof.
  intros (Hs & _) E Hc. destruct (Hs s E (is_completed_true _ Hc)) as (Hp & _).
  rewrite Hp. reflexivity.
Qed.

Lemma overall_score_of_scores (r : PipelineResults) :
  in_range r -> calculateOverallScore r = finish64 (totals64 (scores_of r)).
Proof.
  intros Hr. unfold calculateOverallScore. rewrite finish64_pair. f_equal.
  unfold totals64, scores_of, completed_only.
  cbn [s_security s_performance s_accessibility s_e2e s_api].
  assert (Hsec : forall s acc, security r = Some s ->
            add_weighted (is_completed (sec_status s)) (secScore s) Weights.security acc
            = if is_completed (sec_status s)
              then add_weighted true
                     (number (num_or (sec_checks_passed s) 0) / number 7 * 100)%float
                     Weights.security acc
              else acc).
  { intros s acc E. destruct (is_completed (sec_status s)) eqn:Hc; [|reflexivity].
    unfold secScore. rewrite (completed_security_in_range r s Hr E Hc). reflexivity. }
  destruct (security r) as [s|]; [rewrite (Hsec s _ eq_refl)|];
    destruct (performance r) as [p|], (accessibility r) as [a|], (e2e r) as [e|],
             (api r) as [i|];
    repeat match goal with
           | |- context [is_completed ?x] => destruct (is_completed x)
           end;
    unfold e2eScore, apiScore;
    repeat match goal with
           | |- context [0 <? ?x] => destruct (0 <? x)
           end;
    reflexivity.
Qed.

Lemma exact_score_of_scores (r : PipelineResults) :
  in_range r -> Exact.calculateOverallScore r = finish (totalsQ (scores_of r)).
Proof.
  intros Hr. unfold Exact.calculateOverallScore. rewrite finish_pair. f_equal.
  unfold totalsQ, scores_of, completed_only.
  cbn [s_security s_performance s_accessibility s_e2e s_api].
  assert (Hsec : forall s acc, security r = Some s ->
            Exact.add_weighted (is_completed (sec_status s)) (Exact.secScore s)
              Exact.Weights.security acc
            = if is_completed (sec_status s)
              then Exact.add_weighted true
                     (inject_Z (num_or (sec_checks_passed s) 0) / inject_Z 7 * 100)%Q
                     (3 # 10) acc
              else acc).
  { intros s acc E. destruct (is_completed (sec_status s)) eqn:Hc; [|reflexivity].
    unfold Exact.secScore. rewrite (completed_security_in_range r s Hr E Hc). reflexivity. }
  destruct (security r) as [s|]; [rewrite (Hsec s _ eq_refl)|];
    destruct (performance r) as [p|], (accessibility r) as [a|], (e2e r) as [e|],
             (api r) as [i|];
    repeat match goal with
           | |- context [is_completed ?x] => destruct (is_completed x)
           end;
    unfold Exact.e2eScore, Exact.apiScore;
    repeat match goal with
           | |- context [0 <? ?x] => destruct (0 <? x)
           end;
    reflexivity.
Qed.

Lemma scores_of_in_range (r : PipelineResults) :
  in_range r -> in_scores_range (scores_of r).
Proof.
  intros (Hs & Hp & Ha). unfold in_scores_range, scores_of, completed_only.
  cbn [s_security s_performance s_accessibility]. split; [|split].
  - destruct (security r) as [s|]; [|discriminate].
    destruct (is_completed (sec_status s)) eqn:Hc; [|discriminate].
    destruct (Hs s eq_refl (is_completed_true _ Hc)) as (_ & c' & Hc' & Hr).
    intros c0 [= <-]. rewrite Hc', num_or_0. exact Hr.
  - destruct (performance r) as [p|]; [|discriminate].
    destruct (is_completed (perf_status p)) eqn:Hc; [|discriminate].
    destruct (Hp p eq_refl (is_completed_true _ Hc)) as (v' & Hv' & Hr).
    intros v0 [= <-]. rewrite Hv', num_or_0. exact Hr.
  - destruct (accessibility r) as [a|]; [|discriminate].
    destruct (is_completed (acc_status a)) eqn:Hc; [|discriminate].
    destruct (Ha a eq_refl (is_completed_true _ Hc)) as (v' & Hv' & Hr).
    intros v0 [= <-]. rewrite Hv', num_or_0. exact Hr.
Qed.

(** On results in range the binary64 pass of the code and the exact pass
    return the same integer. *)
Lemma overall_score_is_exact (r : PipelineResults) :
  in_range r -> calculateOverallScore r = Exact.calculateOverallScore r.
Proof.
  intros Hr. rewrite (overall_score_of_scores r Hr), (exact_score_of_scores r Hr).
  apply scores_agree, scores_of_in_range, Hr.
Qed.


(** ** Analyzer boundaries *)

Lemma try_catch_total {A} (c : Exc A) (h : Thrown -> A) :
  try_catch c (fun e => Ret (h e)) = Ret (catch_with c h).
Proof. destruct c; reflexivity. Qed.

Lemma thrown_Some {A} (c : Exc A) (e : Thrown) : thrown c = Some e -> c = Throw e.
Proof. destruct c; simpl; congruence. Qed.

Section Boundaries.

Variable url : string.
Variable w : World.

Lemma performScan_e2e :
  e2e (performScan url w) =
    Some (catch_with (performE2EScan_try w)
            (fun e => e2e_failed (error_message e "E2E scan failed"))).
Proof. unfold performScan, performE2EScan. rewrite try_catch_total. reflexivity. Qed.

Lemma performScan_api :
  api (performScan url w) =
    Some (catch_with (performAPIScan_try w)
            (fun e => api_failed (error_message e "API scan failed"))).
Proof. unfold performScan, performAPIScan. rewrite try_catch_total. reflexivity. Qed.

Lemma performScan_security :
  security (performScan url w) =
    Some (catch_with (performSecurityScan_try url w)
            (fun e => sec_failed (error_message e "Security scan failed"))).
Proof. unfold performScan, performSecurityScan. rewrite try_catch_total. reflexivity. Qed.

Lemma performScan_performance :
  performance (performScan url w) =
    Some (catch_with (performPerformanceScan_try w)
            (fun e => perf_failed (error_message e "Performance scan failed"))).
Proof. unfold performScan, performPerformanceScan. rewrite try_catch_total. reflexivity. Qed.

Lemma performScan_accessibility :
  accessibility (performScan url w) =
    Some (catch_with (performAccessibilityScan_try w)
            (fun e => acc_failed (error_message e "Accessibility scan failed"))).
Proof. unfold performScan, performAccessibilityScan. rewrite try_catch_total. reflexivity. Qed.

Lemma performScan_techStack :
  techStack (performScan url w) =
    Some (catch_with (detectTechStack_try w)
            (fun e => ts_failed (error_message e "Tech detection failed"))).
Proof. unfold performScan, detectTechStack. rewrite try_catch_total. reflexivity. Qed.

End Boundaries.

(** Every [try] block ends on a section that is completed or failed. *)
Lemma e2e_try_status (w : World) (s : E2ESection) :
  performE2EScan_try w = Ret s -> e2e_status s = Some completed \/ e2e_status s = Some failed.
Proof.
  unfold performE2EScan_try. destruct (w_fetch_e2e w) as [resp|]; simpl; [|discriminate].
  destruct (resp_ok resp); simpl.
  - destruct (resp_text resp) as [html|]; simpl; [|discriminate].
    destruct (w_dom w); simpl; intros [= <-]; now left.
  - intros [= <-]; now right.
Qed.

Lemma api_try_status (w : World) (s : APISection) :
  performAPIScan_try w = Ret s -> api_status s = Some completed.
Proof.
  unfold performAPIScan_try. destruct (w_fetch_api w) as [resp|]; simpl; [|discriminate].
  destruct (resp_text resp); simpl; [|discriminate]. now intros [= <-].
Qed.

Lemma security_try_shape (url : string) (w : World) (s : SecuritySection) :
  performSecurityScan_try url w = Ret s ->
  exists issues, sec_issues s = Some issues /\ sec_checks_performed s = Some 7
    /\ sec_checks_passed s = Some (7 - len issues) /\ sec_status s = Some completed.
Proof.
  unfold performSecurityScan_try. destruct (w_fetch_security w) as [resp|]; simpl; [|discriminate].
  destruct (resp_text resp) as [html|]; simpl; [|discriminate].
  intros [= <-]. simpl. eauto.
Qed.

Lemma basic_performance_status (w : World) (s : PerformanceSection) :
  performBasicPerformanceScan w = Ret s -> perf_status s = Some completed.
Proof.
  unfold performBasicPerformanceScan.
  destruct (w_fetch_performance w) as [resp|]; simpl; [|discriminate].
  destruct (resp_text resp); simpl; [|discriminate]. now intros [= <-].
Qed.

Lemma performance_try_status (w : World) (s : PerformanceSection) :
  performPerformanceScan_try w = Ret s -> perf_status s = Some completed.
Proof.
  unfold performPerformanceScan_try, performGooglePageSpeedScan.
  destruct (truthy_str (w_pagespeed_key w)); [|apply basic_performance_status].
  destruct (w_fetch_pagespeed w) as [resp|]; simpl; [|apply basic_performance_status].
  destruct (psr_ok resp); simpl; [|apply basic_performance_status].
  destruct (psr_json resp); simpl; [|apply basic_performance_status].
  now intros [= <-].
Qed.

Lemma accessibility_try_status (w : World) (s : AccessibilitySection) :
  performAccessibilityScan_try w = Ret s -> acc_status s = Some completed.
Proof.
  unfold performAccessibilityScan_try.
  destruct (w_fetch_accessibility w) as [resp|]; simpl; [|discriminate].
  destruct (resp_text resp); simpl; [|discriminate]. now intros [= <-].
Qed.

Lemma techStack_try_status (w : World) (s : TechStackSection) :
  detectTechStack_try w = Ret s -> ts_status s = Some completed.
Proof.
  unfold detectTechStack_try.
  destruct (w_fetch_techstack w) as [resp|]; simpl; [|discriminate].
  destruct (resp_text resp); simpl; [|discriminate]. now intros [= <-].
Qed.

Lemma every_analyzer_reports (url : string) (w : World) (a : AnalyzerKind) :
  reported a (performScan url w).
Proof.
  unfold reported. destruct a; unfold section_status.
  - rewrite performScan_e2e. destruct (performE2EScan_try w) eqn:E; simpl; [|now right].
    eapply e2e_try_status; eauto.
  - rewrite performScan_api. destruct (performAPIScan_try w) eqn:E; simpl; [|now right].
    left. eapply api_try_status; eauto.
  - rewrite performScan_security. destruct (performSecurityScan_try url w) eqn:E; simpl; [|now right].
    left. destruct (security_try_shape _ _ _ E) as (? & ? & ? & ? & ?). assumption.
  - rewrite performScan_performance. destruct (performPerformanceScan_try w) eqn:E; simpl; [|now right].
    left. eapply performance_try_status; eauto.
  - rewrite performScan_accessibility.
    destruct (performAccessibilityScan_try w) eqn:E; simpl; [|now right].
    left. eapply accessibility_try_status; eauto.
  - rewrite performScan_techStack. destruct (detectTechStack_try w) eqn:E; simpl; [|now right].
    left. eapply techStack_try_status; eauto.
Qed.

Lemma failure_is_reported (url : string) (w : World) (a : AnalyzerKind) (e : Thrown) :
  thrown_inside a url w = Some e ->
  failed_with_zero_metrics a (error_message e (default_message a)) (performScan url w).
Proof.
  intros H. destruct a; simpl in H; apply thrown_Some in H;
    unfold failed_with_zero_metrics, default_message.
  - rewrite performScan_e2e, H. simpl. eexists; repeat split; reflexivity.
  - rewrite performScan_api, H. simpl. eexists; repeat split; reflexivity.
  - rewrite performScan_security, H. simpl. eexists; repeat split; reflexivity.
  - rewrite performScan_performance, H. simpl. eexists; repeat split; reflexivity.
  - rewrite performScan_accessibility, H. simpl. eexists; repeat split; reflexivity.
  - rewrite performScan_techStack, H. simpl. eexists; repeat split; reflexivity.
Qed.

Lemma section_depends_on_own_answers (url : string) (w w' : World) (a : AnalyzerKind) :
  same_answers a w w' -> same_section a (performScan url w) (performScan url w').
Proof.
  destruct a; unfold same_answers, same_section; intros H.
  - destruct H as [H1 H2]. rewrite !performScan_e2e. unfold performE2EScan_try.
    rewrite H1, H2. reflexivity.
  - rewrite !performScan_api. unfold performAPIScan_try. rewrite H. reflexivity.
  - rewrite !performScan_security. unfold performSecurityScan_try. rewrite H. reflexivity.
  - destruct H as (H1 & H2 & H3 & H4). rewrite !performScan_performance.
    unfold performPerformanceScan_try, performGooglePageSpeedScan, performBasicPerformanceScan.
    rewrite H1, H2, H3, H4. reflexivity.
  - rewrite !performScan_accessibility. unfold performAccessibilityScan_try. rewrite H. reflexivity.
  - rewrite !performScan_techStack. unfold detectTechStack_try. rewrite H. reflexivity.
Qed.

(** ** The orchestrator *)

Section Orchestrator.

Variables scanId url : string.
Variable env : Env.
Variable db : DB.

(** The row of the scan after an admitted run: the final write, or the
    failed mark when that write reports an error. *)
Lemma processScan_allowed (row : ScanRow) (domain : string) :
  scan_results db !! scanId = Some row ->
  env_hostname env = Ret domain ->
  fst (rate_limit_check (env_now env) domain (rate_limits db)) = Allowed ->
  scan_results (snd (processScan scanId url env db)) !! scanId =
    Some (match env_update_error env with
          | None => final_write url env (performScan url (env_world env))
                      (with_status scan_processing row)
          | Some _ => with_status scan_failed (with_status scan_processing row)
          end).
Proof.
  intros Hrow Hhost Hadm. unfold processScan. rewrite Hhost.
  simpl rate_limits.
  destruct (rate_limit_check (env_now env) domain (rate_limits db)) as [adm rl] eqn:E.
  simpl in Hadm. subst adm.
  destruct (env_update_error env); simpl;
    rewrite !lookup_alter_eq, Hrow; reflexivity.
Qed.

Lemma processScan_rejected (row : ScanRow) (domain : string) :
  scan_results db !! scanId = Some row ->
  env_hostname env = Ret domain ->
  fst (rate_limit_check (env_now env) domain (rate_limits db)) = RateLimitExceeded ->
  fst (processScan scanId url env db) = Answered429
  /\ scan_results (snd (processScan scanId url env db)) !! scanId =
       Some (with_status scan_failed (with_status scan_processing row)).
Proof.
  intros Hrow Hhost Hadm. unfold processScan. rewrite Hhost.
  simpl rate_limits.
  destruct (rate_limit_check (env_now env) domain (rate_limits db)) as [adm rl] eqn:E.
  simpl in Hadm. subst adm. simpl. rewrite !lookup_alter_eq, Hrow. split; reflexivity.
Qed.

End Orchestrator.


(** C4. An exception that leaves the [try] block of an analyzer is caught
    by that analyzer: its section is failed, carries the message of the
    error (or the analyzer's fixed message) and zero-valued metrics. Every
    analyzer still runs to a completed or failed section, the section of an
    analyzer depends on the answers to its own requests only, and the scan
    itself goes on to its final write. *)
Theorem analyzer_failure_is_isolated (url : string) (w : World) (a : AnalyzerKind) (e : Thrown) :
  thrown_inside a url w = Some e ->
  failed_with_zero_metrics a (error_message e (default_message a)) (performScan url w)
  /\ (forall b, reported b (performScan url w))
  /\ (forall b w', same_answers b w w' ->
        same_section b (performScan url w) (performScan url w'))
  /\ (forall scanId env db row domain,
        env_world env = w ->
        scan_results db !! scanId = Some row ->
        env_hostname env = Ret domain ->
        fst (rate_limit_check (env_now env) domain (rate_limits db)) = Allowed ->
        env_update_error env = None ->
        exists row', scan_results (snd (processScan scanId url env db)) !! scanId = Some row'
                     /\ scan_status row' = scan_completed).
Proof.
  intros H. split; [|split; [|split]].
  - exact (failure_is_reported url w a e H).
  - intros b. apply every_analyzer_reports.
  - intros b w'. apply section_depends_on_own_answers.
  - intros scanId env db row domain Hw Hrow Hhost Hadm Hupd.
    rewrite (processScan_allowed scanId url env db row domain Hrow Hhost Hadm), Hupd.
    eexists. split; [reflexivity|]. unfold final_write.
    destruct (catch_with (env_ai env) _). reflexivity.
Qed.

Lemma analyzer_failure_is_isolated_witness :
  thrown_inside Security "https://example.com" offline = Some (ErrorObj "network unreachable")
  /\ failed_with_zero_metrics Security "network unreachable"
       (performScan "https://example.com" offline).
Proof.
  split; [reflexivity|].
  exact (proj1 (analyzer_failure_is_isolated "https://example.com" offline Security
                  (ErrorObj "network unreachable") eq_refl)).
Defined.

(** ** Scans without a completed analyzer *)

Lemma no_completed_scores_zero (r : PipelineResults) :
  Spec.completed_analyzers r = [] -> calculateOverallScore r = 0.
Proof.
  unfold Spec.completed_analyzers, Spec.analyzers, Spec.status_of, calculateOverallScore.
  cbn [List.filter].
  destruct (security r) as [s|], (performance r) as [p|], (accessibility r) as [a|],
           (e2e r) as [e|], (api r) as [i|];
    repeat match goal with
           | |- context [is_completed ?x] => destruct (is_completed x)
           end;
    intros H; try discriminate H; reflexivity.
Qed.

Lemma completed_count_zero (r : PipelineResults) :
  completed_count r = 0%nat -> Spec.completed_analyzers r = [].
Proof.
  unfold completed_count, Spec.completed_analyzers, all_kinds, Spec.analyzers; simpl.
  destruct (is_completed (match e2e r with Some s => e2e_status s | None => None end));
  destruct (is_completed (match api r with Some s => api_status s | None => None end));
  destruct (is_completed (match security r with Some s => sec_status s | None => None end));
  destruct (is_completed (match performance r with Some s => perf_status s | None => None end));
  destruct (is_completed (match accessibility r with Some s => acc_status s | None => None end));
  destruct (is_completed (match techStack r with Some s => ts_status s | None => None end));
  simpl; intros H; try discriminate; reflexivity.
Qed.

(** C3 does not hold as the specification states it: with every request
    failing no analyzer completes, the overall score is 0, and the scan is
    persisted as completed, not as failed. *)
Lemma scan_without_completed_analyzer_is_completed :
  let r := performScan "https://example.com" offline in
  let db := snd (processScan "scan-1" "https://example.com" (sample_env offline) sample_db) in
  completed_count r = 0%nat
  /\ calculateOverallScore r = 0
  /\ scan_status <$> (scan_results db !! "scan-1") = Some scan_completed
  /\ scan_status <$> (scan_results db !! "scan-1") <> Some scan_failed.
Proof. vm_compute. repeat split; discriminate. Qed.

(** C3, amended. For every admitted scan in which no analyzer reaches
    [completed], the overall score is 0 and the final write persists the
    scan as completed with that score; the scan is marked failed only when
    the final write reports an error. *)
Theorem scan_without_completed_analyzer (scanId url : string) (env : Env) (db : DB)
    (row : ScanRow) (domain : string) :
  scan_results db !! scanId = Some row ->
  env_hostname env = Ret domain ->
  fst (rate_limit_check (env_now env) domain (rate_limits db)) = Allowed ->
  completed_count (performScan url (env_world env)) = 0%nat ->
  calculateOverallScore (performScan url (env_world env)) = 0
  /\ exists row', scan_results (snd (processScan scanId url env db)) !! scanId = Some row'
       /\ match env_update_error env with
          | None => scan_status row' = scan_completed /\ overall_score row' = Some 0
          | Some _ => scan_status row' = scan_failed
          end.
Proof.
  intros Hrow Hhost Hadm Hnone.
  assert (Hzero : calculateOverallScore (performScan url (env_world env)) = 0)
    by (apply no_completed_scores_zero, completed_count_zero, Hnone).
  split; [exact Hzero|].
  rewrite (processScan_allowed scanId url env db row domain Hrow Hhost Hadm).
  eexists. split; [reflexivity|].
  destruct (env_update_error env); [reflexivity|].
  unfold final_write. destruct (catch_with (env_ai env) _). simpl.
  rewrite Hzero. split; reflexivity.
Qed.

Lemma scan_without_completed_analyzer_witness :
  let env := sample_env offline in
  calculateOverallScore (performScan "https://example.com" (env_world env)) = 0
  /\ exists row', scan_results (snd (processScan "scan-1" "https://example.com" env sample_db))
                    !! "scan-1" = Some row'
       /\ match env_update_error env with
          | None => scan_status row' = scan_completed /\ overall_score row' = Some 0
          | Some _ => scan_status row' = scan_failed
          end.
Proof.
  exact (scan_without_completed_analyzer "scan-1" "https://example.com" (sample_env offline)
           sample_db new_row "example.com" eq_refl eq_refl eq_refl eq_refl).
Defined.

(** ** The persisted security counters *)

Lemma failed_security_has_no_issue (url : string) (w : World) (s : SecuritySection) :
  security (performScan url w) = Some s -> sec_status s = Some failed ->
  sec_issues s = Some [].
Proof.
  rewrite performScan_security. intros [= <-].
  destruct (performSecurityScan_try url w) as [s|e] eqn:E; simpl; [|reflexivity].
  destruct (security_try_shape _ _ _ E) as (? & _ & _ & _ & Hst). rewrite Hst. discriminate.
Qed.

(** C9. When the security analyzer ends failed, its issue list is empty and
    the final write persists [security_checks_passed] = 7 out of
    [security_checks_total] = 7, the value [Math.max(0, 7 - issues)] also
    takes for any section without issue, such as a perfect pass. *)
Theorem failed_security_persists_seven_checks (scanId url : string) (env : Env) (db : DB)
    (row : ScanRow) (domain : string) (s : SecuritySection) :
  scan_results db !! scanId = Some row ->
  env_hostname env = Ret domain ->
  fst (rate_limit_check (env_now env) domain (rate_limits db)) = Allowed ->
  env_update_error env = None ->
  security (performScan url (env_world env)) = Some s ->
  sec_status s = Some failed ->
  sec_issues s = Some []
  /\ (exists row', scan_results (snd (processScan scanId url env db)) !! scanId = Some row'
        /\ security_checks_passed row' = Some 7 /\ security_checks_total row' = Some 7)
  /\ (forall r, securityIssues r = [] -> securityChecksPassed r = 7).
Proof.
  intros Hrow Hhost Hadm Hupd Hs Hst.
  pose proof (failed_security_has_no_issue url (env_world env) s Hs Hst) as Hiss.
  split; [exact Hiss|]. split.
  - rewrite (processScan_allowed scanId url env db row domain Hrow Hhost Hadm), Hupd.
    eexists. split; [reflexivity|].
    unfold final_write. destruct (catch_with (env_ai env) _). simpl.
    unfold securityChecksPassed, securityIssues. rewrite Hs, Hiss. split; reflexivity.
  - intros r Hr. unfold securityChecksPassed. rewrite Hr. reflexivity.
Qed.

Lemma failed_security_persists_seven_checks_witness :
  exists row', scan_results (snd (processScan "scan-1" "https://example.com"
                                    (sample_env offline) sample_db)) !! "scan-1" = Some row'
    /\ security_checks_passed row' = Some 7 /\ security_checks_total row' = Some 7.
Proof.
  exact (proj1 (proj2 (failed_security_persists_seven_checks "scan-1" "https://example.com"
           (sample_env offline) sample_db new_row "example.com"
           (sec_failed "network unreachable") eq_refl eq_refl eq_refl eq_refl eq_refl eq_refl))).
Defined.

(** ** The security analyzer *)

(** C5. On a response that carries none of the five inspected headers and
    whose body has no cookie assignment, the security analyzer returns
    exactly five issues and [checks_passed] = 2 of [checks_performed] = 7;
    and every completed security scan has [checks_passed] = 7 minus the
    number of its issues. *)
Theorem security_scan_counts_checks :
  (forall url w response html,
     w_fetch_security w = Ret response ->
     resp_text response = Ret html ->
     headers_get "strict-transport-security" response = None ->
     headers_get "content-security-policy" response = None ->
     headers_get "x-frame-options" response = None ->
     headers_get "x-content-type-options" response = None ->
     headers_get "x-xss-protection" response = None ->
     match_all true re_cookie html = [] ->
     exists s, performSecurityScan url w = Ret s
       /\ sec_status s = Some completed
       /\ sec_issues s =
            Some [issue_hsts; issue_content_type; issue_frame; issue_csp; issue_xss]
       /\ sec_checks_passed s = Some 2
       /\ sec_checks_performed s = Some 7)
  /\ (forall url w s,
        performSecurityScan url w = Ret s ->
        sec_status s = Some completed ->
        exists issues, sec_issues s = Some issues
          /\ sec_checks_performed s = Some 7
          /\ sec_checks_passed s = Some (7 - len issues)).
Proof.
  split.
  - intros url w response html Hf Ht H1 H2 H3 H4 H5 Hc.
    unfold performSecurityScan, performSecurityScan_try. rewrite Hf. simpl. rewrite Ht. simpl.
    unfold security_issues, header_issues. rewrite H1, H2, H3, H4, H5, Hc. simpl.
    eexists. repeat split; reflexivity.
  - intros url w s. unfold performSecurityScan.
    destruct (performSecurityScan_try url w) as [s'|e] eqn:E; simpl.
    + intros [= <-] _. destruct (security_try_shape _ _ _ E) as (issues & ? & ? & ? & ?).
      exists issues. auto.
    + intros [= <-]. discriminate.
Qed.

Lemma security_scan_counts_checks_witness :
  exists s, performSecurityScan "https://example.com"
              (uniform_world (Ret (bare_page page_three_images))) = Ret s
    /\ sec_status s = Some completed
    /\ sec_issues s = Some [issue_hsts; issue_content_type; issue_frame; issue_csp; issue_xss]
    /\ sec_checks_passed s = Some 2
    /\ sec_checks_performed s = Some 7.
Proof.
  exact (proj1 security_scan_counts_checks "https://example.com"
           (uniform_world (Ret (bare_page page_three_images)))
           (bare_page page_three_images) page_three_images
           eq_refl eq_refl eq_refl eq_refl eq_refl eq_refl eq_refl eq_refl).
Defined.

(** ** The API-surface analyzer *)

Lemma In_slice0 {A} (n : nat) (l : list A) (x : A) : In x (slice0 n l) -> In x l.
Proof.
  unfold slice0. intros H. rewrite <- (firstn_skipn n l). apply in_or_app. now left.
Qed.





(** ** The report *)

Lemma add_page_grows (title : string) (body : list Report.DrawOp) (doc : Report.Doc) :
  fst (Report.add_page title body doc) =
    fst doc ++ [ {| Report.page_ops := Report.drawPageHeader title (snd doc) ++ body |} ].
Proof. destruct doc. reflexivity. Qed.

Lemma add_page_if_length (c : bool) (title : string) (body : list Report.DrawOp)
    (doc : Report.Doc) :
  length (fst (Report.add_page_if c title body doc)) = (length (fst doc) + b2n c)%nat.
Proof.
  destruct c; simpl; [|lia]. rewrite add_page_grows, length_app. simpl. lia.
Qed.

Lemma add_page_if_prefix (c : bool) (title : string) (body : list Report.DrawOp)
    (doc : Report.Doc) :
  exists tail, fst (Report.add_page_if c title body doc) = fst doc ++ tail.
Proof.
  destruct c; simpl.
  - rewrite add_page_grows. eauto.
  - exists []. now rewrite app_nil_r.
Qed.

Lemma fixed_pages_shape (i : Report.Input) :
  length (fst (fixed_pages i)) = 5%nat /\ snd (fixed_pages i) = 5.
Proof. split; reflexivity. Qed.

Lemma later_pages_length (i : Report.Input) (doc : Report.Doc) :
  length (fst (later_pages i doc)) = (length (fst doc) + later_count i)%nat.
Proof.
  unfold later_pages, later_count. cbv zeta. rewrite !add_page_if_length. lia.
Qed.

Lemma later_pages_prefix (i : Report.Input) (doc : Report.Doc) :
  exists tail, fst (later_pages i doc) = fst doc ++ tail.
Proof.
  unfold later_pages. cbv zeta.
  repeat match goal with
         | |- context [Report.add_page_if ?c ?t ?b ?d] =>
             let tl := fresh "tl" in let E := fresh "E" in
             destruct (add_page_if_prefix c t b d) as [tl E]; rewrite E; clear E
         end.
  rewrite <- !app_assoc. eauto.
Qed.

Lemma generate_unfold (i : Report.Input) :
  Report.generate i =
    later_pages i
      (match Report.core_web_vitals_of (Report.in_scanResults i) with
       | Some cwv => Report.add_page "Core Web Vitals" (Report.page6_ops cwv) (fixed_pages i)
       | None => fixed_pages i
       end).
Proof. reflexivity. Qed.

Lemma vital_page_names (cwv : CoreWebVitals) :
  texts_of_size 9
    {| Report.page_ops := Report.drawPageHeader "Core Web Vitals" 5 ++ Report.page6_ops cwv |}
  = map Report.Plain vital_names.
Proof. reflexivity. Qed.

(** ** The ranked issue list *)

Section StableSort.

Context {A : Type} (key : A -> Z).

Lemma In_insert_by (x y : A) (l : list A) :
  In y (insert_by key x l) -> y = x \/ In y l.
Proof.
  induction l as [|z l IH]; simpl.
  - intros [<-|[]]. now left.
  - destruct (key x <=? key z); simpl.
    + intros [<-|H]; [now left | now right].
    + intros [<-|H]; [right; now left|]. destruct (IH H); [now left | right; now right].
Qed.

Lemma In_sort_by (y : A) (l : list A) : In y (sort_by key l) -> In y l.
Proof.
  induction l as [|x l IH]; simpl; [intros []|].
  intros H. apply In_insert_by in H as [->|H]; [now left | right; auto].
Qed.

Lemma insert_by_first (x : A) (l : list A) :
  (forall y, In y l -> key x <= key y) -> insert_by key x l = x :: l.
Proof.
  destruct l as [|z l]; [reflexivity|]. intros H. simpl.
  replace (key x <=? key z) with true; [reflexivity|].
  symmetry. apply Z.leb_le, H. now left.
Qed.

Lemma insert_by_after (x : A) (front back : list A) :
  (forall y, In y front -> key y < key x) ->
  insert_by key x (front ++ back) = front ++ insert_by key x back.
Proof.
  induction front as [|z front IH]; intros H; [reflexivity|]. simpl.
  replace (key x <=? key z) with false.
  - f_equal. apply IH. intros y Hy. apply H. now right.
  - symmetry. apply Z.leb_gt, H. now left.
Qed.

(** Stability at the least key: the entries with that key come first, in
    their original order. *)
Lemma sort_by_least_first (k : Z) (l : list A) :
  (forall y, In y l -> k <= key y) ->
  sort_by key l =
    List.filter (fun y => key y =? k) l
    ++ sort_by key (List.filter (fun y => negb (key y =? k)) l).
Proof.
  induction l as [|x l IH]; intros Hk; [reflexivity|].
  assert (Hl : forall y, In y l -> k <= key y) by (intros y Hy; apply Hk; now right).
  change (sort_by key (x :: l)) with (insert_by key x (sort_by key l)).
  rewrite (IH Hl). simpl. destruct (Z.eqb_spec (key x) k) as [Heq|Hne]; simpl.
  - apply insert_by_first. intros y Hy. apply in_app_or in Hy as [Hy|Hy].
    + apply filter_In in Hy as [_ Hy]. apply Z.eqb_eq in Hy. lia.
    + apply In_sort_by, filter_In in Hy as [Hy _]. specialize (Hl y Hy). lia.
  - apply insert_by_after. intros y Hy. apply filter_In in Hy as [_ Hy].
    apply Z.eqb_eq in Hy. specialize (Hk x (or_introl eq_refl)). lia.
Qed.

End StableSort.

Lemma In_slice0_app {A} (n : nat) (front back : list A) (x : A) :
  (length front < n)%nat -> In x (slice0 n (front ++ x :: back)).
Proof.
  unfold slice0. revert n. induction front as [|y front IH]; intros n Hn.
  - destruct n; [lia|]. now left.
  - destruct n; [simpl in Hn; lia|]. right. apply IH. simpl in Hn. lia.
Qed.

Lemma sort_key_ge_1 (i : TopIssue) : 1 <= sort_key i.
Proof.
  unfold sort_key, sortOrder.
  repeat match goal with |- context [if ?c then _ else _] => destruct c end; simpl; lia.
Qed.

(** An entry of high rank pushed last survives the sort and the cap when
    fewer than ten entries of high rank precede it. *)
Lemma last_high_entry_kept (before : list TopIssue) (x : TopIssue) :
  high_rank x = true ->
  (length (List.filter high_rank before) <= 9)%nat ->
  In x (slice0 10 (sort_by sort_key (before ++ [x]))).
Proof.
  intros Hx Hlen.
  rewrite (sort_by_least_first sort_key 1) by (intros; apply sort_key_ge_1).
  rewrite List.filter_app. simpl. fold (high_rank x). rewrite Hx.
  rewrite <- app_assoc. simpl. apply In_slice0_app.
  change (fun y : TopIssue => sort_key y =? 1) with high_rank. lia.
Qed.

Section HighEntries.

Context {A : Type} (f : A -> TopIssue).

Lemma keep_bound_low (c : bool) (x : A) (l : list A) (n : nat) :
  high_rank (f x) = false ->
  (length (List.filter high_rank (map f l)) <= n)%nat ->
  (length (List.filter high_rank (map f (push_if c x l))) <= n)%nat.
Proof.
  intros Hx Hl. destruct c; simpl; [|exact Hl].
  rewrite map_app, List.filter_app, length_app. simpl. rewrite Hx. simpl. lia.
Qed.

Lemma keep_bound_high (c : bool) (x : A) (l : list A) (n : nat) :
  (length (List.filter high_rank (map f l)) <= n)%nat ->
  (length (List.filter high_rank (map f (push_if c x l))) <= S n)%nat.
Proof.
  intros Hl. destruct c; simpl; [|lia].
  rewrite map_app, List.filter_app, length_app. simpl.
  destruct (high_rank (f x)); simpl; lia.
Qed.

Lemma keep_bound_if (c : bool) (l1 l2 : list A) (n : nat) :
  (length (List.filter high_rank (map f l1)) <= n)%nat ->
  (length (List.filter high_rank (map f l2)) <= n)%nat ->
  (length (List.filter high_rank (map f (if c then l1 else l2))) <= n)%nat.
Proof. destruct c; auto. Qed.

End HighEntries.

Ltac bound_high_entries :=
  repeat first
    [ apply keep_bound_low; [reflexivity|]
    | apply keep_bound_high
    | apply keep_bound_if
    | match goal with
      | |- context [?l ++ [?x]] => change (l ++ [x]) with (push_if true x l)
      end ];
  simpl; lia.

Lemma accessibility_high_entries (html : string) :
  (length (List.filter high_rank (map top_of_accessibility (accessibility_issues html))) <= 3)%nat.
Proof. unfold accessibility_issues. cbv zeta. bound_high_entries. Qed.

Lemma security_high_entries (response : Response) (html : string) :
  (length (List.filter high_rank (map top_of_security (security_issues response html))) <= 3)%nat.
Proof. unfold security_issues, header_issues. cbv zeta. bound_high_entries. Qed.

Lemma pipeline_security_issues (url : string) (w : World) :
  exists s l, security (performScan url w) = Some s /\ sec_issues s = Some l
    /\ (length (List.filter high_rank (map top_of_security l)) <= 3)%nat.
Proof.
  rewrite performScan_security.
  unfold performSecurityScan_try, bind.
  destruct (w_fetch_security w) as [response|e];
    [destruct (resp_text response) as [html|e]|]; cbn [catch_with];
    eexists; eexists; (split; [reflexivity|]); (split; [reflexivity|]).
  - apply security_high_entries.
  - simpl. lia.
  - simpl. lia.
Qed.

Lemma pipeline_accessibility_issues (url : string) (w : World) :
  exists s l, accessibility (performScan url w) = Some s /\ acc_issues s = Some l
    /\ (length (List.filter high_rank (map top_of_accessibility l)) <= 3)%nat.
Proof.
  rewrite performScan_accessibility.
  unfold performAccessibilityScan_try, bind.
  destruct (w_fetch_accessibility w) as [response|e];
    [destruct (resp_text response) as [html|e]|]; cbn [catch_with];
    eexists; eexists; (split; [reflexivity|]); (split; [reflexivity|]).
  - apply accessibility_high_entries.
  - simpl. lia.
  - simpl. lia.
Qed.

Lemma failed_performance_has_no_weight (r : PipelineResults) (p : PerformanceSection) :
  performance r = Some p -> perf_status p = Some failed ->
  calculateOverallScore r = calculateOverallScore (without_performance r).
Proof.
  intros Hp Hst. unfold calculateOverallScore, without_performance.
  cbn [security performance accessibility e2e api].
  rewrite Hp, Hst. reflexivity.
Qed.

(** C10. Whenever the performance section carries a score below 50, the
    high-severity poor-performance entry is part of the top issues of the
    scan, whatever the status of the section. In particular a performance
    analyzer that failed in its own handler reports the score 0 with the
    status failed: its entry is listed although the section weighs nothing
    in the overall score. *)
Theorem poor_performance_entry_ignores_status (url : string) (w : World)
    (p : PerformanceSection) (score : Z) :
  performance (performScan url w) = Some p ->
  perf_score p = Some score ->
  score < 50 ->
  In (poor_performance score) (extractTopIssues (performScan url w))
  /\ ti_severity (poor_performance score) = "high"
  /\ (forall e, thrown_inside Performance url w = Some e ->
        perf_status p = Some failed /\ score = 0
        /\ calculateOverallScore (performScan url w) =
             calculateOverallScore (without_performance (performScan url w))).
Proof.
  intros Hp Hscore Hlow. split; [|split].
  - destruct (pipeline_security_issues url w) as (s & ls & Hs & Hls & Hsh).
    destruct (pipeline_accessibility_issues url w) as (a & la & Ha & Hla & Hah).
    unfold extractTopIssues, collected_issues.
    rewrite Hs, Hls, Ha, Hla, Hp, Hscore. unfold push_if.
    replace (score <? 50) with true by (symmetry; apply Z.ltb_lt; exact Hlow).
    apply last_high_entry_kept; [reflexivity|].
    simpl. rewrite List.filter_app, length_app. lia.
  - reflexivity.
  - intros e He. simpl in He. apply thrown_Some in He.
    rewrite performScan_performance, He in Hp. simpl in Hp. injection Hp as <-.
    simpl in Hscore. injection Hscore as <-. split; [reflexivity|]. split; [reflexivity|].
    apply (failed_performance_has_no_weight _
             (perf_failed (error_message e "Performance scan failed"))).
    + rewrite performScan_performance, He. reflexivity.
    + reflexivity.
Qed.

Lemma poor_performance_entry_ignores_status_witness :
  In (poor_performance 0) (extractTopIssues (performScan "https://example.com" offline))
  /\ ti_severity (poor_performance 0) = "high".
Proof.
  destruct (poor_performance_entry_ignores_status "https://example.com" offline
              (perf_failed "network unreachable") 0 eq_refl eq_refl eq_refl) as (H1 & H2 & _).
  split; assumption.
Defined.

(** ** The aggregate score of the specification *)

Lemma pipeline_checks_defined (url : string) (w : World) :
  checks_defined (performScan url w).
Proof.
  intros s. rewrite performScan_security. intros [= <-].
  destruct (performSecurityScan_try url w) as [s|e] eqn:E; cbn [catch_with].
  - intros _. destruct (security_try_shape _ _ _ E) as (? & _ & Hp & _).
    exists 7. split; [exact Hp | discriminate].
  - discriminate.
Qed.

(** ** Conditional pushes *)

Lemma length_push_if {A} (c : bool) (x : A) (l : list A) :
  length (push_if c x l) = (length l + b2n c)%nat.
Proof. unfold push_if. destruct c; [rewrite length_app|]; simpl; lia. Qed.

Lemma In_push_if {A} (c : bool) (x y : A) (l : list A) :
  In y (push_if c x l) <-> In y l \/ (c = true /\ y = x).
Proof.
  unfold push_if. destruct c.
  - rewrite in_app_iff. simpl. intuition congruence.
  - intuition congruence.
Qed.

Lemma b2n_le (c : bool) : (b2n c <= 1)%nat.
Proof. destruct c; simpl; lia. Qed.

Ltac bound_b2n :=
  repeat match goal with
         | |- context [b2n ?c] =>
             let n := fresh "n" in
             let Hn := fresh "Hn" in
             pose proof (b2n_le c) as Hn; set (n := b2n c) in *; clearbody n
         end.

Ltac split_conditions :=
  repeat match goal with
         | |- context [if ?c then _ else _] => destruct c
         end.

(** The results of the patterns on [html], taken as unknowns. *)
Ltac abstract_page html :=
  repeat match goal with
         | |- context [match_all ?ci ?r html] => generalize (match_all ci r html); intro
         | |- context [test ?ci ?r html] => generalize (test ci r html); intro
         end.

Ltac abstract_headers response :=
  repeat match goal with
         | |- context [headers_get ?n response] => generalize (headers_get n response); intro
         end.

(** ** The rate limiter over any sequence of attempts *)

Lemma rate_limit_check_other (now : Z) (domain other : string) (rl : gmap string RateLimitRow) :
  other <> domain -> snd (rate_limit_check now domain rl) !! other = rl !! other.
Proof.
  intros Hne. unfold rate_limit_check.
  destruct (rl !! domain) as [row|];
    [destruct ((now - 60 * 60 * 1000 <? window_start row) && (5 <=? scan_count row))|];
    cbn [snd]; try reflexivity; apply lookup_insert_ne; congruence.
Qed.

Lemma allowed_count_cons (a : Admission) (l : list Admission) :
  allowed_count (a :: l) = (if is_allowed a then 1 else 0) + allowed_count l.
Proof. unfold allowed_count, len. simpl. destruct (is_allowed a); simpl length; lia. Qed.

Lemma allowed_count_range (l : list Admission) : 0 <= allowed_count l <= len l.
Proof.
  induction l as [|a l IH]; [unfold allowed_count, len; simpl; lia|].
  rewrite allowed_count_cons. unfold len in *. simpl length. destruct (is_allowed a); lia.
Qed.

(** X1. Attempts for one domain never touch the rows of the other domains:
    whatever the instants, the row of any other domain, present or absent,
    is the same after the attempts as before. *)
Theorem rate_limit_other_domains_untouched (domain other : string) (instants : list Z)
    (rl : gmap string RateLimitRow) :
  other <> domain ->
  snd (rate_limit_checks domain instants rl) !! other = rl !! other.
Proof.
  intros Hne. revert rl. induction instants as [|now rest IH]; intros rl; [reflexivity|].
  rewrite rate_limit_checks_cons. cbn [snd]. rewrite IH.
  apply rate_limit_check_other. exact Hne.
Qed.

Lemma rate_limit_other_domains_untouched_witness :
  snd (rate_limit_checks "example.com" [0; 1; 2] {[ "example.org" :=
         {| scan_count := 4; window_start := 0; last_scan_at := 0 |} ]}) !! "example.org"
  = Some {| scan_count := 4; window_start := 0; last_scan_at := 0 |}.
Proof.
  rewrite (rate_limit_other_domains_untouched "example.com" "example.org");
    [apply lookup_singleton_eq | discriminate].
Defined.

Lemma allowed_count_snoc (l : list Admission) (a : Admission) :
  allowed_count (l ++ [a]) = allowed_count l + (if is_allowed a then 1 else 0).
Proof.
  unfold allowed_count, len. rewrite List.filter_app, length_app. cbn [List.filter].
  destruct (is_allowed a); cbn [length]; lia.
Qed.

Lemma rate_limit_check_two_calls (now : Z) (domain : string) (rl : gmap string RateLimitRow) :
  rate_limit_check now domain rl =
    (rate_limit_decision now (rl !! domain),
     match rate_limit_decision now (rl !! domain) with
     | Allowed => rate_limit_write now domain (rl !! domain) rl
     | RateLimitExceeded => rl
     end).
Proof.
  unfold rate_limit_check, rate_limit_decision, rate_limit_write.
  destruct (rl !! domain) as [row|] eqn:Hrow; [|reflexivity].
  cbv zeta. destruct ((now - 60 * 60 * 1000 <? window_start row) && (5 <=? scan_count row));
    [reflexivity|].
  f_equal. apply map_eq. intros j. destruct (decide (j = domain)) as [->|Hne].
  - rewrite lookup_insert_eq, lookup_alter_eq, Hrow. reflexivity.
  - rewrite lookup_insert_ne, lookup_alter_ne by congruence. reflexivity.
Qed.

Lemma one_by_one_run (domain : string) (instants : list Z) (st : RateLimitRun) :
  run_table (fold_left (rate_limit_event domain) (one_by_one instants) st)
    = snd (rate_limit_checks domain instants (run_table st))
  /\ run_decisions (fold_left (rate_limit_event domain) (one_by_one instants) st)
    = run_decisions st ++ fst (rate_limit_checks domain instants (run_table st)).
Proof.
  revert st. induction instants as [|now rest IH]; intros st.
  - cbn. rewrite app_nil_r. auto.
  - rewrite rate_limit_checks_cons. cbn [fst snd one_by_one flat_map app fold_left].
    fold (one_by_one rest).
    rewrite rate_limit_check_two_calls. cbn [fst snd].
    cbn [rate_limit_event run_seen run_table run_decisions].
    rewrite lookup_insert_eq.
    destruct (rate_limit_decision now (run_table st !! domain));
      match goal with
      | |- context [fold_left _ (one_by_one rest) ?st1] => destruct (IH st1) as [H1 H2]
      end; rewrite H1, H2; cbn [run_table run_decisions]; rewrite <- app_assoc; auto.
Qed.

Lemma one_by_one_is_rate_limit_checks (domain : string) (instants : list Z)
    (rl : gmap string RateLimitRow) :
  run_decisions (rate_limit_run domain (one_by_one instants) rl)
    = fst (rate_limit_checks domain instants rl)
  /\ run_table (rate_limit_run domain (one_by_one instants) rl)
    = snd (rate_limit_checks domain instants rl).
Proof.
  unfold rate_limit_run.
  destruct (one_by_one_run domain instants
              {| run_table := rl; run_seen := ∅; run_decisions := [] |}) as [H1 H2].
  split; [exact H2 | exact H1].
Qed.

(** Whatever the order of the reads and writes, an event keeps the row of
    the domain and its [window_start]. *)
Lemma rate_limit_event_window (domain : string) (st : RateLimitRun) (ev : RateLimitEvent)
    (row : RateLimitRow) :
  run_table st !! domain = Some row ->
  exists row', run_table (rate_limit_event domain st ev) !! domain = Some row'
    /\ window_start row' = window_start row.
Proof.
  intros Hrow. destruct ev as [a|a now]; cbn [rate_limit_event].
  - exists row. auto.
  - destruct (run_seen st !! a) as [seen|]; [|exists row; auto].
    destruct (rate_limit_decision now seen); cbn [run_table]; [|exists row; auto].
    unfold rate_limit_write. destruct seen as [rateLimit|].
    + rewrite lookup_alter_eq, Hrow. cbn. eexists. split; reflexivity.
    + rewrite Hrow. exists row. auto.
Qed.

Lemma rate_limit_run_window (domain : string) (events : list RateLimitEvent) (st : RateLimitRun)
    (row : RateLimitRow) :
  run_table st !! domain = Some row ->
  exists row', run_table (fold_left (rate_limit_event domain) events st) !! domain = Some row'
    /\ window_start row' = window_start row.
Proof.
  revert st row. induction events as [|ev events IH]; intros st row Hrow.
  - exists row. auto.
  - cbn [fold_left].
    destruct (rate_limit_event_window domain st ev row Hrow) as (row1 & H1 & Hw1).
    destruct (IH _ row1 H1) as (row' & H' & Hw'). exists row'. split; [exact H'|congruence].
Qed.

(** Two overlapping attempts on a row that has one admission left are both
    admitted, and the row counts one scan more, not two. *)
Example overlapping_attempts_are_both_allowed :
  let rl : gmap string RateLimitRow :=
    {[ "example.com" := {| scan_count := 4; window_start := 0; last_scan_at := 900 |} ]} in
  run_decisions (rate_limit_run "example.com" (two_at_once 1000 1001) rl) = [Allowed; Allowed]
  /\ run_table (rate_limit_run "example.com" (two_at_once 1000 1001) rl) !! "example.com"
     = Some {| scan_count := 5; window_start := 0; last_scan_at := 1001 |}
  /\ fst (rate_limit_checks "example.com" [1000; 1001] rl) = [Allowed; RateLimitExceeded].
Proof. vm_compute. auto. Qed.

Lemma rate_limit_event_kept (domain : string) (row : RateLimitRow) (st : RateLimitRun)
    (ev : RateLimitEvent) :
  run_kept domain row st -> run_kept domain row (rate_limit_event domain st ev).
Proof.
  intros [(row' & Hrow & Hw & Hc) Hseen]. destruct ev as [a|a now]; cbn [rate_limit_event].
  - split; cbn [run_table run_seen run_decisions]; [eauto|].
    intros attempt seen. destruct (decide (attempt = a)) as [->|Hne].
    + rewrite lookup_insert_eq. intros [= <-]. eauto.
    + rewrite lookup_insert_ne by congruence. apply Hseen.
  - destruct (run_seen st !! a) as [seen|] eqn:Ha; [|split; eauto].
    destruct (Hseen a seen Ha) as (rateLimit & -> & Hr).
    assert (Hrest : forall attempt seen, delete a (run_seen st) !! attempt = Some seen ->
              run_seen st !! attempt = Some seen).
    { intros attempt seen. destruct (decide (attempt = a)) as [->|Hne].
      - rewrite lookup_delete_eq. discriminate.
      - rewrite lookup_delete_ne by congruence. auto. }
    destruct (rate_limit_decision now (Some rateLimit));
      split; cbn [run_table run_seen run_decisions]; rewrite ?allowed_count_snoc; cbn [is_allowed].
    + unfold rate_limit_write. rewrite lookup_alter_eq, Hrow. cbn.
      eexists. split; [reflexivity|]. cbn [window_start scan_count]. split; [exact Hw|lia].
    + intros attempt seen Hs. destruct (Hseen attempt seen (Hrest _ _ Hs)) as (r & -> & Hr').
      exists r. split; [reflexivity|lia].
    + exists row'. repeat split; auto; lia.
    + intros attempt seen Hs. destruct (Hseen attempt seen (Hrest _ _ Hs)) as (r & -> & Hr').
      exists r. split; [reflexivity|lia].
Qed.

Lemma rate_limit_run_kept (domain : string) (row : RateLimitRow) (events : list RateLimitEvent)
    (st : RateLimitRun) :
  run_kept domain row st -> run_kept domain row (fold_left (rate_limit_event domain) events st).
Proof.
  revert st. induction events as [|ev events IH]; intros st H; [exact H|].
  cbn [fold_left]. apply IH, rate_limit_event_kept, H.
Qed.

Lemma rate_limit_serial_count (domain : string) (instants : list Z)
    (rl : gmap string RateLimitRow) (row : RateLimitRow) :
  rl !! domain = Some row ->
  exists row',
    snd (rate_limit_checks domain instants rl) !! domain = Some row'
    /\ window_start row' = window_start row
    /\ scan_count row' =
         scan_count row + allowed_count (fst (rate_limit_checks domain instants rl)).
Proof.
  revert rl row. induction instants as [|now rest IH]; intros rl row Hrow.
  - exists row. cbn. split; [exact Hrow|]. split; [reflexivity|]. unfold allowed_count, len. simpl. lia.
  - rewrite rate_limit_checks_cons. cbn [fst snd]. rewrite allowed_count_cons.
    destruct (Z.ltb_spec (now - 3600000) (window_start row)) as [Hw|Hw];
      [destruct (Z.leb_spec 5 (scan_count row)) as [Hc|Hc]|].
    + rewrite (rate_limit_rejects domain rl now row Hrow Hw Hc). cbn [fst snd is_allowed].
      destruct (IH rl row Hrow) as (row' & H1 & H2 & H3). exists row'. repeat split; auto; lia.
    + rewrite (rate_limit_increments domain rl now row Hrow) by (unfold in_window; lia).
      cbn [fst snd is_allowed].
      edestruct IH as (row' & H1 & H2 & H3); [apply lookup_insert_eq|].
      exists row'. split; [exact H1|]. cbn [window_start scan_count] in *. split; [exact H2|lia].
    + rewrite (rate_limit_increments domain rl now row Hrow) by (unfold in_window; lia).
      cbn [fst snd is_allowed].
      edestruct IH as (row' & H1 & H2 & H3); [apply lookup_insert_eq|].
      exists row'. split; [exact H1|]. cbn [window_start scan_count] in *. split; [exact H2|lia].
Qed.

(** X2. The window of a domain never restarts. Once a domain has a row,
    every sequence of reads and writes of admission attempts, overlapping
    or not, leaves its [window_start] as it was, and its [scan_count]
    between the old count and the old count plus the number of attempts
    admitted. When the attempts do not overlap the count is exactly the
    old count plus the number of attempts admitted: it is never reset. *)
Theorem rate_limit_window_never_restarts (domain : string) (events : list RateLimitEvent)
    (instants : list Z) (rl : gmap string RateLimitRow) (row : RateLimitRow) :
  rl !! domain = Some row ->
  (exists row',
     run_table (rate_limit_run domain events rl) !! domain = Some row'
     /\ window_start row' = window_start row
     /\ scan_count row <= scan_count row'
          <= scan_count row + allowed_count (run_decisions (rate_limit_run domain events rl)))
  /\ (exists row',
        run_table (rate_limit_run domain (one_by_one instants) rl) !! domain = Some row'
        /\ window_start row' = window_start row
        /\ scan_count row' =
             scan_count row
             + allowed_count (run_decisions (rate_limit_run domain (one_by_one instants) rl))).
Proof.
  intros Hrow. split.
  - apply (rate_limit_run_kept domain row events). split; cbn [run_table run_seen run_decisions].
    + exists row. repeat split; auto; unfold allowed_count, len; cbn; lia.
    + intros attempt seen H. rewrite lookup_empty in H. discriminate.
  - destruct (one_by_one_is_rate_limit_checks domain instants rl) as [-> ->].
    apply rate_limit_serial_count, Hrow.
Qed.

Lemma rate_limit_window_never_restarts_witness :
  (exists row',
     run_table (rate_limit_run "example.com" (two_at_once 3600001 3600002)
                  {[ "example.com" := {| scan_count := 5; window_start := 0; last_scan_at := 4 |} ]})
       !! "example.com" = Some row'
     /\ window_start row' = 0
     /\ 5 <= scan_count row' <= 7)
  /\ (exists row',
        run_table (rate_limit_run "example.com" (one_by_one [3600001; 7200001])
                     {[ "example.com" := {| scan_count := 5; window_start := 0; last_scan_at := 4 |} ]})
          !! "example.com" = Some row'
        /\ window_start row' = 0
        /\ scan_count row' = 7).
Proof.
  destruct (rate_limit_window_never_restarts "example.com" (two_at_once 3600001 3600002)
              [3600001; 7200001]
              {[ "example.com" := {| scan_count := 5; window_start := 0; last_scan_at := 4 |} ]}
              {| scan_count := 5; window_start := 0; last_scan_at := 4 |}
              (lookup_singleton_eq _ _)) as [(row1 & H1 & Hw1 & Hc1) (row2 & H2 & Hw2 & Hc2)].
  split.
  - exists row1. split; [exact H1|]. split; [exact Hw1|]. exact Hc1.
  - exists row2. split; [exact H2|]. split; [exact Hw2|]. rewrite Hc2. reflexivity.
Defined.

Lemma rate_limit_in_window_count (domain : string) (instants : list Z)
    (rl : gmap string RateLimitRow) (row : RateLimitRow) :
  rl !! domain = Some row ->
  Forall (fun now => now - 3600000 < window_start row) instants ->
  allowed_count (fst (rate_limit_checks domain instants rl))
  = Z.min (len instants) (Z.max 0 (5 - scan_count row)).
Proof.
  revert rl row. induction instants as [|now rest IH]; intros rl row Hrow Hall.
  - unfold allowed_count, len. simpl. lia.
  - inversion Hall as [|? ? Hnow Hrest]; subst.
    rewrite rate_limit_checks_cons. cbn [fst]. rewrite allowed_count_cons.
    replace (len (now :: rest)) with (1 + len rest) by (unfold len; simpl length; lia).
    destruct (Z.leb_spec 5 (scan_count row)) as [Hc|Hc].
    + rewrite (rate_limit_rejects domain rl now row Hrow Hnow Hc). cbn [fst snd is_allowed].
      rewrite (IH rl row Hrow Hrest). unfold len. lia.
    + rewrite (rate_limit_increments domain rl now row Hrow) by (unfold in_window; lia).
      cbn [fst snd is_allowed].
      erewrite IH; [|apply lookup_insert_eq|exact Hrest].
      cbn [scan_count]. unfold len. lia.
Qed.

(** X3. The limit holds inside a window for attempts that do not overlap.
    For a domain without a row, a first attempt at [t] followed by attempts
    made less than 60 minutes after [t], each one over before the next one
    starts, admits the first five attempts and no more: the number of
    admitted attempts is the smaller of 5 and the number of attempts.
    (Attempts that overlap escape the limit, as
    [overlapping_attempts_are_both_allowed] shows.) *)
Theorem rate_limit_five_per_window (domain : string) (t : Z) (instants : list Z)
    (rl : gmap string RateLimitRow) :
  rl !! domain = None ->
  Forall (fun now => now - 3600000 < t) instants ->
  allowed_count (run_decisions (rate_limit_run domain (one_by_one (t :: instants)) rl))
  = Z.min 5 (1 + len instants).
Proof.
  intros Hnone Hall.
  destruct (one_by_one_is_rate_limit_checks domain (t :: instants) rl) as [-> _].
  rewrite rate_limit_checks_cons. cbn [fst].
  rewrite (rate_limit_creates domain rl t Hnone). cbn [fst snd].
  rewrite allowed_count_cons. cbn [is_allowed].
  erewrite rate_limit_in_window_count; [|apply lookup_insert_eq|exact Hall].
  cbn [scan_count]. unfold len. lia.
Qed.

Lemma rate_limit_five_per_window_witness :
  allowed_count
    (run_decisions (rate_limit_run "example.com"
                      (one_by_one [0; 10; 20; 30; 40; 50; 3599999]) ∅)) = 5.
Proof.
  rewrite (rate_limit_five_per_window "example.com" 0 [10; 20; 30; 40; 50; 3599999] ∅).
  - reflexivity.
  - apply lookup_empty.
  - repeat constructor.
Defined.

(** X4. After the window no attempt is refused. For a domain whose row
    started 60 minutes ago or more, every attempt is admitted, however many
    follow each other and whatever the count of the row. *)
Theorem rate_limit_unlimited_after_window (domain : string) (instants : list Z)
    (rl : gmap string RateLimitRow) (row : RateLimitRow) :
  rl !! domain = Some row ->
  Forall (fun now => window_start row <= now - 3600000) instants ->
  fst (rate_limit_checks domain instants rl) = repeat Allowed (length instants).
Proof.
  revert rl row. induction instants as [|now rest IH]; intros rl row Hrow Hall; [reflexivity|].
  inversion Hall as [|? ? Hnow Hrest]; subst.
  rewrite rate_limit_checks_cons. cbn [fst].
  rewrite (rate_limit_stale_window domain rl now row Hrow Hnow). cbn [fst snd].
  erewrite IH; [reflexivity|apply lookup_insert_eq|exact Hrest].
Qed.

Lemma rate_limit_unlimited_after_window_witness :
  fst (rate_limit_checks "example.com" [3600000; 3600001; 3600002]
         {[ "example.com" := {| scan_count := 5; window_start := 0; last_scan_at := 4 |} ]})
  = [Allowed; Allowed; Allowed].
Proof.
  apply (rate_limit_unlimited_after_window "example.com" [3600000; 3600001; 3600002] _
           {| scan_count := 5; window_start := 0; last_scan_at := 4 |}).
  - apply lookup_singleton_eq.
  - repeat (constructor; [cbn; lia|]). constructor.
Defined.

(** ** The orchestrator and the two tables *)

Lemma with_status_twice (st st' : ScanStatus) (row : ScanRow) :
  with_status st (with_status st' row) = with_status st row.
Proof. reflexivity. Qed.


(** X5. A run of [processScan] writes to the row of its own scan only: the
    row of any other scan, present or absent, is the same after the run as
    before. *)
Theorem processScan_touches_one_scan (scanId url other : string) (env : Env) (db : DB) :
  other <> scanId ->
  scan_results (snd (processScan scanId url env db)) !! other = scan_results db !! other.
Proof.
  intros Hne. unfold processScan.
  destruct (env_hostname env) as [domain|e]; cbn [snd update_scan scan_results].
  - simpl rate_limits.
    destruct (rate_limit_check (env_now env) domain (rate_limits db)) as [[|] rl];
      [destruct (env_update_error env)|]; cbn [snd update_scan scan_results with_rate_limits];
      rewrite !lookup_alter_ne by congruence; reflexivity.
  - rewrite !lookup_alter_ne by congruence. reflexivity.
Qed.

Lemma processScan_touches_one_scan_witness :
  scan_results (snd (processScan "scan-2" "https://example.com" (sample_env offline) sample_db))
    !! "scan-1" = Some new_row.
Proof.
  rewrite (processScan_touches_one_scan "scan-2" "https://example.com" "scan-1");
    [reflexivity | discriminate].
Defined.



(** X7. A scan that is not refused and whose final write reports an error
    has still used one admission of its domain. Whatever the row of the
    domain was (none, one inside its window with a count below 5, or one
    whose window is over), the rate-limit table after the run is the table
    the admission step left: the row of the domain counts one scan more
    than before the run, or is a new row with count 1 when there was none.
    (The run is taken on its own: no write of another scan of the domain
    comes between its admission and its end.) *)
Theorem failed_write_uses_an_admission (scanId url : string) (env : Env) (db : DB)
    (domain : string) (e : Thrown) :
  env_hostname env = Ret domain ->
  env_update_error env = Some e ->
  fst (processScan scanId url env db) <> Answered429 ->
  rate_limits (snd (processScan scanId url env db))
    = snd (rate_limit_check (env_now env) domain (rate_limits db))
  /\ rate_limits (snd (processScan scanId url env db)) !! domain =
       Some {| scan_count := match rate_limits db !! domain with
                             | Some quota => scan_count quota + 1
                             | None => 1
                             end;
               window_start := match rate_limits db !! domain with
                               | Some quota => window_start quota
                               | None => env_now env
                               end;
               last_scan_at := env_now env |}.
Proof.
  intros Hhost Herr. unfold processScan. rewrite Hhost, Herr. simpl rate_limits.
  unfold rate_limit_check.
  destruct (rate_limits db !! domain) as [quota|];
    [destruct ((env_now env - 60 * 60 * 1000 <? window_start quota) && (5 <=? scan_count quota))|];
    cbn [fst snd update_scan rate_limits with_rate_limits]; intros Hout;
    try (exfalso; apply Hout; reflexivity);
    rewrite lookup_insert_eq; split; reflexivity.
Qed.

Lemma failed_write_uses_an_admission_witness :
  rate_limits (snd (processScan "scan-1" "https://example.com" (failing_write_env offline)
                      sample_db)) !! "example.com"
  = Some {| scan_count := 1; window_start := 1000; last_scan_at := 1000 |}.
Proof.
  apply (failed_write_uses_an_admission "scan-1" "https://example.com" (failing_write_env offline)
           sample_db "example.com" (ErrorObj "row too large"));
    [reflexivity | reflexivity | discriminate].
Defined.

(** X8. A run that does not get past admission leaves the rate-limit table
    as it was: this holds when the host name of the URL cannot be read and
    when the attempt is refused. *)
Theorem scan_stopped_early_keeps_rate_limits (scanId url : string) (env : Env) (db : DB) :
  (exists e, env_hostname env = Throw e) \/ fst (processScan scanId url env db) = Answered429 ->
  rate_limits (snd (processScan scanId url env db)) = rate_limits db.
Proof.
  unfold processScan. intros [[e He]|H].
  - rewrite He. reflexivity.
  - destruct (env_hostname env) as [domain|e]; [|reflexivity].
    simpl rate_limits in *.
    destruct (rate_limit_check (env_now env) domain (rate_limits db)) as [[|] rl];
      [destruct (env_update_error env); discriminate H|reflexivity].
Qed.

Lemma scan_stopped_early_keeps_rate_limits_witness :
  rate_limits (snd (processScan "scan-1" "not a url"
                      {| env_now := 1000; env_hostname := Throw (ErrorObj "Invalid URL");
                         env_world := offline; env_og_image := None; env_ai := Ret (None, []);
                         env_date := "1/1/2026, 12:00:00 AM"; env_pdf_throws := false;
                         env_update_error := None |} busy_db))
  = rate_limits busy_db.
Proof.
  apply scan_stopped_early_keeps_rate_limits. left. eexists. reflexivity.
Defined.

(** ** The ranges of the metrics *)

Lemma security_issues_at_most_six (response : Response) (html : string) :
  len (security_issues response html) <= 6.
Proof.
  unfold security_issues, header_issues, len.
  repeat rewrite length_push_if. cbn [length]. bound_b2n. lia.
Qed.

(** X9. A completed security section lists at most six issues, so it
    reports between 1 and 7 checks passed out of 7: however bare the
    answer, the analyzer never reports 0 checks passed. *)
Theorem security_scan_passes_one_to_seven (url : string) (w : World) (s : SecuritySection) :
  performSecurityScan url w = Ret s ->
  sec_status s = Some completed ->
  exists issues passed,
    sec_issues s = Some issues /\ sec_checks_passed s = Some passed
    /\ len issues <= 6 /\ passed = 7 - len issues /\ 1 <= passed <= 7.
Proof.
  unfold performSecurityScan, performSecurityScan_try, bind, try_catch.
  destruct (w_fetch_security w) as [response|e];
    [destruct (resp_text response) as [html|e]|]; intros [= <-]; cbn; try discriminate.
  intros _. pose proof (security_issues_at_most_six response html).
  assert (0 <= len (security_issues response html)) by (unfold len; lia).
  eexists _, _. split; [reflexivity|]. split; [reflexivity|]. lia.
Qed.

Lemma security_scan_passes_one_to_seven_witness :
  exists s issues passed,
    performSecurityScan "https://example.com"
      (uniform_world (Ret (bare_page page_three_images))) = Ret s
    /\ sec_issues s = Some issues
    /\ passed = 7 - len issues /\ 1 <= passed <= 7.
Proof.
  eexists. 
  destruct (security_scan_passes_one_to_seven "https://example.com"
              (uniform_world (Ret (bare_page page_three_images))) _ eq_refl eq_refl)
    as (issues & passed & H1 & _ & _ & H4 & H5).
  exists issues, passed. split; [reflexivity|]. split; [exact H1|]. split; assumption.
Defined.

(** X10. The clickjacking issue never comes alone: whenever the security
    analyzer reports the missing X-Frame-Options/CSP issue it also reports
    the missing Content-Security-Policy issue, so an answer without both
    headers loses two of the seven checks. *)
Theorem frame_issue_implies_csp_issue (response : Response) (html : string) :
  In issue_frame (security_issues response html) ->
  In issue_csp (security_issues response html).
Proof.
  unfold security_issues, header_issues. rewrite !In_push_if. cbn [In].
  intros H.
  repeat match type of H with
         | _ \/ _ => destruct H as [H|[Hc Hx]]; [|try discriminate Hx]
         end; [destruct H|].
  apply andb_prop in Hc as [_ Hc]. left. left. right. split; [exact Hc|reflexivity].
Qed.

Lemma frame_issue_implies_csp_issue_witness :
  In issue_csp (security_issues (bare_page page_three_images) page_three_images).
Proof.
  apply frame_issue_implies_csp_issue. vm_compute. auto.
Defined.

Section Deductions.

Let pts (issue : AccessibilityIssue) : Z := num_or (severityPoints (ai_severity issue)) 10.
Let blocking (issue : AccessibilityIssue) : bool :=
  String.eqb (ai_severity issue) "critical" || String.eqb (ai_severity issue) "high".

Lemma fold_deduction (issues : list AccessibilityIssue) (acc : Z) :
  fold_left (fun sum issue => sum + num_or (severityPoints (ai_severity issue)) 10) issues acc
  = acc + totalDeduction issues.
Proof.
  unfold totalDeduction. revert acc. induction issues as [|i issues IH]; intros acc.
  - simpl. lia.
  - cbn [fold_left]. rewrite IH, (IH (0 + _)). lia.
Qed.

Lemma totalDeduction_app (l : list AccessibilityIssue) (x : AccessibilityIssue) :
  totalDeduction (l ++ [x]) = totalDeduction l + pts x.
Proof. unfold totalDeduction at 1. rewrite fold_left_app. cbn [fold_left]. reflexivity. Qed.

Lemma totalDeduction_push_if (c : bool) (x : AccessibilityIssue) (l : list AccessibilityIssue) :
  totalDeduction (push_if c x l) = totalDeduction l + (if c then pts x else 0).
Proof. unfold push_if. destruct c; [apply totalDeduction_app|lia]. Qed.

Lemma has_blocking_issue_app (l : list AccessibilityIssue) (x : AccessibilityIssue) :
  has_blocking_issue (l ++ [x]) = has_blocking_issue l || blocking x.
Proof. unfold has_blocking_issue. rewrite existsb_app. simpl. rewrite orb_false_r. reflexivity. Qed.

Lemma has_blocking_issue_push_if (c : bool) (x : AccessibilityIssue)
    (l : list AccessibilityIssue) :
  has_blocking_issue (push_if c x l) = has_blocking_issue l || (c && blocking x).
Proof.
  unfold push_if. destruct c; [apply has_blocking_issue_app|].
  rewrite orb_false_r. reflexivity.
Qed.

Lemma totalDeduction_at_least (issues : list AccessibilityIssue) :
  3 * len issues <= totalDeduction issues.
Proof.
  induction issues as [|i issues IH] using rev_ind; [reflexivity|].
  rewrite totalDeduction_app. unfold len in *. rewrite length_app. simpl length.
  assert (3 <= pts i); [|lia].
  unfold pts, severityPoints.
  repeat match goal with |- context [if ?c then _ else _] => destruct c end; simpl; lia.
Qed.

End Deductions.

Ltac abstract_conditions :=
  repeat match goal with
         | |- context [push_if ?c _ _] =>
             lazymatch c with
             | context [_ <? _] => generalize c; intro
             | context [_ =? _] => generalize c; intro
             | context [negb _] => generalize c; intro
             end
         end.

Lemma accessibility_issues_at_most_eight (html : string) : len (accessibility_issues html) <= 8.
Proof.
  unfold accessibility_issues, len.
  abstract_page html.
  repeat match goal with
         | |- context [if ?c then _ else _] => destruct c
         end;
    repeat first [rewrite length_app | rewrite length_push_if]; cbn [length];
    bound_b2n; lia.
Qed.

(** X11. A completed accessibility section lists at most eight issues,
    [total_issues] is their number, and the score lies between 0 and 100.
    Every issue costs at least 3 points, so the score is 100 exactly when
    no issue is listed. *)
Theorem accessibility_score_in_range (w : World) (s : AccessibilitySection) :
  performAccessibilityScan w = Ret s ->
  acc_status s = Some completed ->
  exists issues score,
    acc_issues s = Some issues /\ acc_total_issues s = Some (len issues)
    /\ acc_score s = Some score
    /\ len issues <= 8
    /\ 0 <= score <= 100 - 3 * len issues
    /\ (score = 100 <-> issues = []).
Proof.
  unfold performAccessibilityScan, performAccessibilityScan_try, bind, try_catch.
  destruct (w_fetch_accessibility w) as [response|e];
    [destruct (resp_text response) as [html|e]|]; intros [= <-];
    cbn [acc_status accessibility_section acc_failed]; try discriminate.
  intros _. exists (accessibility_issues html). eexists.
  cbn [acc_issues acc_total_issues acc_score accessibility_section].
  split; [reflexivity|]. split; [reflexivity|]. split; [reflexivity|].
  pose proof (accessibility_issues_at_most_eight html) as H8.
  pose proof (totalDeduction_at_least (accessibility_issues html)) as Hd.
  assert (0 <= len (accessibility_issues html)) by (unfold len; lia).
  split; [exact H8|]. split; [lia|]. split.
  - intros Hs. destruct (accessibility_issues html) as [|i l]; [reflexivity|].
    unfold len in *. simpl length in *. lia.
  - intros ->. reflexivity.
Qed.

Lemma accessibility_score_in_range_witness :
  exists s issues score,
    performAccessibilityScan (uniform_world (Ret (bare_page page_one_image))) = Ret s
    /\ acc_issues s = Some issues /\ acc_score s = Some score
    /\ len issues <= 8 /\ 0 <= score <= 100 - 3 * len issues.
Proof.
  eexists.
  destruct (accessibility_score_in_range
              (uniform_world (Ret (bare_page page_one_image))) _ eq_refl eq_refl)
    as (issues & score & H1 & _ & H3 & H4 & H5 & _).
  exists issues, score. split; [reflexivity|]. repeat split; try assumption; apply H5.
Defined.

Ltac bound_ite :=
  repeat match goal with
         | |- context [if ?b then ?k else 0] =>
             let d := fresh "d" in
             let Hd := fresh "Hd" in
             assert (Hd : 0 <= (if b then k else 0) <= k) by (destruct b; lia);
             set (d := if b then k else 0) in *; clearbody d
         end.

Lemma accessibility_level_and_score (html : string) :
  if has_blocking_issue (accessibility_issues html)
  then 15 <= totalDeduction (accessibility_issues html)
  else totalDeduction (accessibility_issues html) <= 19.
Proof.
  unfold accessibility_issues.
  abstract_page html. abstract_conditions.
  repeat match goal with
         | |- context [acc_issue ?s ?c ?m ?w] =>
             let x := fresh "x" in
             let Hx := fresh "Hx" in
             let Hs := fresh "Hs" in
             remember (acc_issue s c m w) as x eqn:Hx;
             assert (Hs : ai_severity x = s) by (rewrite Hx; reflexivity); clear Hx
         end.
  repeat match goal with
         | |- context [if ?c then ?l ++ [?x] else ?r] => destruct c
         end;
    repeat first [rewrite totalDeduction_app | rewrite totalDeduction_push_if
                 | rewrite has_blocking_issue_app | rewrite has_blocking_issue_push_if];
    repeat match goal with H : ai_severity _ = _ |- _ => rewrite ?H; clear H end;
    change (totalDeduction []) with 0; change (has_blocking_issue []) with false;
    repeat match goal with
           | |- context [num_or (severityPoints ?s) 10] =>
               let v := eval vm_compute in (num_or (severityPoints s) 10) in
               change (num_or (severityPoints s) 10) with v
           | |- context [String.eqb ?s ?t] =>
               let v := eval vm_compute in (String.eqb s t) in
               change (String.eqb s t) with v
           end;
    rewrite ?andb_true_r, ?andb_false_r, ?orb_false_r, ?orb_false_l;
    match goal with
    | |- if ?c then _ else _ =>
        destruct c eqn:E;
        [ repeat (apply orb_true_iff in E as [E|E]) | repeat (apply orb_false_iff in E as [E ?]) ]
    end;
    subst; bound_ite; lia.
Qed.

(** X12. The level and the score of a completed accessibility section go
    together: a section that passes Level A has a score of at least 81 (no
    critical or high issue is listed, and the three remaining checks cost 19
    points at most), and a section that fails Level A has a score of at
    most 85. *)
Theorem accessibility_level_bounds_score (w : World) (s : AccessibilitySection) (score : Z) :
  performAccessibilityScan w = Ret s ->
  acc_status s = Some completed ->
  acc_score s = Some score ->
  (acc_wcag_level s = Some "Passes Level A (potential AA issues)" /\ 81 <= score)
  \/ (acc_wcag_level s = Some "Fails Level A" /\ score <= 85).
Proof.
  unfold performAccessibilityScan, performAccessibilityScan_try, bind, try_catch.
  destruct (w_fetch_accessibility w) as [response|e];
    [destruct (resp_text response) as [html|e]|]; intros [= <-];
    cbn [acc_status accessibility_section acc_failed]; try discriminate.
  intros _. cbn [acc_score acc_wcag_level accessibility_section]. intros [= <-].
  pose proof (accessibility_level_and_score html) as H.
  pose proof (totalDeduction_at_least (accessibility_issues html)).
  assert (0 <= len (accessibility_issues html)) by (unfold len; lia).
  destruct (has_blocking_issue (accessibility_issues html)); [right|left];
    (split; [reflexivity|lia]).
Qed.

Lemma accessibility_level_bounds_score_witness :
  exists s score,
    performAccessibilityScan (uniform_world (Ret (bare_page page_one_image))) = Ret s
    /\ acc_score s = Some score
    /\ acc_wcag_level s = Some "Fails Level A" /\ score <= 85.
Proof.
  eexists _, _. split; [reflexivity|]. split; [reflexivity|].
  destruct (accessibility_level_bounds_score
              (uniform_world (Ret (bare_page page_one_image))) _ _ eq_refl eq_refl eq_refl)
    as [[H _]|H]; [discriminate H|exact H].
Defined.

Lemma basic_score_range (c1 c2 c3 c4 c5 c6 c7 : bool) :
  let score := 100 in
  let score := if c1 then score - 30 else if c2 then score - 15 else score in
  let score := if c3 then score - 10 else score in
  let score := if c4 then score - 10 else score in
  let score := if c5 then score - 5 else score in
  let score := if c6 then score - 15 else score in
  let score := if c7 then score - 10 else score in
  20 <= score <= 100.
Proof. destruct c1, c2, c3, c4, c5, c6, c7; cbv zeta; lia. Qed.

Lemma basic_performance_in_range (w : World) (p : PerformanceSection) :
  performBasicPerformanceScan w = Ret p ->
  exists v, perf_score p = Some v /\ 20 <= v <= 100.
Proof.
  unfold performBasicPerformanceScan, bind.
  destruct (w_fetch_performance w) as [response|]; [|discriminate].
  destruct (resp_text response) as [html|]; [|discriminate].
  intros [= <-]. cbn [perf_score]. eexists. split; [reflexivity|].
  match goal with
  | |- context [Z.max 0 ?v] =>
      let H := fresh "H" in
      assert (H : 20 <= v <= 100) by apply basic_score_range; lia
  end.
Qed.

(** X13. The basic performance scan never scores below 20: the six
    deductions add up to 80 at most, so the floor [Math.max(0, ...)] is
    never reached, and the SEO score it derives is the performance score
    less 10. *)
Theorem basic_performance_score_range (w : World) (p : PerformanceSection) :
  performBasicPerformanceScan w = Ret p ->
  exists v,
    perf_score p = Some v /\ 20 <= v <= 100
    /\ perf_lighthouse_scores p =
         Some {| lh_performance := Some v; lh_seo := Some (v - 10);
                 lh_accessibility := None; lh_bestPractices := None |}
    /\ perf_status p = Some completed.
Proof.
  unfold performBasicPerformanceScan, bind.
  destruct (w_fetch_performance w) as [response|]; [|discriminate].
  destruct (resp_text response) as [html|]; [|discriminate].
  intros [= <-]. cbn [perf_score perf_lighthouse_scores perf_status].
  match goal with
  | |- context [Z.max 0 ?v] =>
      let H := fresh "H" in
      assert (H : 20 <= v <= 100) by apply basic_score_range;
      set (score := v) in *; clearbody score
  end.
  exists score. rewrite !Z.max_r by lia. auto.
Qed.

Lemma basic_performance_score_range_witness :
  exists p v,
    performBasicPerformanceScan (uniform_world (Ret (bare_page page_one_image))) = Ret p
    /\ perf_score p = Some v /\ 20 <= v <= 100.
Proof.
  eexists.
  destruct (basic_performance_score_range
              (uniform_world (Ret (bare_page page_one_image))) _ eq_refl)
    as (v & H1 & H2 & _).
  exists v. split; [reflexivity|]. split; assumption.
Defined.

(** ** The range of the overall score *)

Section ScoreRange.

Local Open Scope Q_scope.

Lemma percent_in_range (q : option Q) :
  0 <= qnum_or0 q <= 1 -> (0 <= percent q <= 100)%Z.
Proof.
  intros [H0 H1]. unfold percent, math_round. split.
  - change 0%Z with (Qfloor (0 * 100 + (1 # 2))). apply Qfloor_resp_le.
    apply Qplus_le_compat; [|apply Qle_refl]. apply Qmult_le_compat_r; [exact H0|discriminate].
  - change 100%Z with (Qfloor (1 * 100 + (1 # 2))). apply Qfloor_resp_le.
    apply Qplus_le_compat; [|apply Qle_refl]. apply Qmult_le_compat_r; [exact H1|discriminate].
Qed.

Lemma inject_Z_in_range (v : Z) : (0 <= v <= 100)%Z -> 0 <= inject_Z v <= 100.
Proof.
  intros [H0 H1]. split.
  - change 0 with (inject_Z 0). rewrite <- Zle_Qle. exact H0.
  - change 100 with (inject_Z 100). rewrite <- Zle_Qle. exact H1.
Qed.

Lemma code_score_in_range (r : PipelineResults) (a : Spec.Analyzer) :
  in_range r -> code_completed r a = true -> 0 <= code_score r a <= 100.
Proof.
  intros (Hsec & Hperf & Hacc) Hc. unfold code_completed in Hc.
  destruct a; simpl in *.
  - destruct (security r) as [s|]; [|discriminate].
    destruct (sec_status s) as [[]|] eqn:Est; try discriminate.
    destruct (Hsec s eq_refl Est) as (Hp & c & Hc' & H0 & H7).
    unfold Exact.secScore. rewrite Hp, Hc'. unfold num_or.
    destruct (Z.eqb_spec c 0) as [->|_]; [split; discriminate|].
    change (if 7 =? 0 then 1 else 7)%Z with 7%Z.
    split.
    + apply Qmult_le_0_compat; [|discriminate].
      apply Qmult_le_0_compat; [|discriminate].
      change 0 with (inject_Z 0). rewrite <- Zle_Qle. exact H0.
    + assert (E : inject_Z c / inject_Z 7 * 100 == inject_Z c * (100 # 7)) by (field; discriminate).
      rewrite E.
      apply Qle_trans with (inject_Z 7 * (100 # 7)); [|unfold Qle; simpl; lia].
      apply Qmult_le_compat_r; [|discriminate]. rewrite <- Zle_Qle. exact H7.
  - destruct (performance r) as [p|]; [|discriminate].
    destruct (perf_status p) as [[]|] eqn:Est; try discriminate.
    destruct (Hperf p eq_refl Est) as (v & Hv & Hr). rewrite Hv.
    apply inject_Z_in_range. unfold num_or. destruct (v =? 0)%Z; lia.
  - destruct (accessibility r) as [x|]; [|discriminate].
    destruct (acc_status x) as [[]|] eqn:Est; try discriminate.
    destruct (Hacc x eq_refl Est) as (v & Hv & Hr). rewrite Hv.
    apply inject_Z_in_range. unfold num_or. destruct (v =? 0)%Z; lia.
  - destruct (e2e r) as [e|]; [|discriminate]. unfold Exact.e2eScore.
    destruct (0 <? _)%Z; split; discriminate.
  - split; discriminate.
Qed.

Lemma code_weight_nonneg (a : Spec.Analyzer) : 0 <= code_weight a.
Proof. destruct a; discriminate. Qed.

(** The running pair keeps [0 <= totalScore <= 100 * totalWeight]. *)
Lemma fold_code_step_in_range (r : PipelineResults) (l : list Spec.Analyzer) (acc : Q * Q) :
  in_range r ->
  0 <= fst acc <= 100 * snd acc -> 0 <= snd acc ->
  0 <= fst (fold_left (code_step r) l acc) <= 100 * snd (fold_left (code_step r) l acc)
  /\ 0 <= snd (fold_left (code_step r) l acc).
Proof.
  intros Hr. revert acc. induction l as [|a l IH]; intros acc Hs Hw; [auto|].
  cbn [fold_left]. apply IH; unfold code_step, Exact.add_weighted;
    (destruct (code_completed r a) eqn:Hc; [|assumption]);
    destruct (code_score_in_range r a Hr Hc) as [H0 H100];
    pose proof (code_weight_nonneg a) as Hwa; cbn [fst snd].
  - destruct Hs as [Hs0 Hs1]. split.
    + apply Qle_trans with (0 + 0); [apply Qle_refl|].
      apply Qplus_le_compat; [exact Hs0|]. apply Qmult_le_0_compat; assumption.
    + assert (E : 100 * (snd acc + code_weight a) == 100 * snd acc + 100 * code_weight a)
        by ring.
      rewrite E.
      apply Qplus_le_compat; [exact Hs1|]. apply Qmult_le_compat_r; assumption.
  - apply Qle_trans with (0 + 0); [apply Qle_refl|]. apply Qplus_le_compat; assumption.
Qed.

Lemma finish_in_range (acc : Q * Q) :
  0 <= fst acc <= 100 * snd acc -> (0 <= finish acc <= 100)%Z.
Proof.
  intros [H0 H1]. unfold finish. destruct (Qltb 0 (snd acc)) eqn:E; [|lia].
  apply Qltb_true in E. unfold math_round.
  assert (Hq : 0 <= fst acc / snd acc <= 100).
  { split.
    - apply Qle_shift_div_l; [exact E|]. rewrite Qmult_0_l. exact H0.
    - apply Qle_shift_div_r; [exact E|]. exact H1. }
  destruct Hq as [Hq0 Hq1]. split.
  - change 0%Z with (Qfloor (0 + (1 # 2))). apply Qfloor_resp_le.
    apply Qplus_le_compat; [exact Hq0|apply Qle_refl].
  - change 100%Z with (Qfloor (100 + (1 # 2))). apply Qfloor_resp_le.
    apply Qplus_le_compat; [exact Hq1|apply Qle_refl].
Qed.

Lemma overall_score_in_range (r : PipelineResults) :
  in_range r -> (0 <= Exact.calculateOverallScore r <= 100)%Z.
Proof.
  intros Hr. rewrite calculateOverallScore_fold. apply finish_in_range.
  apply (fold_code_step_in_range r Spec.analyzers (0, 0) Hr); cbn [fst snd].
  - split; discriminate.
  - discriminate.
Qed.

End ScoreRange.

Lemma performance_try_in_range (w : World) (p : PerformanceSection) :
  service_score_in_unit w ->
  performPerformanceScan_try w = Ret p ->
  exists v, perf_score p = Some v /\ 0 <= v <= 100.
Proof.
  intros Hunit. unfold performPerformanceScan_try, performGooglePageSpeedScan, bind, try_catch.
  assert (Hbasic : performBasicPerformanceScan w = Ret p ->
                   exists v, perf_score p = Some v /\ 0 <= v <= 100).
  { intros H. destruct (basic_performance_in_range w p H) as (v & Hv & Hr).
    exists v. split; [exact Hv|lia]. }
  destruct (truthy_str (w_pagespeed_key w)); [|exact Hbasic].
  destruct (w_fetch_pagespeed w) as [response|] eqn:Ef; [|exact Hbasic].
  destruct (psr_ok response); simpl; [|exact Hbasic].
  destruct (psr_json response) as [data|] eqn:Ej; [|exact Hbasic].
  intros [= <-]. cbn [perf_score pagespeed_section]. eexists. split; [reflexivity|].
  apply percent_in_range. exact (Hunit response data Ef Ej).
Qed.

(** The results of every run of the pipeline lie in the range. *)
Lemma pipeline_in_range (url : string) (w : World) :
  service_score_in_unit w -> in_range (performScan url w).
Proof.
  intros Hunit. split; [|split].
  - intros s. rewrite performScan_security. intros [= <-].
    unfold performSecurityScan_try, bind.
    destruct (w_fetch_security w) as [response|];
      [destruct (resp_text response) as [html|]|]; cbn; try discriminate.
    intros _. split; [reflexivity|]. eexists. split; [reflexivity|].
    pose proof (security_issues_at_most_six response html).
    assert (0 <= len (security_issues response html)) by (unfold len; lia). lia.
  - intros p. rewrite performScan_performance. intros [= <-].
    destruct (performPerformanceScan_try w) as [p|] eqn:E; cbn; [|discriminate].
    intros _. exact (performance_try_in_range w p Hunit E).
  - intros a. rewrite performScan_accessibility. intros [= <-].
    unfold performAccessibilityScan_try, bind.
    destruct (w_fetch_accessibility w) as [response|];
      [destruct (resp_text response) as [html|]|];
      cbn [catch_with try_catch acc_status accessibility_section acc_failed acc_only];
      try discriminate.
    intros _. cbn [acc_score]. eexists. split; [reflexivity|].
    pose proof (totalDeduction_at_least (accessibility_issues html)).
    assert (0 <= len (accessibility_issues html)) by (unfold len; lia). lia.
Qed.




Example overall_score_of_sample :
  calculateOverallScore sample_results = 54 /\ Spec.overall_score sample_results = 54.
Proof. split; vm_compute; reflexivity. Qed.

(** X14. The overall score of every run of the pipeline lies between 0 and
    100, whatever the analyzers met, provided the performance score the
    PageSpeed service answers is a fraction of 1. *)
Theorem pipeline_overall_score_in_range (url : string) (w : World) :
  service_score_in_unit w ->
  0 <= calculateOverallScore (performScan url w) <= 100.
Proof.
  intros Hunit. pose proof (pipeline_in_range url w Hunit) as Hr.
  rewrite (overall_score_is_exact _ Hr). apply overall_score_in_range, Hr.
Qed.

Lemma pipeline_overall_score_in_range_witness :
  let w := pagespeed_world (93 # 100) (bare_page page_one_image) in
  service_score_in_unit w
  /\ 0 <= calculateOverallScore (performScan "https://example.com" w) <= 100.
Proof.
  assert (H : service_score_in_unit (pagespeed_world (93 # 100) (bare_page page_one_image))).
  { intros response data [= <-] [= <-]. split; discriminate. }
  split; [exact H|]. apply pipeline_overall_score_in_range. exact H.
Defined.

(** ** Labels of the interactive elements *)

Lemma trim_end_idempotent (s : string) : trim_end (trim_end s) = trim_end s.
Proof.
  induction s as [|c s IH]; [reflexivity|].
  cbn [trim_end]. destruct (trim_end s) as [|d t] eqn:E.
  - destruct (is_space c) eqn:Ec; [reflexivity|]. cbn [trim_end]. rewrite Ec. reflexivity.
  - cbn [trim_end]. cbn [trim_end] in IH. rewrite IH. reflexivity.
Qed.

Lemma trim_start_fixed (s : string) :
  match s with String c _ => is_space c = false | EmptyString => True end ->
  trim_start s = s.
Proof. destruct s as [|c s]; [reflexivity|]. intros H. cbn [trim_start]. rewrite H. reflexivity. Qed.

Lemma trim_start_head (s : string) :
  match trim_start s with String c _ => is_space c = false | EmptyString => True end.
Proof.
  induction s as [|c s IH]; [exact I|]. cbn [trim_start].
  destruct (is_space c) eqn:Ec; [exact IH|exact Ec].
Qed.

Lemma trim_end_head (s : string) :
  match s with String c _ => is_space c = false | EmptyString => True end ->
  match trim_end s with String c _ => is_space c = false | EmptyString => True end.
Proof.
  destruct s as [|c s]; [intros _; exact I|]. intros Hc. cbn [trim_end].
  destruct (trim_end s); [rewrite Hc|]; exact Hc.
Qed.

Lemma trim_idempotent (s : string) : trim (trim s) = trim s.
Proof.
  unfold trim. rewrite (trim_start_fixed (trim_end (trim_start s))).
  - apply trim_end_idempotent.
  - apply trim_end_head, trim_start_head.
Qed.

Lemma nonempty_true (s : string) : nonempty s = true -> s <> EmptyString.
Proof. destruct s; [discriminate|]. intros _. discriminate. Qed.

Lemma length_filter_le {A} (f : A -> bool) (l : list A) :
  (length (List.filter f l) <= length l)%nat.
Proof. induction l as [|x l IH]; simpl; [lia|]. destruct (f x); simpl; lia. Qed.

Lemma primary_actions_shape (raw : list string) (actions : list string) :
  (forall a, In a actions -> In a (List.filter nonempty (map trim raw))) ->
  forall a, In a actions -> a <> EmptyString /\ trim a = a.
Proof.
  intros Hsub a Ha. apply Hsub, filter_In in Ha as [Hin Hne].
  apply in_map_iff in Hin as (b & <- & _). split; [apply nonempty_true, Hne|apply trim_idempotent].
Qed.

(** X15. The interactive-elements analyzer always returns a section, and
    that section lists at most five primary actions, never more than the
    buttons it counted; every label listed is trimmed and not empty. This
    holds for the DOM path, for the pattern fallback and for the failed
    section. *)
Theorem e2e_primary_actions_bounded (w : World) :
  exists s actions found,
    performE2EScan w = Ret s
    /\ e2e_primary_actions s = Some actions /\ e2e_buttons_found s = Some found
    /\ (length actions <= 5)%nat /\ len actions <= found
    /\ forall a, In a actions -> a <> EmptyString /\ trim a = a.
Proof.
  unfold performE2EScan, performE2EScan_try, bind, try_catch.
  assert (Hfailed : forall msg, exists s actions found,
            Ret (e2e_failed msg) = Ret s
            /\ e2e_primary_actions s = Some actions /\ e2e_buttons_found s = Some found
            /\ (length actions <= 5)%nat /\ len actions <= found
            /\ forall a, In a actions -> a <> EmptyString /\ trim a = a).
  { intros msg. eexists _, _, _. split; [reflexivity|]. split; [reflexivity|].
    split; [reflexivity|]. cbn. split; [lia|]. split; [reflexivity|]. intros a []. }
  destruct (w_fetch_e2e w) as [response|e]; [|apply Hfailed].
  destruct (resp_ok response); cbn [negb]; [|apply Hfailed].
  destruct (resp_text response) as [html|e]; [|apply Hfailed].
  destruct (w_dom w) as [doc|e].
  - eexists _, _, _. split; [reflexivity|]. cbn [e2e_from_dom e2e_primary_actions e2e_buttons_found].
    split; [reflexivity|]. split; [reflexivity|]. unfold slice0, len.
    split; [rewrite length_firstn; lia|]. split.
    + rewrite length_firstn.
      pose proof (length_filter_le nonempty (map trim (dom_buttons doc))) as H.
      rewrite length_map in H. lia.
    + apply (primary_actions_shape (dom_buttons doc)). intros a Ha.
      apply (In_slice0 5). exact Ha.
  - eexists _, _, _. split; [reflexivity|].
    cbn [e2e_from_regex e2e_primary_actions e2e_buttons_found].
    split; [reflexivity|]. split; [reflexivity|]. unfold len.
    set (buttons := match_all true re_button html).
    pose proof (length_filter_le nonempty
                  (map (fun btn => trim (remove_all false re_any_tag btn)) (slice0 5 buttons)))
      as H.
    rewrite length_map in H. unfold slice0 in *. rewrite length_firstn in H.
    split; [lia|]. split; [lia|].
    intros a Ha. apply filter_In in Ha as [Hin Hne].
    apply in_map_iff in Hin as (b & <- & _).
    split; [apply nonempty_true, Hne|apply trim_idempotent].
Qed.

(** ** Technology detection *)

(** An entry of the result is one of the entries pushed for the page, or
    comes from a header. *)
Ltac peel_pushes H :=
  repeat first
    [ apply In_push_if in H as [H|[? H]]; [|try discriminate]
    | apply in_app_iff in H as [H|[H|[]]]; [|try discriminate H] ].

Ltac close_entries :=
  repeat match goal with
         | H : _ \/ _ |- _ => destruct H as [H|H]
         | H : False |- _ => destruct H
         | H : tech _ _ _ _ = tech _ _ _ _ |- _ => discriminate H
         | H : In _ (_ ++ _) |- _ => apply in_app_iff in H
         | H : In _ (_ :: _) |- _ => cbn [In] in H
         | H : In _ [] |- _ => destruct H
         end.

(** The entries read in the page text: what each name tells of the text. *)
Lemma tech_names_of_page (response : Response) (html : string) (t : Technology) :
  In t (detected_technologies response html) ->
  In (tech_name t) exclusive_names ->
  named_by_headers response (tech_name t)
  \/ (tech_name t = "Next.js" ->
        includes "__NEXT_DATA__" html || includes "_next/static" html = true)
     /\ (tech_name t = "React" ->
        includes "__NEXT_DATA__" html || includes "_next/static" html = false)
     /\ (tech_name t = "Nuxt.js" -> includes "__nuxt" html || includes "_nuxt/" html = true)
     /\ (tech_name t = "Vue.js" -> includes "__nuxt" html || includes "_nuxt/" html = false)
     /\ (tech_name t = "Bootstrap" -> includes "tailwind" html = false).
Proof.
  unfold detected_technologies. cbv zeta.
  set (next := includes "__NEXT_DATA__" html || includes "_next/static" html).
  set (react := includes "react" html || includes "React" html || includes "_react" html
                || test true re_react_dom html).
  set (nuxt := includes "__nuxt" html || includes "_nuxt/" html).
  set (vue := includes "vue" html || includes "Vue" html || test true re_vue_js html).
  match goal with
  | |- context [push_if (test false re_bootstrap_class html && ?c) ?x ?l] =>
      set (page := push_if (test false re_bootstrap_class html && c) x l)
  end.
  assert (Hpage : In t page ->
            (tech_name t = "Next.js" -> next = true)
            /\ (tech_name t = "React" -> next = false)
            /\ (tech_name t = "Nuxt.js" -> nuxt = true)
            /\ (tech_name t = "Vue.js" -> nuxt = false)
            /\ (tech_name t = "Bootstrap" -> includes "tailwind" html = false)).
  { subst page. intros Ht.
    apply In_push_if in Ht as [Ht|[Hc Ht]].
    - peel_pushes Ht.
      all: destruct next, react, nuxt, vue; close_entries; subst t;
        repeat split; intros E; cbn in E; try discriminate E; reflexivity.
    - subst t. apply andb_true_iff in Hc as [_ Hc]. apply negb_true_iff in Hc.
      repeat split; intros E; try discriminate E; exact Hc. }
  clearbody page. intros Ht Hname.
  unfold named_by_headers.
  destruct (headers_get "server" response) as [[|c0 s0]|] eqn:Hs;
    destruct (headers_get "x-powered-by" response) as [[|c1 s1]|] eqn:Hp;
    peel_pushes Ht; auto;
    try (subst t; cbn [tech_name tech] in *; unfold exclusive_names in Hname;
         cbn [In] in Hname; intuition discriminate);
    try (subst t; cbn [tech_name tech]; left; eauto; fail);
    try (subst t; cbn [tech_name tech]; left; right; eauto; fail).
Qed.


(** X16. Technology detection reports a framework and the library under it
    once. The names it lists never include both Next.js and React, nor both
    Nuxt.js and Vue.js, and never Bootstrap for a page whose text contains
    [tailwind], as long as none of these names is the value of the
    [X-Powered-By] header or the product of the [Server] header: those two
    values are listed under their own text, whatever the page holds. *)
Theorem tech_detection_is_exclusive (response : Response) (html : string) :
  (forall name, In name exclusive_names -> ~ named_by_headers response name) ->
  ~ (In "Next.js" (map tech_name (detected_technologies response html))
     /\ In "React" (map tech_name (detected_technologies response html)))
  /\ ~ (In "Nuxt.js" (map tech_name (detected_technologies response html))
        /\ In "Vue.js" (map tech_name (detected_technologies response html)))
  /\ (includes "tailwind" html = true ->
      ~ In "Bootstrap" (map tech_name (detected_technologies response html))).
Proof.
  intros Hhdr.
  assert (Hname : forall name, In name exclusive_names ->
            In name (map tech_name (detected_technologies response html)) ->
            (name = "Next.js" ->
               includes "__NEXT_DATA__" html || includes "_next/static" html = true)
            /\ (name = "React" ->
               includes "__NEXT_DATA__" html || includes "_next/static" html = false)
            /\ (name = "Nuxt.js" -> includes "__nuxt" html || includes "_nuxt/" html = true)
            /\ (name = "Vue.js" -> includes "__nuxt" html || includes "_nuxt/" html = false)
            /\ (name = "Bootstrap" -> includes "tailwind" html = false)).
  { intros name Hex Hin. apply in_map_iff in Hin as (t & <- & Ht).
    destruct (tech_names_of_page response html t Ht Hex) as [Hh|Hpage]; [|exact Hpage].
    destruct (Hhdr _ Hex Hh). }
  split; [|split].
  - intros [Hn Hr].
    apply Hname in Hn as (Hn & _); [|cbn; tauto].
    apply Hname in Hr as (_ & Hr & _); [|cbn; tauto].
    rewrite Hn in Hr by reflexivity. specialize (Hr eq_refl). discriminate Hr.
  - intros [Hn Hv].
    apply Hname in Hn as (_ & _ & Hn & _); [|cbn; tauto].
    apply Hname in Hv as (_ & _ & _ & Hv & _); [|cbn; tauto].
    rewrite Hn in Hv by reflexivity. specialize (Hv eq_refl). discriminate Hv.
  - intros Htw Hb.
    apply Hname in Hb as (_ & _ & _ & _ & Hb); [|cbn; tauto].
    rewrite Htw in Hb. specialize (Hb eq_refl). discriminate Hb.
Qed.

Lemma tech_detection_is_exclusive_witness :
  map tech_name (detected_technologies (express_response page_next_tailwind) page_next_tailwind)
    = ["Next.js"; "Tailwind CSS"; "Express"; "nginx"]
  /\ ~ (In "Next.js" (map tech_name (detected_technologies (express_response page_next_tailwind)
                                        page_next_tailwind))
        /\ In "React" (map tech_name (detected_technologies (express_response page_next_tailwind)
                                        page_next_tailwind))).
Proof.
  split; [vm_compute; reflexivity|].
  apply (tech_detection_is_exclusive (express_response page_next_tailwind) page_next_tailwind).
  intros name Hname [Hp|(server & Hs & Hn)].
  - vm_compute in Hp. injection Hp as <-. cbn in Hname. intuition discriminate.
  - vm_compute in Hs. injection Hs as <-. vm_compute in Hn. subst name.
    cbn in Hname. intuition discriminate.
Defined.

(** ** The order of the ranked issue list *)

Section SortedByKey.

Context {A : Type} (key : A -> Z).

Let le_key (a b : A) : Prop := key a <= key b.

Lemma insert_by_sorted (x : A) (l : list A) :
  StronglySorted le_key l -> StronglySorted le_key (insert_by key x l).
Proof.
  induction 1 as [|y l Hl IH Hy]; cbn [insert_by].
  - constructor; constructor.
  - destruct (Z.leb_spec (key x) (key y)) as [Hxy|Hxy].
    + constructor; [constructor; assumption|].
      constructor; [exact Hxy|].
      rewrite List.Forall_forall in *. intros z Hz. specialize (Hy z Hz). unfold le_key in *. lia.
    + constructor; [exact IH|].
      rewrite List.Forall_forall in *. intros z Hz.
      apply In_insert_by in Hz as [->|Hz]; [unfold le_key; lia|auto].
Qed.

Lemma sort_by_sorted (l : list A) : StronglySorted le_key (sort_by key l).
Proof.
  induction l as [|x l IH]; [constructor|]. apply insert_by_sorted, IH.
Qed.

Lemma firstn_sorted (n : nat) (l : list A) :
  StronglySorted le_key l -> StronglySorted le_key (firstn n l).
Proof.
  intros H. revert n. induction H as [|y l Hl IH Hy]; intros [|n]; cbn [firstn]; try constructor.
  - apply IH.
  - rewrite List.Forall_forall in *. intros z Hz. apply Hy.
    rewrite <- (firstn_skipn n l). apply in_or_app. now left.
Qed.

Lemma sorted_nth (l : list A) (n m : nat) (x y : A) :
  StronglySorted le_key l ->
  nth_error l n = Some x -> nth_error l m = Some y -> (n < m)%nat -> key x <= key y.
Proof.
  intros H. revert n m. induction H as [|z l Hl IH Hz]; intros n m Hn Hm Hlt.
  - destruct n; discriminate.
  - destruct m as [|m]; [lia|]. destruct n as [|n]; cbn in Hn, Hm.
    + injection Hn as <-. rewrite List.Forall_forall in Hz. apply Hz. eapply nth_error_In, Hm.
    + apply (IH n m Hn Hm). lia.
Qed.

Lemma insert_by_permutation (x : A) (l : list A) : Permutation (insert_by key x l) (x :: l).
Proof.
  induction l as [|y l IH]; cbn [insert_by]; [reflexivity|].
  destruct (key x <=? key y); [reflexivity|].
  rewrite IH. apply perm_swap.
Qed.

Lemma sort_by_permutation (l : list A) : Permutation (sort_by key l) l.
Proof.
  induction l as [|x l IH]; [reflexivity|].
  change (sort_by key (x :: l)) with (insert_by key x (sort_by key l)).
  rewrite insert_by_permutation, IH. reflexivity.
Qed.

Lemma length_sort_by (l : list A) : length (sort_by key l) = length l.
Proof. apply Permutation_length, sort_by_permutation. Qed.

Lemma count_insert_by (p : A -> bool) (x : A) (l : list A) :
  length (List.filter p (insert_by key x l)) = length (List.filter p (x :: l)).
Proof.
  induction l as [|y l IH]; cbn [insert_by]; [reflexivity|].
  destruct (key x <=? key y); [reflexivity|].
  cbn [List.filter] in *. destruct (p y), (p x); cbn [length] in *; lia.
Qed.

Lemma count_sort_by (p : A -> bool) (l : list A) :
  length (List.filter p (sort_by key l)) = length (List.filter p l).
Proof.
  induction l as [|x l IH]; [reflexivity|].
  change (sort_by key (x :: l)) with (insert_by key x (sort_by key l)).
  rewrite count_insert_by. cbn [List.filter]. destruct (p x); cbn [length]; lia.
Qed.

Lemma sorted_app_r (front back : list A) :
  StronglySorted le_key (front ++ back) -> StronglySorted le_key back.
Proof.
  induction front as [|z front IH]; [auto|]. cbn [app]. intros H.
  apply StronglySorted_inv in H as [H _]. auto.
Qed.

(** In a sorted list, the entries below a key all come before an entry
    that has it. *)
Lemma sorted_count_below (k : Z) (front back : list A) (x : A) :
  StronglySorted le_key (front ++ x :: back) -> k <= key x ->
  (length (List.filter (fun y => (key y <? k)%Z) (front ++ x :: back)) <= length front)%nat.
Proof.
  intros Hs Hk. rewrite List.filter_app, length_app.
  pose proof (length_filter_le (fun y => key y <? k) front) as Hfront.
  assert (Hback : List.filter (fun y => key y <? k) (x :: back) = []).
  { apply sorted_app_r, StronglySorted_inv in Hs as [_ Hx].
    rewrite List.Forall_forall in Hx. cbn [List.filter].
    replace (key x <? k) with false by (symmetry; apply Z.ltb_ge; exact Hk).
    induction back as [|y back IH]; [reflexivity|]. cbn [List.filter].
    replace (key y <? k) with false.
    - apply IH. intros z Hz. apply Hx. now right.
    - symmetry. apply Z.ltb_ge. specialize (Hx y (or_introl eq_refl)). unfold le_key in Hx. lia. }
  rewrite Hback. cbn [length]. lia.
Qed.

End SortedByKey.

Lemma sort_key_critical (i : TopIssue) : ti_severity i = "critical" -> sort_key i = 99.
Proof. intros H. unfold sort_key. rewrite H. reflexivity. Qed.

Lemma sort_key_ranked (i : TopIssue) :
  ti_severity i = "high" \/ ti_severity i = "medium" \/ ti_severity i = "low" ->
  sort_key i <= 3.
Proof. unfold sort_key. intros [H|[H|H]]; rewrite H; cbv; discriminate. Qed.

Lemma top_issues_sorted (r : PipelineResults) :
  StronglySorted ranked_before (extractTopIssues r).
Proof. unfold extractTopIssues, slice0. apply (firstn_sorted sort_key), sort_by_sorted. Qed.

Lemma security_severities_known (response : Response) (html : string) (i : SecurityIssue) :
  In i (security_issues response html) -> known_severity (si_severity i).
Proof.
  unfold security_issues, header_issues. cbv zeta. intros H.
  repeat (apply In_push_if in H as [H|[_ ->]]; [|cbn; tauto]).
  destruct H.
Qed.

Lemma accessibility_severities_known (html : string) (i : AccessibilityIssue) :
  In i (accessibility_issues html) -> known_severity (ai_severity i).
Proof.
  unfold accessibility_issues. cbv zeta. intros H.
  repeat first
    [ apply In_push_if in H as [H|[_ ->]]; [|cbn; tauto]
    | match type of H with
      | In _ (if ?c then _ else _) => destruct c
      end
    | apply in_app_iff in H as [H|[<-|[]]]; [|cbn; tauto] ].
  all: destruct H.
Qed.

Lemma known_severity_kept (severity : string) :
  known_severity severity -> str_or (Some severity) "low" = severity.
Proof. intros [<-|[<-|[<-|[<-|[]]]]]; reflexivity. Qed.

Lemma pipeline_severities_known (url : string) (w : World) :
  known_severities (performScan url w).
Proof.
  intros i. unfold collected_issues.
  rewrite performScan_security, performScan_accessibility, performScan_performance.
  cbv zeta. intros H.
  assert (Hsec : forall l, (forall x, In x l -> known_severity (si_severity x)) ->
                   forall t, In t (map top_of_security l) -> known_severity (ti_severity t)).
  { intros l Hl t Ht. apply in_map_iff in Ht as (x & <- & Hx).
    cbn [top_of_security ti_severity]. rewrite known_severity_kept; auto. }
  assert (Hacc : forall l, (forall x, In x l -> known_severity (ai_severity x)) ->
                   forall t, In t (map top_of_accessibility l) -> known_severity (ti_severity t)).
  { intros l Hl t Ht. apply in_map_iff in Ht as (x & <- & Hx).
    cbn [top_of_accessibility ti_severity]. rewrite known_severity_kept; auto. }
  assert (Hs : forall l, sec_issues (catch_with (performSecurityScan_try url w)
                  (fun e => sec_failed (error_message e "Security scan failed"))) = Some l ->
               forall x, In x l -> known_severity (si_severity x)).
  { unfold performSecurityScan_try, bind.
    destruct (w_fetch_security w) as [response|e];
      [destruct (resp_text response) as [html|e]|]; cbn [catch_with sec_issues sec_failed];
      intros l [= <-] x Hx; [eapply security_severities_known; eauto | destruct Hx | destruct Hx]. }
  assert (Ha : forall l, acc_issues (catch_with (performAccessibilityScan_try w)
                  (fun e => acc_failed (error_message e "Accessibility scan failed"))) = Some l ->
               forall x, In x l -> known_severity (ai_severity x)).
  { unfold performAccessibilityScan_try, bind.
    destruct (w_fetch_accessibility w) as [response|e];
      [destruct (resp_text response) as [html|e]|];
      cbn [catch_with acc_issues acc_failed accessibility_section];
      intros l [= <-] x Hx; [eapply accessibility_severities_known; eauto | destruct Hx | destruct Hx]. }
  destruct (sec_issues _) as [ls|]; destruct (acc_issues _) as [la|];
    destruct (perf_score _) as [score|];
    repeat first
      [ apply In_push_if in H as [H|[_ ->]]; [|cbn; tauto]
      | apply in_app_iff in H as [H|H] ];
    try destruct H; eauto.
Qed.

(** X17. The ranked issue list has at most ten entries, every one of them
    an issue collected from the security, accessibility or performance
    section, and it is in the order of the sort: no entry is followed by
    one of a smaller rank. This is stated for results whose issues carry
    the severities critical, high, medium or low, the four keys of
    [sortOrder]; every result of [performScan] is such
    ([pipeline_severities_known]). *)
Theorem top_issues_capped_and_sorted (r : PipelineResults) :
  known_severities r ->
  (length (extractTopIssues r) <= 10)%nat
  /\ (forall i, In i (extractTopIssues r) ->
        In i (collected_issues r) /\ known_severity (ti_severity i))
  /\ StronglySorted ranked_before (extractTopIssues r).
Proof.
  intros Hknown. split; [|split].
  - unfold extractTopIssues, slice0. rewrite length_firstn. lia.
  - intros i Hi. apply (In_slice0 10), (In_sort_by sort_key) in Hi. auto.
  - apply top_issues_sorted.
Qed.

Lemma top_issues_capped_and_sorted_witness :
  (length (extractTopIssues sample_results) <= 10)%nat
  /\ (forall i, In i (extractTopIssues sample_results) ->
        In i (collected_issues sample_results) /\ known_severity (ti_severity i))
  /\ StronglySorted ranked_before (extractTopIssues sample_results).
Proof.
  apply top_issues_capped_and_sorted. unfold sample_results. apply pipeline_severities_known.
Defined.

(** X18. Critical issues are ranked last. The rank of [critical] is 0,
    which [sortOrder[severity] || 99] turns into 99: when the issues carry
    the four severities critical, high, medium and low, as those of every
    run of the pipeline do, every entry of severity high, medium or low of
    the ranked list comes before every entry of severity critical. *)
Theorem critical_issues_rank_last (r : PipelineResults) (n m : nat) (x y : TopIssue) :
  known_severities r ->
  nth_error (extractTopIssues r) n = Some x ->
  nth_error (extractTopIssues r) m = Some y ->
  ti_severity x = "critical" ->
  ti_severity y = "high" \/ ti_severity y = "medium" \/ ti_severity y = "low" ->
  (m < n)%nat.
Proof.
  intros _ Hx Hy Hcrit Hranked.
  apply sort_key_critical in Hcrit. apply sort_key_ranked in Hranked.
  destruct (Nat.lt_trichotomy n m) as [Hlt|[Heq|Hgt]]; [| |exact Hgt].
  - pose proof (sorted_nth sort_key _ n m x y (top_issues_sorted r) Hx Hy Hlt). lia.
  - subst m. rewrite Hx in Hy. injection Hy as ->. lia.
Qed.

Lemma critical_issues_rank_last_witness :
  nth_error (extractTopIssues sample_results) 6 = Some (top_of_accessibility three_images_issue)
  /\ nth_error (extractTopIssues sample_results) 0 = Some (top_of_security issue_hsts)
  /\ (0 < 6)%nat.
Proof.
  assert (H6 : nth_error (extractTopIssues sample_results) 6
               = Some (top_of_accessibility three_images_issue)) by (vm_compute; reflexivity).
  assert (H0 : nth_error (extractTopIssues sample_results) 0
               = Some (top_of_security issue_hsts)) by (vm_compute; reflexivity).
  split; [exact H6|]. split; [exact H0|].
  apply (critical_issues_rank_last sample_results 6 0 _ _
           (pipeline_severities_known _ _) H6 H0); [reflexivity | left; reflexivity].
Defined.

(** X19. Nothing is lost below the cap: when at most ten issues are
    collected, the ranked list is a rearrangement of them. *)
Theorem top_issues_keep_all_below_cap (r : PipelineResults) :
  (length (collected_issues r) <= 10)%nat ->
  Permutation (extractTopIssues r) (collected_issues r).
Proof.
  intros H. unfold extractTopIssues, slice0.
  rewrite firstn_all2 by (rewrite length_sort_by; exact H).
  apply sort_by_permutation.
Qed.

Lemma top_issues_keep_all_below_cap_witness :
  let r := results_with_issues [issue_xss] [three_images_issue; missing_lang_issue] in
  Permutation (extractTopIssues r) (collected_issues r).
Proof.
  apply top_issues_keep_all_below_cap. cbn. lia.
Defined.

(** X20. Critical issues are the first to be cut. When the issues carry
    the four severities critical, high, medium and low and ten or more of
    them have severity high, medium or low, the ranked list holds no
    critical issue at all. *)
Theorem critical_issues_cut_first (r : PipelineResults) (i : TopIssue) :
  known_severities r ->
  (10 <= length (List.filter ranks_ahead (collected_issues r)))%nat ->
  In i (extractTopIssues r) ->
  ti_severity i <> "critical".
Proof.
  intros _ Hmany Hin Hcrit. apply sort_key_critical in Hcrit.
  unfold extractTopIssues, slice0 in Hin.
  set (sorted := sort_by sort_key (collected_issues r)) in *.
  apply in_split in Hin as (front & back & Hsplit).
  assert (Hfront : (length front < 10)%nat).
  { pose proof (length_firstn 10 sorted) as Hlen. rewrite Hsplit, length_app in Hlen.
    cbn [length] in Hlen. lia. }
  pose proof (firstn_skipn 10 sorted) as Hsorted. rewrite Hsplit, <- app_assoc in Hsorted.
  cbn [app] in Hsorted.
  pose proof (sort_by_sorted sort_key (collected_issues r)) as Hs. fold sorted in Hs.
  rewrite <- Hsorted in Hs.
  pose proof (sorted_count_below sort_key 99 front (back ++ skipn 10 sorted) i Hs) as Hcount.
  rewrite Hsorted in Hcount. unfold sorted in Hcount. rewrite count_sort_by in Hcount.
  unfold ranks_ahead in Hmany.
  specialize (Hcount ltac:(lia)). lia.
Qed.

Lemma critical_issues_cut_first_witness :
  let r := performScan "https://example.com" (uniform_world (Ret (bare_page page_many_issues))) in
  In (top_of_accessibility
        (acc_issue "critical" (Some 1)
           "1 images missing alt text - screen readers cannot describe images"
           "WCAG 2.1 Level A (1.1.1)")) (collected_issues r)
  /\ forall i, In i (extractTopIssues r) -> ti_severity i <> "critical".
Proof.
  split; [vm_compute; tauto|].
  intros i. apply critical_issues_cut_first; [apply pipeline_severities_known|]. vm_compute. lia.
Defined.

(** ** Page numbers of the report *)

Lemma add_page_numbered (title : string) (body : list Report.DrawOp) (doc : Report.Doc) :
  (1 <= length (fst doc))%nat -> numbered doc -> numbered (Report.add_page title body doc).
Proof.
  destruct doc as [pages pageNum]. unfold numbered. cbn [fst snd Report.add_page].
  intros Hlen [Hnum Hpages]. split.
  - rewrite length_app. cbn [length]. lia.
  - intros k page Hk. destruct (Nat.lt_ge_cases (S k) (length pages)) as [Hlt|Hge].
    + rewrite nth_error_app1 in Hk by exact Hlt. exact (Hpages k page Hk).
    + rewrite nth_error_app2 in Hk by exact Hge.
      destruct (S k - length pages)%nat as [|j] eqn:Ej; cbn in Hk; [|destruct j; discriminate].
      injection Hk as <-. exists title, body. cbn [Report.page_ops].
      replace (Z.of_nat (S k)) with pageNum by lia. reflexivity.
Qed.

Lemma add_page_if_numbered (c : bool) (title : string) (body : list Report.DrawOp)
    (doc : Report.Doc) :
  (1 <= length (fst doc))%nat -> numbered doc -> numbered (Report.add_page_if c title body doc).
Proof. destruct c; [apply add_page_numbered|auto]. Qed.

Lemma add_page_length (title : string) (body : list Report.DrawOp) (doc : Report.Doc) :
  length (fst (Report.add_page title body doc)) = S (length (fst doc)).
Proof. rewrite add_page_grows, length_app. cbn [length]. lia. Qed.

Lemma generate_length (i : Report.Input) :
  length (Report.pages i)
  = (5 + b2n (match Report.core_web_vitals_of (Report.in_scanResults i) with
              | Some _ => true
              | None => false
              end)
     + later_count i)%nat.
Proof.
  unfold Report.pages. rewrite generate_unfold, later_pages_length.
  destruct (Report.core_web_vitals_of (Report.in_scanResults i));
    [rewrite add_page_length|]; rewrite (proj1 (fixed_pages_shape i)); cbn [b2n]; lia.
Qed.

Lemma generate_numbered (i : Report.Input) : numbered (Report.generate i).
Proof.
  unfold Report.generate. cbv zeta.
  repeat first
    [ apply add_page_if_numbered;
      [ rewrite ?add_page_if_length, ?add_page_length;
        try (destruct (Report.core_web_vitals_of (Report.in_scanResults i));
             rewrite ?add_page_length); cbn [fst length]; lia | ]
    | apply add_page_numbered; [ rewrite ?add_page_length; cbn [fst length]; lia | ] ].
  - destruct (Report.core_web_vitals_of (Report.in_scanResults i)).
    + repeat (apply add_page_numbered; [ rewrite ?add_page_length; cbn [fst length]; lia | ]).
      split; [reflexivity|]. intros [|k] page Hk; discriminate.
    + repeat (apply add_page_numbered; [ rewrite ?add_page_length; cbn [fst length]; lia | ]).
      split; [reflexivity|]. intros [|k] page Hk; discriminate.
Qed.

(** X21. Every report has between five and ten pages, and when the
    generator is done its counter [pageNum] equals the number of pages: the
    figure [pageNum - 1] it logs as the page count is one short. *)
Theorem report_page_count (i : Report.Input) :
  (5 <= length (Report.pages i) <= 10)%nat
  /\ snd (Report.generate i) = Z.of_nat (length (Report.pages i)).
Proof.
  split; [|exact (proj1 (generate_numbered i))].
  rewrite generate_length. unfold later_count. cbv zeta. bound_b2n. lia.
Qed.

(** X22. The printed page numbers run one behind the pages. The first page
    carries no header; the page after it is headed as page 1, and in
    general the page at position [k >= 1], counting from 0, is headed as
    page [k]: the last page of a report of [n] pages says Page [n - 1]. *)
Theorem report_pages_numbered_from_second (i : Report.Input) (k : nat) (page : Report.Page) :
  nth_error (Report.pages i) (S k) = Some page ->
  nth_error (Report.pages i) 0 = Some {| Report.page_ops := Report.page1_ops i |}
  /\ exists title body,
       Report.page_ops page = Report.drawPageHeader title (Z.of_nat (S k)) ++ body
       /\ In (Report.DrawText (Report.Plain ("Page " ++ show_Z (Z.of_nat (S k))))
                (Report.pageWidth - 80) (Report.pageHeight - 40) 10)
             (Report.page_ops page).
Proof.
  intros Hk. split.
  - unfold Report.pages. rewrite generate_unfold.
    destruct (later_pages_prefix i
                (match Report.core_web_vitals_of (Report.in_scanResults i) with
                 | Some cwv =>
                     Report.add_page "Core Web Vitals" (Report.page6_ops cwv) (fixed_pages i)
                 | None => fixed_pages i
                 end)) as [tail E].
    rewrite E. destruct (Report.core_web_vitals_of (Report.in_scanResults i)); reflexivity.
  - destruct (proj2 (generate_numbered i) k page Hk) as (title & body & E).
    exists title, body. split; [exact E|]. rewrite E. apply in_or_app. left.
    unfold Report.drawPageHeader. cbn [In]. auto.
Qed.

Lemma report_pages_numbered_from_second_witness :
  exists page title body,
    nth_error (Report.pages summary_only_input) 4 = Some page
    /\ Report.page_ops page = Report.drawPageHeader title 4 ++ body.
Proof.
  eexists.
  destruct (report_pages_numbered_from_second summary_only_input 3 _ eq_refl)
    as (_ & title & body & E & _).
  exists title, body. split; [reflexivity|exact E].
Defined.

(** ** The report of a run *)

Lemma scan_report_pages (url : string) (env : Env) :
  scan_report url env =
    if env_pdf_throws env then None else Some (Report.pages (scan_report_input url env)).
Proof.
  unfold scan_report, final_write, scan_report_input. cbv zeta.
  destruct (catch_with (env_ai env) _) as [aiSummary aiRecommendations].
  cbn [fst snd pdf_report]. reflexivity.
Qed.

(** A completed scan stores the report of its run. *)
Lemma completed_scan_stores_report (scanId url : string) (env : Env) (db : DB) (row' : ScanRow) :
  scan_results (snd (processScan scanId url env db)) !! scanId = Some row' ->
  scan_status row' = scan_completed ->
  pdf_report row' = scan_report url env.
Proof.
  unfold processScan.
  destruct (env_hostname env) as [domain|e]; cbn [snd update_scan scan_results].
  - simpl rate_limits.
    destruct (rate_limit_check (env_now env) domain (rate_limits db)) as [[|] rl];
      [destruct (env_update_error env)|];
      cbn [snd update_scan scan_results with_rate_limits];
      rewrite !lookup_alter_eq; destruct (scan_results db !! scanId) as [row|];
      cbn [fmap option_fmap option_map]; intros [= <-]; try discriminate.
    intros _. unfold scan_report, final_write.
    destruct (catch_with (env_ai env) _). reflexivity.
  - rewrite !lookup_alter_eq. destruct (scan_results db !! scanId) as [row|];
      cbn [fmap option_fmap option_map]; intros [= <-]; discriminate.
Qed.

Lemma pipeline_has_e2e (url : string) (w : World) :
  match e2e (performScan url w) with Some _ => true | None => false end = true.
Proof. rewrite performScan_e2e. reflexivity. Qed.

(** Core Web Vitals come with Lighthouse scores: both are set by an answer
    of the PageSpeed service, and by nothing else. *)
Lemma web_vitals_with_lighthouse (url : string) (w : World) :
  has_web_vitals (performScan url w) = true ->
  Report.has_lighthouse_scores (performScan url w) = true.
Proof.
  unfold has_web_vitals, Report.core_web_vitals_of, Report.has_lighthouse_scores.
  rewrite performScan_performance.
  unfold performPerformanceScan_try, performGooglePageSpeedScan, performBasicPerformanceScan,
    bind, try_catch.
  destruct (truthy_str (w_pagespeed_key w));
    [destruct (w_fetch_pagespeed w) as [ps|];
     [destruct (negb (psr_ok ps)); [|destruct (psr_json ps)]|]|];
    try reflexivity;
    destruct (w_fetch_performance w) as [response|];
    try destruct (resp_text response); cbn; auto.
Qed.

Lemma technologies_of_techstack (url : string) (w w' : World) :
  w_fetch_techstack w = w_fetch_techstack w' ->
  technologies_of (performScan url w) = technologies_of (performScan url w').
Proof.
  intros H. unfold technologies_of. rewrite !performScan_techStack.
  unfold detectTechStack_try. rewrite H. reflexivity.
Qed.

Lemma scan_report_length (url : string) (env : Env) :
  length (Report.pages (scan_report_input url env))
  = (6 + b2n (has_web_vitals (performScan url (env_world env)))
       + b2n (Report.has_lighthouse_scores (performScan url (env_world env)))
       + b2n (0 <? len (technologies_of (performScan url (env_world env))))%Z
       + b2n (Report.has_ai (scan_report_input url env)))%nat.
Proof.
  rewrite generate_length. unfold later_count. cbv zeta.
  change (Report.in_scanResults (scan_report_input url env))
    with (performScan url (env_world env)).
  change (Report.in_technologies (scan_report_input url env))
    with (technologies_of (performScan url (env_world env))).
  rewrite pipeline_has_e2e. unfold has_web_vitals. cbn [b2n]. lia.
Qed.

Lemma has_ai_of_env (url : string) (env env' : Env) :
  env_ai env = env_ai env' ->
  Report.has_ai (scan_report_input url env) = Report.has_ai (scan_report_input url env').
Proof. intros H. unfold Report.has_ai, scan_report_input. cbn. rewrite H. reflexivity. Qed.

(** C8 does not hold as the specification states it: the report of a scan
    in which no analyzer obtained anything, and that has no optional data
    at all, has six pages, not one. *)
Lemma offline_scan_report_has_six_pages :
  exists row pages,
    scan_results (snd (processScan "scan-1" "https://example.com" (sample_env offline) sample_db))
      !! "scan-1" = Some row
    /\ scan_status row = scan_completed
    /\ pdf_report row = Some pages
    /\ map page_title (skipn 1 pages) =
         [ "Scan Results Overview"; "Detailed Scan Results"; "Security & Performance";
           "Accessibility & Technologies"; "End-to-End Testing Analysis" ]
    /\ length pages = 6%nat
    /\ length pages <> 1%nat.
Proof.
  eexists. eexists. split; [vm_compute; reflexivity|].
  split; [reflexivity|]. split; [reflexivity|]. split; [reflexivity|].
  split; [reflexivity|discriminate].
Qed.

(** C8, amended. The report of a scan has six pages when the scan carries
    no optional data: the executive summary, the four pages the generator
    always adds after it, and the End-to-End Testing page, which is guarded
    by the presence of the interactive-elements section and every scan has
    one. Core Web Vitals, Lighthouse scores, detected technologies and an
    AI analysis add one page each. The Core Web Vitals page is the sixth of
    the report, under the title Core Web Vitals, and names the six metrics
    FCP, LCP, CLS, TBT, TTI and Speed Index. Core Web Vitals only come in
    an answer of the PageSpeed service, together with Lighthouse scores:
    the same scan with Core Web Vitals has one page more when it already
    had Lighthouse scores (those of the basic performance scan), and two
    pages more when it had none. *)
Theorem scan_report_pages_and_web_vitals (url : string) (env env' : Env) :
  env_pdf_throws env = false ->
  exists pages,
    scan_report url env = Some pages
    /\ length pages
       = (6 + b2n (has_web_vitals (performScan url (env_world env)))
            + b2n (Report.has_lighthouse_scores (performScan url (env_world env)))
            + b2n (0 <? len (technologies_of (performScan url (env_world env))))%Z
            + b2n (Report.has_ai (scan_report_input url env)))%nat
    /\ (has_web_vitals (performScan url (env_world env)) = true ->
        Report.has_lighthouse_scores (performScan url (env_world env)) = true)
    /\ (forall cwv,
          Report.core_web_vitals_of (performScan url (env_world env)) = Some cwv ->
          exists page,
            nth_error pages 5 = Some page
            /\ Report.page_ops page =
                 Report.drawPageHeader "Core Web Vitals" 5 ++ Report.page6_ops cwv
            /\ texts_of_size 9 page = map Report.Plain vital_names
            /\ length vital_names = 6%nat)
    /\ (env_pdf_throws env' = false ->
        env_ai env' = env_ai env ->
        w_fetch_techstack (env_world env') = w_fetch_techstack (env_world env) ->
        has_web_vitals (performScan url (env_world env)) = false ->
        has_web_vitals (performScan url (env_world env')) = true ->
        exists pages',
          scan_report url env' = Some pages'
          /\ length pages'
             = (length pages
                + if Report.has_lighthouse_scores (performScan url (env_world env))
                  then 1 else 2)%nat).
Proof.
  intros Hpdf. rewrite scan_report_pages, Hpdf. eexists. split; [reflexivity|].
  split; [apply scan_report_length|]. split; [apply web_vitals_with_lighthouse|]. split.
  - intros cwv Hcwv. unfold Report.pages. rewrite generate_unfold.
    change (Report.in_scanResults (scan_report_input url env))
      with (performScan url (env_world env)).
    rewrite Hcwv.
    destruct (later_pages_prefix (scan_report_input url env)
                (Report.add_page "Core Web Vitals" (Report.page6_ops cwv)
                   (fixed_pages (scan_report_input url env)))) as [tail E].
    rewrite E. eexists. split; [|split; [|split]].
    + rewrite nth_error_app1; [reflexivity | simpl; lia].
    + reflexivity.
    + apply vital_page_names.
    + reflexivity.
  - intros Hpdf' Hai Htech Hno Hyes. rewrite scan_report_pages, Hpdf'.
    eexists. split; [reflexivity|]. rewrite !scan_report_length.
    rewrite Hno, Hyes, (web_vitals_with_lighthouse url _ Hyes).
    rewrite (technologies_of_techstack url _ _ Htech), (has_ai_of_env url env' env Hai).
    destruct (Report.has_lighthouse_scores (performScan url (env_world env))); cbn [b2n]; lia.
Qed.

Lemma scan_report_pages_and_web_vitals_witness :
  (exists pages,
     scan_report "https://example.com" (sample_env (uniform_world (Ret (bare_page page_one_image))))
       = Some pages
     /\ length pages = 7%nat)
  /\ (exists pages',
        scan_report "https://example.com" (pagespeed_env (9 # 10) (bare_page page_one_image))
          = Some pages'
        /\ length pages' = 8%nat).
Proof.
  destruct (scan_report_pages_and_web_vitals "https://example.com"
              (sample_env (uniform_world (Ret (bare_page page_one_image))))
              (pagespeed_env (9 # 10) (bare_page page_one_image)) eq_refl)
    as (pages & Hpages & Hlen & _ & _ & Hadd).
  split.
  - exists pages. split; [exact Hpages|]. rewrite Hlen. vm_compute. reflexivity.
  - destruct (Hadd eq_refl eq_refl eq_refl) as (pages' & Hpages' & Hlen').
    + vm_compute. reflexivity.
    + vm_compute. reflexivity.
    + exists pages'. split; [exact Hpages'|]. rewrite Hlen', Hlen. vm_compute. reflexivity.
Defined.

(** ** Line wrapping *)

Lemma split_on_not_nil (sep : ascii) (s : string) : split_on sep s <> [].
Proof.
  induction s as [|c s IH]; cbn [split_on]; [discriminate|].
  destruct (Ascii.eqb c sep); [discriminate|]. destruct (split_on sep s); discriminate.
Qed.

Lemma append_nil_l (s : string) : (EmptyString ++ s)%string = s.
Proof. reflexivity. Qed.

Lemma append_cons (c : ascii) (a s : string) : (String c a ++ s)%string = String c (a ++ s).
Proof. reflexivity. Qed.

Lemma split_on_app (sep : ascii) (a b : string) :
  split_on sep (a ++ String sep b) = split_on sep a ++ split_on sep b.
Proof.
  induction a as [|c a IH]; rewrite ?append_nil_l, ?append_cons; cbn [split_on].
  - rewrite Ascii.eqb_refl. reflexivity.
  - destruct (Ascii.eqb c sep); rewrite IH; [reflexivity|].
    pose proof (split_on_not_nil sep a) as Hne.
    destruct (split_on sep a); [contradiction|reflexivity].
Qed.

(** A piece of a split holds no separator: splitting it again changes nothing. *)
Lemma split_on_piece (sep : ascii) (s w : string) :
  In w (split_on sep s) -> split_on sep w = [w].
Proof.
  revert w. induction s as [|c s IH]; intros w; cbn [split_on].
  - intros [<-|[]]. reflexivity.
  - destruct (Ascii.eqb c sep) eqn:Ec.
    + intros [<-|H]; [reflexivity|auto].
    + pose proof (split_on_not_nil sep s) as Hne.
      destruct (split_on sep s) as [|p ps]; [contradiction|].
      intros [<-|H].
      * cbn [split_on]. rewrite Ec, (IH p) by (now left). reflexivity.
      * apply IH. now right.
Qed.

Lemma words_of_piece (s w : string) :
  In w (split_on " " s) -> words_of w = List.filter nonempty [w].
Proof. intros H. unfold words_of. rewrite (split_on_piece " " s w H). reflexivity. Qed.

Lemma words_of_app (a b : string) :
  words_of (a ++ String " " b) = words_of a ++ words_of b.
Proof. unfold words_of. rewrite split_on_app, List.filter_app. reflexivity. Qed.

Section Wrapping.

Variables maxWidth fontSize : Q.

Let kept := wrap_kept maxWidth fontSize.

Lemma wrap_step_kept (text : string) (read : list string) (st : list string * string)
    (word : string) :
  In word (split_on " " text) ->
  kept text read st -> kept text (read ++ [word]) (wrap_step maxWidth fontSize st word).
Proof.
  unfold kept, wrap_kept. intros Hword (Hne & Hfit & Hwords). destruct st as [lines cur].
  cbn [fst snd] in *. unfold wrap_step.
  assert (Hw : words_of word = List.filter nonempty [word]) by exact (words_of_piece _ _ Hword).
  rewrite List.filter_app, <- Hwords, <- Hw.
  destruct cur as [|c cur']; cbn [nonempty]; rewrite ?append_nil_l.
  - rewrite andb_false_r. cbn [fst snd]. split; [exact Hne|]. split.
    + intros line Hl. apply in_app_or in Hl as [Hl|[<-|[]]]; [|auto].
      apply Hfit, in_or_app. now left.
    + change (words_of EmptyString) with (@nil string). rewrite app_nil_r. reflexivity.
  - rewrite andb_true_r.
    change (" " ++ word)%string with (String " " word).
    destruct (too_wide maxWidth fontSize (String c cur' ++ String " " word)) eqn:Ewide;
      cbn [fst snd].
    + split; [|split].
      * intros line Hl. apply in_app_or in Hl as [Hl|[<-|[]]]; [auto|discriminate].
      * intros line Hl. apply in_app_or in Hl as [Hl|[<-|[]]]; [apply Hfit, Hl|auto].
      * rewrite flat_map_app. cbn [flat_map]. rewrite app_nil_r, <- app_assoc. reflexivity.
    + split; [exact Hne|]. split.
      * intros line Hl. apply in_app_or in Hl as [Hl|[<-|[]]]; [|auto].
        apply Hfit, in_or_app. now left.
      * rewrite words_of_app, app_assoc. reflexivity.
Qed.

Lemma wrap_loop_kept (text : string) (words read : list string) (st : list string * string) :
  (forall w, In w words -> In w (split_on " " text)) ->
  kept text read st ->
  kept text (read ++ words) (fold_left (wrap_step maxWidth fontSize) words st).
Proof.
  revert read st. induction words as [|w words IH]; intros read st Hsub Hkept.
  - rewrite app_nil_r. exact Hkept.
  - cbn [fold_left]. replace (read ++ w :: words) with ((read ++ [w]) ++ words)
      by (rewrite <- app_assoc; reflexivity).
    apply IH; [intros v Hv; apply Hsub; now right|].
    apply wrap_step_kept; [apply Hsub; now left|exact Hkept].
Qed.

Lemma wrapText_kept (text : string) :
  (forall line, In line (wrapText text maxWidth fontSize) ->
     line <> EmptyString
     /\ (too_wide maxWidth fontSize line = false \/ In line (split_on " " text)))
  /\ flat_map words_of (wrapText text maxWidth fontSize) = words_of text.
Proof.
  unfold wrapText. destruct text as [|c t] eqn:Etext; [split; [intros line []|reflexivity]|].
  rewrite <- Etext. replace (nonempty text) with true by (rewrite Etext; reflexivity).
  cbn [negb]. cbv zeta.
  pose proof (wrap_loop_kept text (split_on " " text) [] ([], EmptyString) (fun w H => H)) as H.
  unfold kept, wrap_kept in H.
  destruct (fold_left (wrap_step maxWidth fontSize) (split_on " " text) ([], EmptyString))
    as [lines cur].
  destruct H as (Hne & Hfit & Hwords).
  { split; [intros line []|]. split; [|reflexivity]. intros line [<-|[]]. now left. }
  cbn [fst snd app] in *. fold (words_of text) in Hwords.
  destruct cur as [|d cur']; cbn [nonempty].
  - split.
    + intros line Hl. split; [auto|].
      destruct (Hfit line (in_or_app _ _ _ (or_introl Hl))) as [->|H]; [|exact H].
      exfalso. exact (Hne _ Hl eq_refl).
    + rewrite <- Hwords. change (words_of EmptyString) with (@nil string).
      rewrite app_nil_r. reflexivity.
  - split.
    + intros line Hl. split.
      * apply in_app_or in Hl as [Hl|[<-|[]]]; [auto|discriminate].
      * destruct (Hfit line Hl) as [->|H]; [|exact H].
        apply in_app_or in Hl as [Hl|[Hl|[]]]; [|discriminate].
        exfalso. exact (Hne _ Hl eq_refl).
    + rewrite flat_map_app. cbn [flat_map]. rewrite app_nil_r. exact Hwords.
Qed.

End Wrapping.

(** X23. A wrapped line overflows only when it cannot be broken: every
    line [wrapText] returns is non-empty, and either fits the width or is a
    single word of the text. *)
Theorem wrapped_lines_fit (text : string) (maxWidth fontSize : Q) (line : string) :
  In line (wrapText text maxWidth fontSize) ->
  line <> EmptyString
  /\ (too_wide maxWidth fontSize line = false \/ In line (split_on " " text)).
Proof. apply (proj1 (wrapText_kept maxWidth fontSize text)). Qed.

Lemma wrapped_lines_fit_witness :
  "measure real user" <> EmptyString
  /\ (too_wide 100 8 "measure real user" = false
      \/ In "measure real user"
           (split_on " " "Core Web Vitals measure real user experience")).
Proof.
  apply (wrapped_lines_fit "Core Web Vitals measure real user experience" 100 8).
  vm_compute. right. left. reflexivity.
Defined.

(** X24. Wrapping loses no word: the words of the lines [wrapText]
    returns, read line after line, are the words of the text in their
    order. Only the places of the line breaks, and the runs of spaces
    around them, differ. *)
Theorem wrapping_keeps_the_words (text : string) (maxWidth fontSize : Q) :
  flat_map words_of (wrapText text maxWidth fontSize) = words_of text.
Proof. apply (proj2 (wrapText_kept maxWidth fontSize text)). Qed.

(** ** The accessibility analyzer and the tags of the page *)

Lemma split_prefix_cons (c : ascii) (p : string) (a : ascii) (s : string) :
  split_prefix (String c p) (String a s) =
    if Ascii.eqb (to_lower c) (to_lower a)
    then match split_prefix p s with
         | Some (m, rest) => Some (String a m, rest)
         | None => None
         end
    else None.
Proof. reflexivity. Qed.

Lemma exec_lit (p : string) (prev : option ascii) (s : string) (caps : list string)
    (k : mstate -> option mstate) :
  exec true (lit p) (MState prev s caps) k =
    match split_prefix p s with
    | Some (m, rest) => k (MState (prev_after prev m) rest caps)
    | None => None
    end.
Proof.
  revert prev s. induction p as [|c p IH]; intros prev s; [reflexivity|].
  destruct p as [|c' p].
  - cbn [lit exec ms_rest ms_caps split_prefix]. destruct s as [|a s]; [reflexivity|].
    unfold chr_eq. destruct (Ascii.eqb (to_lower c) (to_lower a)); reflexivity.
  - change (lit (String c (String c' p))) with (Seq (Chr c) (lit (String c' p))).
    cbn [exec ms_rest ms_caps]. destruct s as [|a s]; [reflexivity|].
    unfold chr_eq. rewrite split_prefix_cons.
    destruct (Ascii.eqb (to_lower c) (to_lower a)); [|reflexivity].
    rewrite IH. destruct (split_prefix (String c' p) s) as [[m rest]|]; reflexivity.
Qed.

(** [[^>]] under the [i] flag, and [>] itself. *)
Lemma not_gt_class (a : ascii) :
  xorb true (cls_has true [CChar ">"] a) = negb (Ascii.eqb a ">").
Proof. destruct a as [[] [] [] [] [] [] [] []]; reflexivity. Qed.

Lemma chr_eq_gt (a : ascii) : chr_eq true ">" a = Ascii.eqb a ">".
Proof. destruct a as [[] [] [] [] [] [] [] []]; reflexivity. Qed.

Lemma exec_star (ci greedy : bool) (r1 : re) (st : mstate) (k : mstate -> option mstate) :
  exec ci (Star greedy r1) st k
  = star_loop ci greedy r1 k (S (String.length (ms_rest st))) st.
Proof. reflexivity. Qed.

Lemma star_loop_not_gt (k : mstate -> option mstate) (caps : list string) (fuel : nat) :
  forall prev s, (String.length s < fuel)%nat ->
    star_loop true true not_gt k fuel (MState prev s caps) = longest_first prev s caps k.
Proof.
  induction fuel as [|fuel IH]; intros prev s Hlt; [lia|].
  destruct s as [|a rest]; [reflexivity|].
  cbn [star_loop]. unfold not_gt. cbn [exec ms_rest ms_caps longest_first].
  rewrite not_gt_class.
  destruct (Ascii.eqb a ">"); cbn [negb]; [reflexivity|].
  cbn [ms_rest String.length].
  replace (String.length rest <? S (String.length rest))%nat with true
    by (symmetry; apply Nat.ltb_lt; lia).
  fold not_gt. fold (star_loop true true not_gt k).
  rewrite IH by (cbn [String.length] in Hlt; lia). reflexivity.
Qed.

Lemma exec_star_not_gt (prev : option ascii) (s : string) (caps : list string)
    (k : mstate -> option mstate) :
  exec true (Star true not_gt) (MState prev s caps) k = longest_first prev s caps k.
Proof. rewrite exec_star. apply star_loop_not_gt. cbn. lia. Qed.

Lemma exec_seq (ci : bool) (r1 r2 : re) (st : mstate) (k : mstate -> option mstate) :
  exec ci (Seq r1 r2) st k = exec ci r1 st (fun st1 => exec ci r2 st1 k).
Proof. reflexivity. Qed.

Lemma exec_neglook (ci : bool) (r1 : re) (st : mstate) (k : mstate -> option mstate) :
  exec ci (NegLook r1) st k =
    match exec ci r1 st Some with
    | Some _ => None
    | None => k st
    end.
Proof. reflexivity. Qed.

Lemma longest_first_word (word : string) (prev : option ascii) (s : string) (caps : list string) :
  is_some (longest_first prev s caps (fun st => exec true (lit word) st Some))
  = in_open_tag word s.
Proof.
  revert prev. induction s as [|a rest IH]; intros prev.
  - cbn [longest_first in_open_tag]. rewrite exec_lit.
    destruct (split_prefix word EmptyString) as [[m r]|]; reflexivity.
  - cbn [longest_first in_open_tag]. destruct (Ascii.eqb a ">").
    + rewrite exec_lit. destruct (split_prefix word (String a rest)) as [[m r]|]; reflexivity.
    + specialize (IH (Some a)).
      destruct (longest_first (Some a) rest caps _) as [out|]; cbn [is_some] in *.
      * rewrite <- IH. destruct (split_prefix word (String a rest)) as [[m r]|]; reflexivity.
      * rewrite exec_lit, <- IH.
        destruct (split_prefix word (String a rest)) as [[m r]|]; reflexivity.
Qed.

Lemma longest_first_tag_end (prev : option ascii) (s : string) (caps : list string)
    (k : mstate -> option mstate) :
  longest_first prev s caps (fun st => exec true (Chr ">") st k)
  = match split_tag_end s with
    | Some (m, rest) => k (MState (Some ">"%char) rest caps)
    | None => None
    end.
Proof.
  revert prev. induction s as [|a rest IH]; intros prev; [reflexivity|].
  cbn [longest_first split_tag_end]. destruct (Ascii.eqb a ">") eqn:Ea.
  - cbn [exec ms_rest ms_caps]. rewrite chr_eq_gt, Ea.
    apply Ascii.eqb_eq in Ea. subst a. reflexivity.
  - rewrite IH. destruct (split_tag_end rest) as [[m r]|].
    + destruct (k _); [reflexivity|]. cbn [exec ms_rest]. rewrite chr_eq_gt, Ea. reflexivity.
    + cbn [exec ms_rest]. rewrite chr_eq_gt, Ea. reflexivity.
Qed.

Lemma length_append (a b : string) :
  String.length (a ++ b) = (String.length a + String.length b)%nat.
Proof.
  induction a as [|c a IH]; [reflexivity|].
  rewrite append_cons. cbn [String.length]. rewrite IH. reflexivity.
Qed.

Lemma str_take_append (a b : string) : str_take (String.length a) (a ++ b) = a.
Proof.
  induction a as [|c a IH]; [destruct b; reflexivity|].
  rewrite append_cons. cbn [String.length str_take]. rewrite IH. reflexivity.
Qed.

Lemma consumed_append (a b : string) : consumed (a ++ b) b = a.
Proof.
  unfold consumed. rewrite length_append.
  replace (String.length a + String.length b - String.length b)%nat with (String.length a) by lia.
  apply str_take_append.
Qed.

Lemma split_prefix_append (p s m rest : string) :
  split_prefix p s = Some (m, rest) -> s = (m ++ rest)%string.
Proof.
  revert s m. induction p as [|c p IH]; intros s m.
  - cbn. intros [= <- <-]. reflexivity.
  - destruct s as [|a s]; [discriminate|]. rewrite split_prefix_cons.
    destruct (Ascii.eqb (to_lower c) (to_lower a)); [|discriminate].
    destruct (split_prefix p s) as [[m' r']|] eqn:E; [|discriminate].
    intros [= <- <-]. rewrite append_cons. f_equal. apply IH, E.
Qed.

Lemma split_prefix_nonempty (c : ascii) (p s m rest : string) :
  split_prefix (String c p) s = Some (m, rest) -> m <> EmptyString.
Proof.
  destruct s as [|a s]; [discriminate|]. rewrite split_prefix_cons.
  destruct (Ascii.eqb (to_lower c) (to_lower a)); [|discriminate].
  destruct (split_prefix p s) as [[m' r']|]; [|discriminate].
  intros [= <- <-]. discriminate.
Qed.

Lemma split_tag_end_append (s m rest : string) :
  split_tag_end s = Some (m, rest) -> s = (m ++ rest)%string.
Proof.
  revert m. induction s as [|a s IH]; intros m; [discriminate|].
  cbn [split_tag_end]. destruct (Ascii.eqb a ">").
  - intros [= <- <-]. reflexivity.
  - destruct (split_tag_end s) as [[m' r']|] eqn:E; [|discriminate].
    intros [= <- <-]. rewrite append_cons. f_equal. apply IH. reflexivity.
Qed.

Lemma append_assoc (a b c : string) : ((a ++ b) ++ c = a ++ (b ++ c))%string.
Proof.
  induction a as [|x a IH]; [rewrite !append_nil_l; reflexivity|].
  rewrite !append_cons, IH. reflexivity.
Qed.

Lemma img_without_alt_at_append (s tag rest : string) :
  img_without_alt_at s = Some (tag, rest) ->
  s = (tag ++ rest)%string /\ tag <> EmptyString.
Proof.
  unfold img_without_alt_at.
  destruct (split_prefix "<img" s) as [[opening inside]|] eqn:Ep; [|discriminate].
  destruct (in_open_tag "alt=" inside); [discriminate|].
  destruct (split_tag_end inside) as [[m r]|] eqn:Ee; [|discriminate].
  intros [= <- <-]. apply split_prefix_append in Ep as Hs. apply split_tag_end_append in Ee.
  split.
  - rewrite append_assoc, <- Ee. exact Hs.
  - apply split_prefix_nonempty in Ep. destruct opening; [congruence|].
    rewrite append_cons. discriminate.
Qed.

(** An attempt of the pattern of the images without [alt] at the cursor
    finds the tag that the text holds there. *)
Lemma match_here_img_without_alt (prev : option ascii) (s : string) :
  match_here true re_img_without_alt prev s =
    match img_without_alt_at s with
    | Some (tag, rest) => Some (Found tag [] (MState (Some ">"%char) rest []))
    | None => None
    end.
Proof.
  unfold match_here, re_img_without_alt.
  change (cat [lit "<img"; NegLook (cat [Star true not_gt; lit "alt="]); Star true not_gt; Chr ">"])
    with (Seq (lit "<img")
            (Seq (NegLook (Seq (Star true not_gt) (lit "alt=")))
                 (Seq (Star true not_gt) (Chr ">")))).
  rewrite exec_seq, exec_lit.
  destruct (img_without_alt_at s) as [[tag rest]|] eqn:Eat.
  - destruct (img_without_alt_at_append _ _ _ Eat) as [Hs _].
    unfold img_without_alt_at in Eat.
    destruct (split_prefix "<img" s) as [[opening inside]|]; [|discriminate].
    rewrite exec_seq, exec_neglook, exec_seq, exec_star_not_gt.
    pose proof (longest_first_word "alt=" (prev_after prev opening) inside []) as Hlook.
    destruct (in_open_tag "alt=" inside); [discriminate|].
    destruct (longest_first _ inside [] (fun st => exec true (lit "alt=") st Some));
      [discriminate Hlook|].
    rewrite exec_seq, exec_star_not_gt, longest_first_tag_end.
    destruct (split_tag_end inside) as [[m r]|]; [|discriminate].
    injection Eat as <- <-. cbn [ms_rest ms_caps]. rewrite Hs at 1. rewrite consumed_append.
    reflexivity.
  - unfold img_without_alt_at in Eat.
    destruct (split_prefix "<img" s) as [[opening inside]|]; [|reflexivity].
    rewrite exec_seq, exec_neglook, exec_seq, exec_star_not_gt.
    pose proof (longest_first_word "alt=" (prev_after prev opening) inside []) as Hlook.
    destruct (in_open_tag "alt=" inside).
    + destruct (longest_first _ inside [] (fun st => exec true (lit "alt=") st Some));
        [reflexivity|discriminate Hlook].
    + destruct (longest_first _ inside [] (fun st => exec true (lit "alt=") st Some));
        [discriminate Hlook|].
      rewrite exec_seq, exec_star_not_gt, longest_first_tag_end.
      destruct (split_tag_end inside) as [[m r]|]; [discriminate|reflexivity].
Qed.

Lemma search_img_without_alt (prev : option ascii) (s : string) :
  search true re_img_without_alt prev s =
    match next_img_without_alt s with
    | Some (tag, rest) => Some (Found tag [] (MState (Some ">"%char) rest []))
    | None => None
    end.
Proof.
  revert prev. induction s as [|a s IH]; intros prev; cbn [search next_img_without_alt];
    rewrite match_here_img_without_alt.
  - destruct (img_without_alt_at EmptyString) as [[tag rest]|]; reflexivity.
  - destruct (img_without_alt_at (String a s)) as [[tag rest]|]; [reflexivity|]. apply IH.
Qed.

Lemma next_img_without_alt_nonempty (s tag rest : string) :
  next_img_without_alt s = Some (tag, rest) -> tag <> EmptyString.
Proof.
  induction s as [|a s IH]; cbn [next_img_without_alt].
  - destruct (img_without_alt_at EmptyString) as [[t r]|] eqn:E; [|discriminate].
    intros [= <- <-]. eapply img_without_alt_at_append, E.
  - destruct (img_without_alt_at (String a s)) as [[t r]|] eqn:E; [|exact IH].
    intros [= <- <-]. eapply img_without_alt_at_append, E.
Qed.

Lemma all_from_img_without_alt (fuel : nat) (prev : option ascii) (s : string) :
  map f_text (all_from fuel true re_img_without_alt prev s) = imgs_without_alt_from fuel s.
Proof.
  revert prev s. induction fuel as [|fuel IH]; intros prev s; [reflexivity|].
  cbn [all_from imgs_without_alt_from]. rewrite search_img_without_alt.
  destruct (next_img_without_alt s) as [[tag rest]|] eqn:E; [|reflexivity].
  apply next_img_without_alt_nonempty in E.
  cbn [f_after f_text ms_rest ms_prev]. destruct tag as [|c tag]; [congruence|].
  cbn [map f_text]. rewrite IH. reflexivity.
Qed.

(** The matches of the pattern of the images without [alt] are the [img]
    tags without [alt=] of the text. *)
Lemma img_without_alt_matches_are_tags (html : string) :
  match_all true re_img_without_alt html = imgs_without_alt html.
Proof. apply all_from_img_without_alt. Qed.

Lemma match_here_html_lang (prev : option ascii) (s : string) :
  is_some (match_here true re_html_lang prev s) =
    match split_prefix "<html" s with
    | Some (_, inside) => in_open_tag "lang=" inside
    | None => false
    end.
Proof.
  unfold match_here, re_html_lang.
  change (cat [lit "<html"; Star true not_gt; lit "lang="])
    with (Seq (lit "<html") (Seq (Star true not_gt) (lit "lang="))).
  rewrite exec_seq, exec_lit.
  destruct (split_prefix "<html" s) as [[opening inside]|]; [|reflexivity].
  rewrite exec_seq, exec_star_not_gt.
  rewrite <- (longest_first_word "lang=" (prev_after prev opening) inside []).
  destruct (longest_first _ inside [] _); reflexivity.
Qed.

(** The pattern of the language finds a match where some [<html] is
    followed by [lang=] before the next [>], and nowhere else. *)
Lemma html_lang_test_is_scan (html : string) :
  test true re_html_lang html = html_tag_has_lang html.
Proof.
  unfold test. generalize (@None ascii) as prev.
  induction html as [|a s IH]; intros prev; cbn [search html_tag_has_lang].
  - pose proof (match_here_html_lang prev EmptyString) as H.
    destruct (match_here true re_html_lang prev EmptyString); cbn [is_some] in H;
      rewrite <- H; reflexivity.
  - pose proof (match_here_html_lang prev (String a s)) as H.
    destruct (match_here true re_html_lang prev (String a s)); cbn [is_some] in H;
      rewrite <- H; [reflexivity|]. cbn [orb]. apply IH.
Qed.

(** C6 does not hold as the specification states it. The analyzer reads
    the text, not the tags: an [img] tag that has no [alt] attribute but
    holds the text [alt=] in another attribute, such as [data-alt=], is not
    counted, and neither is an [html] tag whose [data-lang=] holds [lang=].
    On this page the three images have no [alt] and the [html] tag has no
    [lang], no other pattern is flagged, and the analyzer reports no issue
    at all. *)
Lemma images_with_data_alt_are_not_flagged :
  Html.tags_without "img" "alt" page_data_attributes
    = ["img data-alt='a' src='a.png'"; "img data-alt='b' src='b.png'";
       "img data-alt='c' src='c.png'"]
  /\ Html.tags_without "html" "lang" page_data_attributes = ["html data-lang='en'"]
  /\ exists s,
       performAccessibilityScan (uniform_world (Ret (bare_page page_data_attributes))) = Ret s
       /\ acc_status s = Some completed
       /\ acc_issues s = Some []
       /\ acc_total_issues s = Some 0
       /\ acc_wcag_level s = Some "Passes Level A (potential AA issues)".
Proof.
  split; [vm_compute; reflexivity|]. split; [vm_compute; reflexivity|].
  eexists. split; [vm_compute; reflexivity|]. repeat split; reflexivity.
Qed.

(** C6, amended. On a page whose text holds three [img] tags without
    [alt=] (three times, [<img] is followed by a [>] with no [alt=] before
    it), in which no [<html] is followed by [lang=] before the next [>],
    and on which no other pattern of the analyzer is flagged, the
    accessibility analyzer returns exactly two issues, a critical one for
    the images with count 3 and a high one for the language, and the level
    Fails Level A. The first two hypotheses are about the text of the page:
    [img_without_alt_matches_are_tags] and [html_lang_test_is_scan] show
    that the two patterns of the analyzer find these tags and no others. *)
Theorem accessibility_three_images_no_lang (w : World) (response : Response) (html : string) :
  w_fetch_accessibility w = Ret response ->
  resp_text response = Ret html ->
  length (imgs_without_alt html) = 3%nat ->
  html_tag_has_lang html = false ->
  match_all true re_button_without_text html = [] ->
  len (match_all true re_input html) <= len (match_all true re_label html) + 2 ->
  (match_all true re_heading html = [] \/ len (match_all true re_h1 html) = 1) ->
  len (match_all true re_h1 html) <= 1 ->
  match_all true re_link_without_text html = [] ->
  test true re_skip_link html = true ->
  match_all true re_tabindex_negative html = [] ->
  exists s, performAccessibilityScan w = Ret s
    /\ acc_status s = Some completed
    /\ acc_issues s = Some [three_images_issue; missing_lang_issue]
    /\ acc_total_issues s = Some 2
    /\ acc_wcag_level s = Some "Fails Level A".
Proof.
  intros Hf Ht Himg Hlang Hbtn Hinput Hhead Hh1 Hlink Hskip Htab.
  unfold performAccessibilityScan, performAccessibilityScan_try.
  rewrite Hf. simpl. rewrite Ht. simpl.
  assert (Hissues : accessibility_issues html = [three_images_issue; missing_lang_issue]).
  { unfold accessibility_issues.
    rewrite img_without_alt_matches_are_tags, html_lang_test_is_scan.
    assert (Himg' : len (imgs_without_alt html) = 3) by (unfold len; rewrite Himg; reflexivity).
    rewrite Himg', Hlang, Hbtn, Hlink, Hskip, Htab.
    replace (len (match_all true re_label html) + 2 <? len (match_all true re_input html))
      with false by (symmetry; apply Z.ltb_ge; exact Hinput).
    assert (Hnohead : (len (match_all true re_h1 html) =? 0)
                        && (0 <? len (match_all true re_heading html)) = false).
    { destruct Hhead as [Hhead|Hhead]; rewrite Hhead; [apply andb_false_r | reflexivity]. }
    rewrite Hnohead.
    replace (1 <? len (match_all true re_h1 html)) with false
      by (symmetry; apply Z.ltb_ge; exact Hh1).
    reflexivity. }
  eexists. split; [reflexivity|]. unfold accessibility_section. rewrite Hissues.
  repeat split; reflexivity.
Qed.

Lemma accessibility_three_images_no_lang_witness :
  imgs_without_alt page_three_of_four_images
    = ["<img src='a.png'>"; "<img src='b.png'>"; "<img src='c.png'>"]
  /\ exists s,
       performAccessibilityScan (uniform_world (Ret (bare_page page_three_of_four_images))) = Ret s
       /\ acc_status s = Some completed
       /\ acc_issues s = Some [three_images_issue; missing_lang_issue]
       /\ acc_total_issues s = Some 2
       /\ acc_wcag_level s = Some "Fails Level A".
Proof.
  split; [vm_compute; reflexivity|].
  apply (accessibility_three_images_no_lang
           (uniform_world (Ret (bare_page page_three_of_four_images)))
           (bare_page page_three_of_four_images) page_three_of_four_images);
    try reflexivity; try (vm_compute; reflexivity); try (vm_compute; discriminate).
  right. reflexivity.
Defined.

(** ** The WCAG checker *)

Lemma count_push_if {A} (p : A -> bool) (c : bool) (x : A) (l : list A) :
  length (List.filter p (push_if c x l)) = (length (List.filter p l) + b2n (c && p x))%nat.
Proof.
  unfold push_if. destruct c; cbn [andb b2n]; [|lia].
  rewrite List.filter_app, length_app. cbn [List.filter]. destruct (p x); cbn [length b2n]; lia.
Qed.

Section WCAGScore.

Local Open Scope Q_scope.

(** [Math.round((passed / 15) * 100)] grows with [passed]. *)
Lemma wcag_score_mono (p q : Z) :
  (p <= q)%Z ->
  (math_round (inject_Z p / inject_Z 15 * 100) <= math_round (inject_Z q / inject_Z 15 * 100))%Z.
Proof.
  intros H. unfold math_round. apply Qfloor_resp_le.
  apply Qplus_le_compat; [|apply Qle_refl].
  apply Qmult_le_compat_r; [|discriminate].
  apply Qmult_le_compat_r; [|discriminate].
  rewrite <- Zle_Qle. exact H.
Qed.

End WCAGScore.

Example wcag_worst_page :
  let r := WCAG.checkWCAGCompliance page_failing_wcag in
  len (WCAG.issues r) = 11 /\ WCAG.passed_criteria r = 4 /\ WCAG.score r = 27
  /\ WCAG.compliant_a r = false.
Proof. vm_compute. repeat split. Qed.

(** The issue records of the checker, kept by their severity only. *)
Ltac abstract_wcag_issues :=
  repeat match goal with
         | |- context [WCAG.Build_WCAGIssue ?c ?l ?s ?d ?r] =>
             let x := fresh "x" in
             let Hx := fresh "Hx" in
             let Hs := fresh "Hs" in
             remember (WCAG.Build_WCAGIssue c l s d r) as x eqn:Hx;
             assert (Hs : WCAG.severity x = s) by (rewrite Hx; reflexivity); clear Hx
         end.

(** The numbers of issues, of critical ones and of serious ones: each of
    the eleven checks adds at most one issue, three of them a critical one
    and three a serious one. *)
Lemma wcag_issue_counts (html : string) :
  (length (WCAG.wcag_issues html) <= 11
   /\ length (WCAG.wcag_issues html)
      <= length (List.filter WCAG.is_critical (WCAG.wcag_issues html))
         + length (List.filter WCAG.is_serious (WCAG.wcag_issues html)) + 5)%nat.
Proof.
  unfold WCAG.wcag_issues.
  repeat match goal with
         | |- context [push_if ?c _ _] => is_var c; fail 1
         | |- context [push_if ?c _ _] => generalize c; intro
         end.
  abstract_wcag_issues.
  rewrite !count_push_if, !length_push_if. unfold WCAG.is_critical, WCAG.is_serious.
  repeat match goal with H : WCAG.severity _ = _ |- _ => rewrite ?H; clear H end.
  cbn [length List.filter]. rewrite ?andb_true_r, ?andb_false_r. cbn [b2n].
  bound_b2n. lia.
Qed.

(** X25. The WCAG checker reports 15 checked criteria but runs eleven
    checks: at most eleven issues are listed, so at least 4 criteria are
    always reported as passed and the score, the rounded share of passed
    criteria, is never below 27. The passed criteria and the issues add up
    to 15. *)
Theorem wcag_score_never_below_27 (html : string) :
  WCAG.checked_criteria (WCAG.checkWCAGCompliance html) = 15
  /\ WCAG.passed_criteria (WCAG.checkWCAGCompliance html)
     + len (WCAG.issues (WCAG.checkWCAGCompliance html)) = 15
  /\ len (WCAG.issues (WCAG.checkWCAGCompliance html)) <= 11
  /\ 4 <= WCAG.passed_criteria (WCAG.checkWCAGCompliance html) <= 15
  /\ 27 <= WCAG.score (WCAG.checkWCAGCompliance html) <= 100.
Proof.
  unfold WCAG.checkWCAGCompliance. cbv zeta.
  cbn [WCAG.checked_criteria WCAG.passed_criteria WCAG.issues WCAG.score].
  destruct (wcag_issue_counts html) as [H11 _].
  unfold len. set (n := length (WCAG.wcag_issues html)) in *.
  split; [reflexivity|]. split; [lia|]. split; [lia|]. split; [lia|]. split.
  - change 27 with (math_round (inject_Z 4 / inject_Z 15 * 100)). apply wcag_score_mono. lia.
  - change 100 with (math_round (inject_Z 15 / inject_Z 15 * 100)). apply wcag_score_mono. lia.
Qed.

Lemma wcag_serious_at_most_three (html : string) :
  (length (List.filter WCAG.is_serious (WCAG.wcag_issues html)) <= 3)%nat.
Proof.
  unfold WCAG.wcag_issues.
  repeat match goal with
         | |- context [push_if ?c _ _] => is_var c; fail 1
         | |- context [push_if ?c _ _] => generalize c; intro
         end.
  abstract_wcag_issues. rewrite !count_push_if. unfold WCAG.is_serious.
  repeat match goal with H : WCAG.severity _ = _ |- _ => rewrite ?H; clear H end.
  cbn [length List.filter]. rewrite ?andb_true_r, ?andb_false_r. cbn [b2n].
  bound_b2n. lia.
Qed.

(** X26. Compliance and score go together. A page the checker calls
    compliant at Level A lists no critical issue and scores 47 or more;
    when it is also called compliant at Level AA it lists no serious issue
    either, at most five issues in all, and scores 67 or more. Compliance
    at Level AA is never reported without compliance at Level A. *)
Theorem wcag_compliance_bounds_score (html : string) :
  WCAG.compliant_a (WCAG.checkWCAGCompliance html) = true ->
  List.filter WCAG.is_critical (WCAG.issues (WCAG.checkWCAGCompliance html)) = []
  /\ 47 <= WCAG.score (WCAG.checkWCAGCompliance html)
  /\ (WCAG.compliant_aa (WCAG.checkWCAGCompliance html) = true ->
      List.filter WCAG.is_serious (WCAG.issues (WCAG.checkWCAGCompliance html)) = []
      /\ len (WCAG.issues (WCAG.checkWCAGCompliance html)) <= 5
      /\ 67 <= WCAG.score (WCAG.checkWCAGCompliance html)).
Proof.
  unfold WCAG.checkWCAGCompliance. cbv zeta.
  cbn [WCAG.compliant_aa WCAG.compliant_a WCAG.issues WCAG.score].
  destruct (wcag_issue_counts html) as [H11 Hsum].
  pose proof (wcag_serious_at_most_three html) as Hser.
  unfold len.
  set (n := length (WCAG.wcag_issues html)) in *.
  set (crit := List.filter WCAG.is_critical (WCAG.wcag_issues html)) in *.
  set (ser := List.filter WCAG.is_serious (WCAG.wcag_issues html)) in *.
  intros Hc. apply Z.eqb_eq in Hc.
  assert (Hcrit : crit = []) by (destruct crit; [reflexivity|cbn [length] in Hc; lia]).
  rewrite Hcrit in *. cbn [length] in *.
  split; [reflexivity|]. split.
  - change 47 with (math_round (inject_Z 7 / inject_Z 15 * 100)). apply wcag_score_mono. lia.
  - cbn [Z.of_nat Z.eqb andb]. intros Hs. apply Z.eqb_eq in Hs.
    assert (Hnil : ser = []) by (destruct ser; [reflexivity|cbn [length] in Hs; lia]).
    rewrite Hnil in *. cbn [length] in *.
    split; [reflexivity|]. split; [lia|].
    change 67 with (math_round (inject_Z 10 / inject_Z 15 * 100)). apply wcag_score_mono. lia.
Qed.

Lemma wcag_compliance_bounds_score_witness :
  WCAG.compliant_a (WCAG.checkWCAGCompliance page_passing_wcag) = true
  /\ 47 <= WCAG.score (WCAG.checkWCAGCompliance page_passing_wcag).
Proof.
  assert (H : WCAG.compliant_a (WCAG.checkWCAGCompliance page_passing_wcag) = true)
    by (vm_compute; reflexivity).
  split; [exact H|]. exact (proj1 (proj2 (wcag_compliance_bounds_score page_passing_wcag H))).
Defined.

(** ** PageSpeed opportunities and diagnostics *)

Lemma str_or_nonempty (o : option string) (d : string) :
  d <> EmptyString -> str_or o d <> EmptyString.
Proof. intros Hd. destruct o as [[|c s]|]; cbn; [exact Hd|discriminate|exact Hd]. Qed.

Lemma failing_score_spec (audits : PageSpeedAudits) (auditId : string)
    (audit : PageSpeedAudit) (score : Q) :
  failing_score audits auditId = Some (audit, score) ->
  audits !! auditId = Some audit /\ audit_score audit = Some score /\ (score < 1)%Q.
Proof.
  unfold failing_score. destruct (audits !! auditId) as [a|]; [|discriminate].
  destruct (audit_score a) as [s|] eqn:Es; [|discriminate].
  destruct (Qltb s 1) eqn:E; [|discriminate]. intros [= <- <-].
  apply Qltb_true in E. repeat split; auto.
Qed.

(** X27. [extractPageSpeedOpportunities] returns at most five entries.
    Each one comes from an audit under one of the eight opportunity ids,
    carries the score of that audit, which is below 1, and has a title:
    that of the audit, or the id when the audit has none. *)
Theorem opportunities_are_open_audits (audits : PageSpeedAudits) (o : Opportunity) :
  In o (extractPageSpeedOpportunities audits) ->
  (length (extractPageSpeedOpportunities audits) <= 5)%nat
  /\ op_title o <> EmptyString
  /\ (op_score o < 1)%Q
  /\ exists auditId audit,
       In auditId opportunityAudits /\ audits !! auditId = Some audit
       /\ audit_score audit = Some (op_score o)
       /\ op_title o = str_or (audit_title audit) auditId.
Proof.
  intros Hin. split; [unfold extractPageSpeedOpportunities, slice0; rewrite length_firstn; lia|].
  apply In_slice0, in_flat_map in Hin as (auditId & Hid & Ho).
  unfold opportunity_of in Ho.
  destruct (failing_score audits auditId) as [[audit score]|] eqn:E; [|destruct Ho].
  destruct Ho as [<-|[]]. cbn [op_title op_score].
  apply failing_score_spec in E as (Ha & Hs & Hlt).
  split; [|split; [exact Hlt|eauto 6]].
  apply str_or_nonempty. intros ->.
  repeat (destruct Hid as [Hid|Hid]; [discriminate Hid|]). destruct Hid.
Qed.

Lemma opportunities_are_open_audits_witness :
  exists o, In o (extractPageSpeedOpportunities six_open_audits)
            /\ op_title o = "render-blocking-resources" /\ (op_score o < 1)%Q.
Proof.
  eexists. split; [left; reflexivity|]. split; [reflexivity|].
  refine (proj1 (proj2 (proj2 (opportunities_are_open_audits six_open_audits _ _)))).
  left. reflexivity.
Defined.

(** X28. The cap of five never cuts a diagnostic, there being five
    diagnostic ids: every audit under one of them with a score below 1 is
    in the result of [extractPageSpeedDiagnostics]. *)
Theorem diagnostics_are_never_cut (audits : PageSpeedAudits) (auditId : string)
    (audit : PageSpeedAudit) (score : Q) :
  In auditId diagnosticAudits ->
  audits !! auditId = Some audit ->
  audit_score audit = Some score ->
  (score < 1)%Q ->
  In {| dg_title := str_or (audit_title audit) auditId;
        dg_description := audit_description audit;
        dg_score := score |} (extractPageSpeedDiagnostics audits).
Proof.
  intros Hid Ha Hs Hlt. unfold extractPageSpeedDiagnostics, slice0.
  rewrite firstn_all2.
  - apply in_flat_map. exists auditId. split; [exact Hid|].
    unfold diagnostic_of, failing_score. rewrite Ha, Hs.
    replace (Qltb score 1) with true by (symmetry; apply Qltb_true; exact Hlt).
    now left.
  - unfold diagnosticAudits. cbn [flat_map]. rewrite !length_app. cbn [length].
    repeat match goal with
           | |- context [length (diagnostic_of audits ?i)] =>
               let n := fresh "n" in
               let Hn := fresh "Hn" in
               assert (Hn : (length (diagnostic_of audits i) <= 1)%nat)
                 by (unfold diagnostic_of; destruct (failing_score audits i) as [[? ?]|];
                     cbn [length]; lia);
               set (n := length (diagnostic_of audits i)) in *; clearbody n
           end.
    lia.
Qed.

Lemma diagnostics_are_never_cut_witness :
  In {| dg_title := "duplicated-javascript"; dg_description := None; dg_score := 1 # 2 |}
     (extractPageSpeedDiagnostics
        {[ "duplicated-javascript" := scored_audit (1 # 2) ]}).
Proof.
  apply (diagnostics_are_never_cut {[ "duplicated-javascript" := scored_audit (1 # 2) ]}
           "duplicated-javascript" (scored_audit (1 # 2)) (1 # 2)).
  - cbn. tauto.
  - apply lookup_singleton_eq.
  - reflexivity.
  - reflexivity.
Defined.

Lemma length_opportunities (audits : PageSpeedAudits) (ids : list string) :
  (length (flat_map (opportunity_of audits) ids) <= length ids)%nat.
Proof.
  induction ids as [|i ids IH]; cbn [flat_map length]; [lia|].
  rewrite length_app. unfold opportunity_of at 1.
  destruct (failing_score audits i) as [[? ?]|]; cbn [length]; lia.
Qed.

(** X29. Opportunities, of which there are eight ids, are cut from the
    end: an open audit under one of the first five ids is always listed,
    whatever the other audits. (Under the last three ids it is dropped as
    soon as five entries come before it.) *)
Theorem first_five_opportunities_are_kept (audits : PageSpeedAudits) (auditId : string)
    (audit : PageSpeedAudit) (score : Q) :
  In auditId (firstn 5 opportunityAudits) ->
  audits !! auditId = Some audit ->
  audit_score audit = Some score ->
  (score < 1)%Q ->
  In {| op_title := str_or (audit_title audit) auditId;
        op_description := audit_description audit;
        op_score := score;
        op_savings := match audit_savings audit with Some ms => ms | None => 0%Q end |}
     (extractPageSpeedOpportunities audits).
Proof.
  intros Hid Ha Hs Hlt.
  assert (Hsplit : exists pre post,
            opportunityAudits = pre ++ auditId :: post /\ (length pre < 5)%nat).
  { cbn [firstn opportunityAudits In] in Hid. unfold opportunityAudits.
    destruct Hid as [<-|[<-|[<-|[<-|[<-|[]]]]]].
    - exists []. eexists. split; [reflexivity|cbn; lia].
    - exists [ "render-blocking-resources" ]. eexists. split; [reflexivity|cbn; lia].
    - exists [ "render-blocking-resources"; "unused-css-rules" ]. eexists.
      split; [reflexivity|cbn; lia].
    - exists [ "render-blocking-resources"; "unused-css-rules"; "unused-javascript" ]. eexists.
      split; [reflexivity|cbn; lia].
    - exists [ "render-blocking-resources"; "unused-css-rules"; "unused-javascript";
               "modern-image-formats" ]. eexists.
      split; [reflexivity|cbn; lia]. }
  destruct Hsplit as (pre & post & Hsplit & Hpre).
  unfold extractPageSpeedOpportunities. rewrite Hsplit, flat_map_app. cbn [flat_map].
  unfold opportunity_of at 2. unfold failing_score. rewrite Ha, Hs.
  replace (Qltb score 1) with true by (symmetry; apply Qltb_true; exact Hlt).
  cbn [app]. apply In_slice0_app.
  pose proof (length_opportunities audits pre). lia.
Qed.

Lemma first_five_opportunities_are_kept_witness :
  In {| op_title := "modern-image-formats"; op_description := None; op_score := 1 # 2;
        op_savings := 0 |}
     (extractPageSpeedOpportunities six_open_audits).
Proof.
  apply (first_five_opportunities_are_kept six_open_audits "modern-image-formats"
           (scored_audit (1 # 2)) (1 # 2)); [cbn; tauto|reflexivity|reflexivity|reflexivity].
Defined.

Example sixth_opportunity_is_cut :
  length (flat_map (opportunity_of six_open_audits) opportunityAudits) = 6%nat
  /\ map op_title (extractPageSpeedOpportunities six_open_audits)
     = [ "render-blocking-resources"; "unused-css-rules"; "unused-javascript";
         "modern-image-formats"; "minify-javascript" ].
Proof. split; reflexivity. Qed.

(** ** The request handler *)

(** X30. The handler never answers 429. A scan that [processScan] refuses
    for its rate limit is answered 200, Scan started, like an admitted one;
    the refusal shows only in the table, where the scan is marked failed. *)
Theorem refused_scan_is_answered_200 (scanId url : string) (env : Env) (db : DB)
    (row : ScanRow) :
  scan_results db !! scanId = Some row ->
  fst (processScan scanId url env db) = Answered429 ->
  fst (serve (PostRequest (Ret (scanId, url))) env db) = ScanStarted scanId
  /\ scan_results (snd (serve (PostRequest (Ret (scanId, url))) env db)) !! scanId
     = Some (with_status scan_failed row)
  /\ forall req, answer_status (fst (serve req env db)) <> 429.
Proof.
  intros Hrow H429. cbn [serve fst snd]. split; [reflexivity|]. split.
  - revert H429. unfold processScan.
    destruct (env_hostname env) as [domain|e]; [|discriminate].
    simpl rate_limits.
    destruct (rate_limit_check (env_now env) domain (rate_limits db)) as [[|] rl];
      [destruct (env_update_error env); discriminate|].
    intros _. cbn [snd update_scan scan_results]. rewrite !lookup_alter_eq, Hrow. reflexivity.
  - intros [|[[? ?]|?]]; cbn; discriminate.
Qed.

Lemma refused_scan_is_answered_200_witness :
  fst (serve (PostRequest (Ret ("scan-1", "https://example.com"))) (sample_env offline) full_db)
  = ScanStarted "scan-1"
  /\ scan_results (snd (serve (PostRequest (Ret ("scan-1", "https://example.com")))
                          (sample_env offline) full_db)) !! "scan-1"
     = Some (with_status scan_failed new_row).
Proof.
  destruct (refused_scan_is_answered_200 "scan-1" "https://example.com" (sample_env offline)
              full_db new_row eq_refl eq_refl) as (H1 & H2 & _).
  split; assumption.
Defined.
